(** * CodeCompanion: task orchestration core

    A shallow embedding of the orchestration core of the CodeCompanion
    extension: the safety validator ([agent/safety.ts]), the task planner
    ([agent/planner.ts]) and the task manager ([manager.ts]), together with
    the properties of them that the specification states; and of what the
    manager works with: the dispatch of the executor ([agent/executor.ts]),
    the detection of the project type ([agent/context.ts]) and the status
    bar ([ui/statusbar.ts]), with further properties that the code shows.

    Conventions.
    - A JavaScript string is a [string] holding its UTF-8 bytes; substring
      and prefix tests on well-formed strings agree on both encodings.
    - A value of type [any] is a [jsval].  Numbers are kept as exact
      rationals: IEEE rounding is not modelled and nothing below depends
      on it.
    - A call that may throw returns a [completion]; a thrown value is
      represented by its message, which is all the callers read
      ([error instanceof Error ? error.message : String(error)]).
    - [new Date()] and [generateTaskId()] read the environment: their
      results are arguments of the operations that use them. *)

From Stdlib Require Import ZArith QArith Ascii String List Lia.
From stdpp Require Import gmap strings list fin_maps pretty.

Set Warnings "-register-all".
Local Open Scope string_scope.
Local Open Scope list_scope.

(** ** JavaScript values *)

Inductive jsval : Type :=
| JUndefined
| JNull
| JBool (b : bool)
| JNum (q : Q)
| JStr (s : string)
| JArr (items : list jsval)
| JObj (props : list (string * jsval)).

Inductive completion (A : Type) : Type :=
| Normal (a : A)
| Throw (message : string).
Arguments Normal {A} a.
Arguments Throw {A} message.

Definition bind {A B : Type} (c : completion A) (k : A -> completion B) : completion B :=
  match c with
  | Normal a => k a
  | Throw message => Throw message
  end.

Notation "x <~ c ; k" := (bind c (fun x => k))
  (at level 100, c at next level, right associativity).

Fixpoint mapM_index {A B : Type} (f : A -> nat -> completion B) (index : nat) (l : list A)
  : completion (list B) :=
  match l with
  | [] => Normal []
  | a :: l' =>
      b <~ f a index;
      bs <~ mapM_index f (S index) l';
      Normal (b :: bs)
  end.

(** [l.some(f)] for a callback that may throw: it stops at the first
    element for which [f] holds. *)
Fixpoint some {A : Type} (f : A -> completion bool) (l : list A) : completion bool :=
  match l with
  | [] => Normal false
  | a :: l' =>
      b <~ f a;
      if b : bool then Normal true else some f l'
  end.

(** *** Strings *)

(** [s.startsWith(p)] *)
Fixpoint startsWith (s p : string) {struct p} : bool :=
  match p with
  | EmptyString => true
  | String c p' =>
      match s with
      | EmptyString => false
      | String d s' => Ascii.eqb c d && startsWith s' p'
      end
  end.

(** [s.includes(sub)] *)
Fixpoint includes (s sub : string) : bool :=
  startsWith s sub ||
  match s with
  | EmptyString => false
  | String _ s' => includes s' sub
  end.

Definition lower_ascii (c : ascii) : ascii :=
  let n := nat_of_ascii c in
  if (65 <=? n)%nat && (n <=? 90)%nat then ascii_of_nat (n + 32) else c.

(** [s.toLowerCase()] on the ASCII letters.  The only characters outside
    ASCII whose lower-case form contains an ASCII letter are U+212A (to
    [k]) and U+0130 (to [i] followed by U+0307); no entry of
    [dangerousOperations] contains [k], or [i] followed by U+0307, so the
    one use of [toLowerCase] in [validateStep] is not affected. *)
Fixpoint toLowerCase (s : string) : string :=
  match s with
  | EmptyString => EmptyString
  | String c s' => String (lower_ascii c) (toLowerCase s')
  end.

(** [s.length]: the number of UTF-16 code units of the string whose UTF-8
    bytes are [s] (one per leading byte, two for a four-byte sequence). *)
Fixpoint String_length (s : string) : nat :=
  match s with
  | EmptyString => 0
  | String c s' =>
      let n := nat_of_ascii c in
      (if (n <? 128)%nat then 1
       else if (n <? 192)%nat then 0
       else if (n <? 240)%nat then 1
       else 2) + String_length s'
  end.

Fixpoint join (sep : string) (l : list string) : string :=
  match l with
  | [] => ""
  | [s] => s
  | s :: l' => s ++ sep ++ join sep l'
  end.

(** [s.split(sep)] for a separator that is not empty: the pieces of [s]
    between the occurrences of [sep], read from the left.  [skip] counts
    the characters of an occurrence that are still to be passed, and
    [piece] is the piece read so far. *)
Fixpoint split_pieces (sep s : string) (skip : nat) (piece : string) : list string :=
  match s with
  | EmptyString => [piece]
  | String c s' =>
      match skip with
      | S skip' => split_pieces sep s' skip' piece
      | O =>
          if startsWith s sep
          then piece :: split_pieces sep s' (String.length sep - 1) ""
          else split_pieces sep s' 0 (piece ++ String c "")
      end
  end.

Definition split (s sep : string) : list string := split_pieces sep s 0 "".

(** *** Conversions and property access *)

Fixpoint fraction_digits (fuel : nat) (r d : Z) : string :=
  match fuel with
  | O => ""
  | S fuel' =>
      if (r =? 0)%Z then ""
      else pretty (r * 10 / d)%Z ++ fraction_digits fuel' (r * 10 mod d)%Z d
  end.

(** [Number::toString] as the exact decimal expansion: what JavaScript
    prints for an integer below 10^21 and for a number whose shortest
    decimal form is the literal it was read from. *)
Definition Number_toString (q : Q) : string :=
  let n := Qnum q in
  let d := Z.pos (Qden q) in
  let frac := fraction_digits (Pos.size_nat (Qden q)) (Z.abs n mod d)%Z d in
  (if (n <? 0)%Z then "-" else "") ++ pretty (Z.abs n / d)%Z ++
  (if String.eqb frac "" then "" else "." ++ frac).

Fixpoint ToString (v : jsval) : string :=
  match v with
  | JUndefined => "undefined"
  | JNull => "null"
  | JBool true => "true"
  | JBool false => "false"
  | JNum q => Number_toString q
  | JStr s => s
  | JArr items =>
      join "," (List.map (fun item =>
                      match item with
                      | JUndefined | JNull => ""
                      | _ => ToString item
                      end) items)
  | JObj _ => "[object Object]"
  end.

Definition of_nat (n : nat) : jsval := JNum (inject_Z (Z.of_nat n)).

Definition of_option (o : option string) : jsval :=
  match o with
  | Some s => JStr s
  | None => JUndefined
  end.

(** ToBoolean *)
Definition truthy (v : jsval) : bool :=
  match v with
  | JUndefined | JNull => false
  | JBool b => b
  | JNum q => negb (Qnum q =? 0)%Z
  | JStr s => negb (String.eqb s "")
  | JArr _ | JObj _ => true
  end.

(** [a || b] *)
Definition js_or (a b : jsval) : jsval := if truthy a then a else b.

Fixpoint obj_get (key : string) (props : list (string * jsval)) : jsval :=
  match props with
  | [] => JUndefined
  | (k, v) :: props' => if String.eqb key k then v else obj_get key props'
  end.

(** [o[key] = v]: an existing property keeps its place. *)
Fixpoint obj_set (key : string) (v : jsval) (props : list (string * jsval))
  : list (string * jsval) :=
  match props with
  | [] => [(key, v)]
  | (k, w) :: props' =>
      if String.eqb key k then (k, v) :: props' else (k, w) :: obj_set key v props'
  end.

(** [v.key] for a data property, and for the [length] of a string or an
    array.  Other inherited properties are not modelled: none of the names
    read by the code below is one. *)
Definition get (v : jsval) (key : string) : completion jsval :=
  match v with
  | JUndefined =>
      Throw ("Cannot read properties of undefined (reading '" ++ key ++ "')")
  | JNull =>
      Throw ("Cannot read properties of null (reading '" ++ key ++ "')")
  | JObj props => Normal (obj_get key props)
  | JStr s => Normal (if String.eqb key "length" then of_nat (String_length s) else JUndefined)
  | JArr items => Normal (if String.eqb key "length" then of_nat (length items) else JUndefined)
  | _ => Normal JUndefined
  end.

(** [v > n] for a positive integer [n].  [undefined] converts to NaN,
    [null] and the booleans to 0 or 1, an object to NaN: none is greater.
    The conversion of a string or an array to a number is not modelled;
    the code compares only a [length]. *)
Definition js_gt (v : jsval) (n : Z) : bool :=
  match v with
  | JNum q => match Qcompare q (inject_Z n) with Gt => true | _ => false end
  | _ => false
  end.

Definition jsval_is_string (v : jsval) (s : string) : bool :=
  match v with
  | JStr s' => String.eqb s' s
  | _ => false
  end.

(** [v.includes(x)] for a string [x]: [String.prototype.includes] on a
    string, [Array.prototype.includes] on an array, a TypeError on any
    other value (it has no such method). *)
Definition js_includes (what : string) (v : jsval) (x : string) : completion bool :=
  match v with
  | JStr s => Normal (includes s x)
  | JArr items => Normal (existsb (fun item => jsval_is_string item x) items)
  | _ => Throw (what ++ ".includes is not a function")
  end.

(** [v.startsWith(p)] *)
Definition js_startsWith (what : string) (v : jsval) (p : string) : completion bool :=
  match v with
  | JStr s => Normal (startsWith s p)
  | _ => Throw (what ++ ".startsWith is not a function")
  end.

(** ** Types ([types.ts]) *)

Inductive TaskType : Type :=
| refactor | implement | fix_ | review | test | document.

Definition TaskType_name (type : TaskType) : string :=
  match type with
  | refactor => "refactor"
  | implement => "implement"
  | fix_ => "fix"
  | review => "review"
  | test => "test"
  | document => "document"
  end.

Module TaskStatus.
Inductive t : Type :=
| planning | analyzing | executing | completed | failed | cancelled.
End TaskStatus.

Module StepStatus.
Inductive t : Type :=
| pending | running | completed | failed.
End StepStatus.

(** [TaskStep].  [id], [name], [description] and [type] are declared as
    strings, but [parsePlanResponse] stores whatever the parsed response
    holds there, so they are values here. *)
Module TaskStep.
Record t : Type := mk {
  id : jsval;
  name : jsval;
  description : jsval;
  type : jsval;
  status : StepStatus.t;
  startedAt : option Z;
  completedAt : option Z;
  result : option jsval;
  error : option string;
  parameters : jsval
}.

Definition set_status (v : StepStatus.t) (s : t) : t :=
  mk (id s) (name s) (description s) (type s) v (startedAt s) (completedAt s)
     (result s) (error s) (parameters s).
Definition set_startedAt (v : Z) (s : t) : t :=
  mk (id s) (name s) (description s) (type s) (status s) (Some v) (completedAt s)
     (result s) (error s) (parameters s).
Definition set_completedAt (v : Z) (s : t) : t :=
  mk (id s) (name s) (description s) (type s) (status s) (startedAt s) (Some v)
     (result s) (error s) (parameters s).
Definition set_result (v : jsval) (s : t) : t :=
  mk (id s) (name s) (description s) (type s) (status s) (startedAt s) (completedAt s)
     (Some v) (error s) (parameters s).
Definition set_error (v : string) (s : t) : t :=
  mk (id s) (name s) (description s) (type s) (status s) (startedAt s) (completedAt s)
     (result s) (Some v) (parameters s).
End TaskStep.

Module GitInfo.
Record t : Type := mk {
  branch : string;
  lastCommit : string;
  hasUncommittedChanges : bool;
  remoteUrl : option string
}.
End GitInfo.

Module TaskContext.
Record t : Type := mk {
  workspaceRoot : option string;
  currentFile : option string;
  language : option string;
  projectType : option string;
  dependencies : option (list string);
  gitInfo : option GitInfo.t;
  userPreferences : option jsval;
  recentChanges : option jsval;
  openFiles : option (list string);
  scripts : option jsval
}.
End TaskContext.

Module SafetyValidation.
Record t : Type := mk {
  safe : bool;
  reason : option string;
  warnings : list string;
  recommendations : list string
}.

(** [validation.safe = false; validation.reason = r;
    validation.warnings.push(w); validation.recommendations.push(rec)] *)
Definition block (r w rec : string) (v : t) : t :=
  mk false (Some r) (warnings v ++ [w]) (recommendations v ++ [rec]).

(** [validation.warnings.push(w); validation.recommendations.push(rec)] *)
Definition warn (w rec : string) (v : t) : t :=
  mk (safe v) (reason v) (warnings v ++ [w]) (recommendations v ++ [rec]).
End SafetyValidation.

(** ** Regular expressions

    The patterns of the validator are made of characters, classes, [.],
    [\s], [*] and [+], without groups, anchors or flags.  A pattern is
    read over the UTF-8 bytes of the text: a character outside ASCII is the
    sequence of its bytes, and a class that excludes ASCII characters
    admits every byte of such a sequence.  [test] stands for
    [RegExp.prototype.test]: whether some part of the text matches. *)

Module RegExp.
Inductive Class : Type :=
| Char (c : ascii)          (* the character itself *)
| OneOf (l : list ascii)    (* a class that lists its characters *)
| NoneOf (l : list ascii).  (* a class that lists the characters it excludes *)

Definition member (k : Class) (c : ascii) : bool :=
  match k with
  | Char d => Ascii.eqb d c
  | OneOf l => existsb (Ascii.eqb c) l
  | NoneOf l => negb (existsb (Ascii.eqb c) l)
  end.

Inductive t : Type :=
| Never                (* matches no text *)
| Empty                (* matches the empty text *)
| One (k : Class)
| Seq (a b : t)
| Alt (a b : t)
| Star (a : t).

(** The texts that a pattern matches. *)
Inductive lang : t -> string -> Prop :=
| lang_Empty : lang Empty ""
| lang_One k c : member k c = true -> lang (One k) (String c "")
| lang_Seq a b s1 s2 : lang a s1 -> lang b s2 -> lang (Seq a b) (s1 ++ s2)
| lang_Alt_l a b s : lang a s -> lang (Alt a b) s
| lang_Alt_r a b s : lang b s -> lang (Alt a b) s
| lang_Star_nil a : lang (Star a) ""
| lang_Star_cons a s1 s2 : lang a s1 -> lang (Star a) s2 -> lang (Star a) (s1 ++ s2).

(** Matching by derivatives. *)
Definition seq (a b : t) : t :=
  match a, b with
  | Never, _ | _, Never => Never
  | Empty, _ => b
  | _, Empty => a
  | _, _ => Seq a b
  end.

Definition alt (a b : t) : t :=
  match a, b with
  | Never, _ => b
  | _, Never => a
  | _, _ => Alt a b
  end.

Fixpoint nullable (r : t) : bool :=
  match r with
  | Never | One _ => false
  | Empty | Star _ => true
  | Seq a b => nullable a && nullable b
  | Alt a b => nullable a || nullable b
  end.

Fixpoint derivative (c : ascii) (r : t) : t :=
  match r with
  | Never | Empty => Never
  | One k => if member k c then Empty else Never
  | Seq a b => alt (seq (derivative c a) b) (if nullable a then derivative c b else Never)
  | Alt a b => alt (derivative c a) (derivative c b)
  | Star a => seq (derivative c a) (Star a)
  end.

(** The pattern matches at the start of the text. *)
Fixpoint matches_prefix (r : t) (s : string) : bool :=
  nullable r ||
  match s with
  | EmptyString => false
  | String c s' => matches_prefix (derivative c r) s'
  end.

Fixpoint test (r : t) (s : string) : bool :=
  matches_prefix r s ||
  match s with
  | EmptyString => false
  | String _ s' => test r s'
  end.

(** A pattern all of whose matches hold the character [c]. *)
Fixpoint holds (c : ascii) (r : t) : bool :=
  match r with
  | Never => true
  | Empty | Star _ => false
  | One (Char d) => Ascii.eqb c d
  | One (OneOf l) => forallb (Ascii.eqb c) l
  | One (NoneOf _) => false
  | Seq a b => holds c a || holds c b
  | Alt a b => holds c a && holds c b
  end.

(** *** The notation of the patterns *)

Definition byte (n : nat) : ascii := ascii_of_nat n.

Fixpoint bytes (l : list nat) : t :=
  match l with
  | [] => Empty
  | [n] => One (Char (byte n))
  | n :: l' => Seq (One (Char (byte n))) (bytes l')
  end.

(** The characters of the text, one after the other. *)
Fixpoint lit (s : string) : t :=
  match s with
  | EmptyString => Empty
  | String c EmptyString => One (Char c)
  | String c s' => Seq (One (Char c)) (lit s')
  end.

Fixpoint alts (l : list t) : t :=
  match l with
  | [] => Never
  | [r] => r
  | r :: l' => Alt r (alts l')
  end.

Fixpoint seqs (l : list t) : t :=
  match l with
  | [] => Empty
  | [r] => r
  | r :: l' => Seq r (seqs l')
  end.

Definition plus (r : t) : t := Seq r (Star r).

(** [\s]: the white space and the line terminators of ECMAScript, which
    are U+0009 to U+000D, U+0020, U+00A0, U+1680, U+2000 to U+200A,
    U+2028, U+2029, U+202F, U+205F, U+3000 and U+FEFF. *)
Definition space : t :=
  alts [ One (OneOf (List.map byte [9; 10; 11; 12; 13; 32]));
         bytes [194; 160];
         bytes [225; 154; 128];
         Seq (bytes [226; 128])
             (One (OneOf (List.map byte [128; 129; 130; 131; 132; 133; 134; 135; 136;
                                         137; 138; 168; 169; 175])));
         bytes [226; 129; 159];
         bytes [227; 128; 128];
         bytes [239; 187; 191] ].

(** [.]: a character that is no line terminator (U+000A, U+000D, U+2028
    and U+2029, the last two being the bytes 226 128 168 and 226 128
    169). *)
Definition dot : t :=
  alts [ One (NoneOf (List.map byte [10; 13; 226]));
         Seq (One (Char (byte 226))) (One (NoneOf [byte 128]));
         seqs [ One (Char (byte 226)); One (Char (byte 128));
                One (NoneOf (List.map byte [168; 169])) ] ].
End RegExp.

(** ** SafetyValidator ([agent/safety.ts]) *)

Module SafetyValidator.
Import SafetyValidation.

Definition dangerousOperations : list string :=
  [ "rm -rf"; "sudo rm -rf"; "del /s /q"; "format"; "dd if=/dev/zero"; "shred"; "wipe" ].

Definition sensitiveFiles : list string :=
  [ ".env"; ".git"; "node_modules"; "package-lock.json"; "yarn.lock";
    ".vscode/settings.json"; "config.json"; "secrets.json" ].

Definition type_is (step : TaskStep.t) (name : string) : bool :=
  jsval_is_string (TaskStep.type step) name.

(** [context.workspaceRoot] when it is truthy. *)
Definition workspaceRoot_truthy (context : TaskContext.t) : option string :=
  match TaskContext.workspaceRoot context with
  | Some root => if String.eqb root "" then None else Some root
  | None => None
  end.

(** Check for dangerous terminal commands. *)
Definition check_dangerous_command (step : TaskStep.t) (validation : t) : completion t :=
  if type_is step "terminal_command" then
    raw <~ get (TaskStep.parameters step) "command";
    (* step.parameters.command?.toLowerCase() || '' *)
    command <~ match raw with
               | JUndefined | JNull => Normal ""
               | JStr s => Normal (toLowerCase s)
               | _ => Throw "step.parameters.command?.toLowerCase is not a function"
               end;
    let isDangerous := existsb (fun op => includes command op) dangerousOperations in
    if isDangerous then
      Normal (block ("Dangerous command detected: " ++ ToString raw)
                    "This command could cause data loss or system damage"
                    "Review the command carefully before execution" validation)
    else Normal validation
  else Normal validation.

(** Check for sensitive file operations. *)
Definition check_sensitive_file (step : TaskStep.t) (validation : t) : completion t :=
  if type_is step "file_operation" then
    rawPath <~ get (TaskStep.parameters step) "filePath";
    let filePath := js_or rawPath (JStr "") in
    rawOperation <~ get (TaskStep.parameters step) "operation";
    let operation := js_or rawOperation (JStr "") in
    isSensitiveFile <~
      some (fun sensitive => js_includes "filePath" filePath sensitive) sensitiveFiles;
    if isSensitiveFile &&
       (jsval_is_string operation "delete" || jsval_is_string operation "replace") then
      Normal (block ("Attempting to modify sensitive file: " ++ ToString filePath)
                    "This operation could affect project configuration or security"
                    "Backup the file before proceeding" validation)
    else Normal validation
  else Normal validation.

(** Check for workspace boundary violations. *)
Definition check_workspace_boundary (step : TaskStep.t) (context : TaskContext.t)
           (validation : t) : completion t :=
  match workspaceRoot_truthy context with
  | Some root =>
      rawPath <~ get (TaskStep.parameters step) "filePath";
      let filePath := js_or rawPath (JStr "") in
      if truthy filePath then
        inside <~ js_startsWith "filePath" filePath root;
        if inside : bool then Normal validation
        else
          Normal (block ("Operation outside workspace boundary: " ++ ToString filePath)
                        "This operation targets files outside the current workspace"
                        "Ensure the file path is within the workspace" validation)
      else Normal validation
  | None => Normal validation
  end.

(** Check for git repository modifications. *)
Definition check_uncommitted_changes (step : TaskStep.t) (context : TaskContext.t)
           (validation : t) : t :=
  match TaskContext.gitInfo context with
  | Some info =>
      if GitInfo.hasUncommittedChanges info && type_is step "file_operation" then
        warn "There are uncommitted changes in the git repository"
             "Consider committing or stashing changes before proceeding" validation
      else validation
  | None => validation
  end.

(** Check for large file operations. *)
Definition check_large_content (step : TaskStep.t) (validation : t) : completion t :=
  if type_is step "file_operation" then
    content <~ get (TaskStep.parameters step) "content";
    if truthy content then
      contentSize <~ get content "length";
      if js_gt contentSize 1000000 then
        Normal (warn "Large file operation detected"
                     "Consider breaking this into smaller operations" validation)
      else Normal validation
    else Normal validation
  else Normal validation.

(** Check for recursive operations. *)
Definition check_recursive_pattern (step : TaskStep.t) (validation : t) : completion t :=
  if type_is step "terminal_command" then
    raw <~ get (TaskStep.parameters step) "command";
    let command := js_or raw (JStr "") in
    a <~ js_includes "command" command "**";
    b <~ (if a : bool then Normal true else js_includes "command" command "/*");
    c <~ (if b : bool then Normal true else js_includes "command" command "\*");
    if c : bool then
      Normal (warn "Recursive operation detected"
                   "Verify the scope of this operation" validation)
    else Normal validation
  else Normal validation.

Definition validateStep (step : TaskStep.t) (context : TaskContext.t) : completion t :=
  let validation := mk true None [] [] in
  validation <~ check_dangerous_command step validation;
  validation <~ check_sensitive_file step validation;
  validation <~ check_workspace_boundary step context validation;
  let validation := check_uncommitted_changes step context validation in
  validation <~ check_large_content step validation;
  validation <~ check_recursive_pattern step validation;
  Normal validation.

(** *** [validateCodeGeneration] *)

Import RegExp.

(** The two quotes, ['] and the double one. *)
Definition quotes : list ascii := [byte 39; byte 34].

(** [name\s*\(] *)
Definition call_of (name : string) : RegExp.t :=
  seqs [lit name; Star space; lit "("].

(** [name\s*\(.*http] *)
Definition call_with_http (name : string) : RegExp.t :=
  seqs [lit name; Star space; lit "("; Star dot; lit "http"].

Definition securityPatterns : list RegExp.t :=
  [ call_of "eval";
    call_of "exec";
    call_of "system";
    call_of "shell_exec";
    call_of "passthru";
    seqs [lit "`"; Star dot; lit "`"];
    lit "process.exec";
    lit "child_process.spawn";
    call_with_http "require";
    call_with_http "fetch" ].

(** [name\s*=\s*] followed by a text between quotes that is not empty
    and holds no quote. *)
Definition credential (name : string) : RegExp.t :=
  seqs [lit name; Star space; lit "="; Star space;
        One (OneOf quotes); plus (One (NoneOf quotes)); One (OneOf quotes)].

Definition credentialPatterns : list RegExp.t :=
  [ credential "password"; credential "api_key"; credential "secret"; credential "token" ].

Definition loopPatterns : list RegExp.t :=
  [ seqs [lit "while"; Star space; lit "("; Star space; lit "true"; Star space; lit ")"];
    seqs [lit "for"; Star space; lit "("; Star space; lit ";"; Star space; lit ";";
          Star space; lit ")"];
    seqs [lit "while"; Star space; lit "("; Star space; lit "1"; Star space; lit ")"] ].

(** [for (const pattern of patterns) if (pattern.test(code)) { ...; break }] *)
Definition some_test (patterns : list RegExp.t) (code : string) : bool :=
  existsb (fun pattern => test pattern code) patterns.

(** The context is not read. *)
Definition validateCodeGeneration (code : string) : SafetyValidation.t :=
  let validation := mk true None [] [] in
  let validation :=
    if some_test securityPatterns code
    then warn "Potential security issue detected in generated code"
              "Review the code for security vulnerabilities" validation
    else validation in
  let validation :=
    if some_test credentialPatterns code
    then warn "Hardcoded credentials detected"
              "Use environment variables or secure configuration management" validation
    else validation in
  let validation :=
    if some_test loopPatterns code
    then warn "Potential infinite loop detected"
              "Ensure proper exit conditions are in place" validation
    else validation in
  validation.

(** *** [validateRefactoring] *)

Definition newline : string := String (byte 10) "".

(** [keyword\s+] *)
Definition keyword (name : string) : RegExp.t := Seq (lit name) (plus space).

Definition importantPatterns : list RegExp.t :=
  [ keyword "export"; keyword "import"; keyword "function"; keyword "class";
    keyword "return"; keyword "throw" ].

(** [(code.match(pattern) || []).length]: the pattern has no group and
    no [g] flag, so that the array of a match holds the match alone. *)
Definition matches (pattern : RegExp.t) (code : string) : nat :=
  if test pattern code then 1 else 0.

Definition validateRefactoring (originalCode refactoredCode : string)
  : SafetyValidation.t :=
  let validation := mk true None [] [] in
  let originalLines := Z.of_nat (length (split originalCode newline)) in
  let refactoredLines := Z.of_nat (length (split refactoredCode newline)) in
  let validation :=
    (* Math.abs(originalLines - refactoredLines) > originalLines * 0.5 *)
    match Qcompare (inject_Z (Z.abs (originalLines - refactoredLines)))
                   (inject_Z originalLines * (1 # 2)) with
    | Gt => warn "Significant code structure change detected"
                 "Verify that functionality is preserved" validation
    | _ => validation
    end in
  let removed (pattern : RegExp.t) :=
    let originalMatches := matches pattern originalCode in
    let refactoredMatches := matches pattern refactoredCode in
    (0 <? originalMatches)%nat && (refactoredMatches =? 0)%nat in
  if existsb removed importantPatterns
  then warn "Important code patterns may have been removed"
            "Review the refactored code for completeness" validation
  else validation.
End SafetyValidator.

(** ** CodeExecutor ([agent/executor.ts]) *)

Module CodeExecutor.
(** The head of [executeFileOperation]: the path the operation is applied
    to.  It is the step's [filePath]; when that is missing, the current
    file of the context; when that is missing too, the answer to the
    input box ([inputBox], [None] when it is dismissed); with no path at
    all the operation fails. *)
Definition resolvedPath (step : TaskStep.t) (context : TaskContext.t)
           (inputBox : option string) : completion jsval :=
  (* const { operation, filePath, content } = step.parameters; *)
  filePath <~ match TaskStep.parameters step with
              | JUndefined | JNull =>
                  Throw "Cannot destructure property 'operation' of 'step.parameters' as it is undefined."
              | parameters => get parameters "filePath"
              end;
  let resolvedPath := filePath in
  let resolvedPath :=
    if negb (truthy resolvedPath) && truthy (of_option (TaskContext.currentFile context))
    then of_option (TaskContext.currentFile context)
    else resolvedPath in
  let resolvedPath :=
    if negb (truthy resolvedPath) then js_or (of_option inputBox) JUndefined
    else resolvedPath in
  if negb (truthy resolvedPath) then Throw "File path is required for file operations"
  else Normal resolvedPath.

(** The private method that [executeStep] hands a step to: the [switch]
    compares the type with [===], and a type it does not know is treated
    as an analysis. *)
Inductive Handler : Type :=
| CodeGeneration | FileOperation | TerminalCommand | Analysis | Test | Documentation.

Definition handler (step : TaskStep.t) : Handler :=
  let type_is name := jsval_is_string (TaskStep.type step) name in
  if type_is "code_generation" then CodeGeneration
  else if type_is "file_operation" then FileOperation
  else if type_is "terminal_command" then TerminalCommand
  else if type_is "analysis" || type_is "design" then Analysis
  else if type_is "test" then Test
  else if type_is "documentation" then Documentation
  else Analysis.

Definition executeAnalysis (step : TaskStep.t) : jsval :=
  JObj [("analysis", JStr ("Analysis completed for: " ++ ToString (TaskStep.name step)))].

Definition executeTest : jsval :=
  JObj [("passCount", of_nat 5); ("failCount", of_nat 0); ("coverage", JStr "82%")].

(** The helper that [executeFileOperation] ends with, and its arguments.
    What the helpers do to the files is not modelled. *)
Inductive FileCall : Type :=
| createFile (fullPath : string) (content : jsval)
| modifyFile (fullPath : string) (content : jsval)
| deleteFile (fullPath : string)
| replaceFileContent (fullPath : string) (content : jsval).

(** How the child process of [executeTerminalCommand] ends: the [close]
    event with the exit code ([None] when a signal ended it) and what was
    written to the two streams, or the [error] event; [spawn] itself
    throws on an argument that it cannot use. *)
Inductive Exit : Type :=
| Closed (code : option Z) (stdout stderr : string)
| Failed (message : string)
| Thrown (message : string).

(** What the executor reads from its environment. *)
Record Env : Type := mkEnv {
  codeGeneration : completion jsval;        (* executeCodeGeneration, which asks the provider *)
  inputBox : option string;                 (* vscode.window.showInputBox *)
  path_join : string -> string -> string;   (* path.join *)
  existsSync : string -> bool;              (* fs.existsSync *)
  ERR_INVALID_ARG_TYPE : jsval -> string;   (* the message of path.isAbsolute on a non-string *)
  fileCall : FileCall -> completion jsval;  (* createFile, modifyFile, deleteFile, replaceFileContent *)
  process_cwd : string;                     (* process.cwd() *)
  spawn : string -> list string -> jsval -> Exit;
  documentation : completion jsval          (* executeDocumentation *)
}.

(** [path.isAbsolute], on a POSIX system. *)
Definition isAbsolute (p : string) : bool := startsWith p "/".

Definition executeFileOperation (env : Env) (step : TaskStep.t) (context : TaskContext.t)
  : completion FileCall :=
  resolvedPath <~ resolvedPath step context (inputBox env);
  (* the parameters are an object here: the destructuring has not thrown *)
  operation <~ get (TaskStep.parameters step) "operation";
  content <~ get (TaskStep.parameters step) "content";
  (* content ?? '' *)
  let safeContent := match content with
                     | JUndefined | JNull => JStr ""
                     | _ => content
                     end in
  match resolvedPath with
  | JStr resolvedPath =>
      let fullPath :=
        if isAbsolute resolvedPath then resolvedPath
        else path_join env (default "" (TaskContext.workspaceRoot context)) resolvedPath in
      let resolvedOperation :=
        if truthy operation then operation
        else JStr (if existsSync env fullPath then "replace" else "create") in
      if jsval_is_string resolvedOperation "create" then
        Normal (createFile fullPath safeContent)
      else if jsval_is_string resolvedOperation "modify" then
        Normal (modifyFile fullPath safeContent)
      else if jsval_is_string resolvedOperation "delete" then
        Normal (deleteFile fullPath)
      else if jsval_is_string resolvedOperation "replace" then
        Normal (replaceFileContent fullPath safeContent)
      else Throw ("Unknown file operation: " ++ ToString resolvedOperation)
  | other => Throw (ERR_INVALID_ARG_TYPE env other)
  end.

(** The head of [executeTerminalCommand]: the arguments of [spawn]. *)
Definition spawnArguments (env : Env) (step : TaskStep.t) (context : TaskContext.t)
  : completion (string * list string * jsval) :=
  (* const { command, cwd } = step.parameters; *)
  parameters <~ match TaskStep.parameters step with
                | JUndefined =>
                    Throw "Cannot destructure property 'command' of 'step.parameters' as it is undefined."
                | JNull =>
                    Throw "Cannot destructure property 'command' of 'step.parameters' as it is null."
                | parameters => Normal parameters
                end;
  command <~ get parameters "command";
  cwd <~ get parameters "cwd";
  if negb (truthy command) then Throw "Command is required for terminal operations"
  else
    let workingDirectory :=
      js_or cwd (js_or (of_option (TaskContext.workspaceRoot context))
                       (JStr (process_cwd env))) in
    match command with
    | JStr command =>
        (* const [cmd, ...args] = command.split(' '): the array is never empty *)
        let pieces := split command " " in
        Normal (List.hd "" pieces, List.tl pieces, workingDirectory)
    | _ => Throw "command.split is not a function"
    end.

Definition executeTerminalCommand (env : Env) (step : TaskStep.t) (context : TaskContext.t)
  : completion jsval :=
  arguments <~ spawnArguments env step context;
  let '(cmd, args, workingDirectory) := arguments in
  match spawn env cmd args workingDirectory with
  | Closed (Some 0%Z) stdout stderr =>
      Normal (JObj [("success", JBool true); ("stdout", JStr stdout);
                    ("stderr", JStr stderr); ("exitCode", JNum 0)])
  | Closed code stdout stderr =>
      Throw ("Command failed with exit code " ++
             match code with Some code => pretty code | None => "null" end ++
             ": " ++ stderr)
  | Failed message => Throw ("Failed to execute command: " ++ message)
  | Thrown message => Throw message
  end.

Definition executeStep (env : Env) (step : TaskStep.t) (context : TaskContext.t)
  : completion jsval :=
  match handler step with
  | CodeGeneration => codeGeneration env
  | FileOperation =>
      call <~ executeFileOperation env step context;
      fileCall env call
  | TerminalCommand => executeTerminalCommand env step context
  | Analysis => Normal (executeAnalysis step)
  | Test => Normal executeTest
  | Documentation => documentation env
  end.
End CodeExecutor.

(** ** ContextAnalyzer ([agent/context.ts]) *)

Module ContextAnalyzer.
(** [detectProjectType], on the names that [readdir] lists in the
    root of the workspace. *)
Definition detectProjectType (files : list string) : string :=
  let includes name := existsb (String.eqb name) files in
  if includes "package.json" then "node"
  else if includes "requirements.txt" || includes "pyproject.toml" then "python"
  else if includes "Cargo.toml" then "rust"
  else if includes "go.mod" then "go"
  else if includes "pom.xml" || includes "build.gradle" then "java"
  else if includes "Gemfile" then "ruby"
  else if includes "composer.json" then "php"
  else if includes ".csproj" || includes ".sln" then "csharp"
  else if includes "CMakeLists.txt" || includes "Makefile" then "cpp"
  else "unknown".
End ContextAnalyzer.

(** ** JSON.parse

    A reader for the JSON grammar (ECMA-404), used as the reference
    behaviour of the built-in [JSON.parse] on concrete responses.  [None]
    stands for the SyntaxError the built-in throws.  A number is read as the
    exact value of its literal; a [\u] escape is stored as the UTF-8 bytes
    of its code point.  The planner below takes the parser as a parameter,
    so what is proved about it holds for the built-in whatever it returns. *)

Module JSON.
Definition is_ws (c : ascii) : bool :=
  let n := nat_of_ascii c in
  (n =? 32)%nat || (n =? 9)%nat || (n =? 10)%nat || (n =? 13)%nat.

Fixpoint skip_ws (s : string) : string :=
  match s with
  | String c s' => if is_ws c then skip_ws s' else s
  | EmptyString => s
  end.

Definition digit (c : ascii) : option Z :=
  let n := nat_of_ascii c in
  if (48 <=? n)%nat && (n <=? 57)%nat then Some (Z.of_nat (n - 48)) else None.

Definition hex_digit (c : ascii) : option N :=
  let n := nat_of_ascii c in
  if (48 <=? n)%nat && (n <=? 57)%nat then Some (N.of_nat (n - 48))
  else if (97 <=? n)%nat && (n <=? 102)%nat then Some (N.of_nat (n - 87))
  else if (65 <=? n)%nat && (n <=? 70)%nat then Some (N.of_nat (n - 55))
  else None.

(** A maximal run of digits: its value after [acc], its length, the rest. *)
Fixpoint digits (s : string) (acc : Z) (count : nat) : Z * nat * string :=
  match s with
  | String c s' =>
      match digit c with
      | Some d => digits s' (acc * 10 + d)%Z (S count)
      | None => (acc, count, s)
      end
  | EmptyString => (acc, count, s)
  end.

(** A number literal: an optional minus sign, an integer part without
    leading zero, an optional fraction, an optional exponent. *)
Definition number (s : string) : option (Q * string) :=
  let '(negative, s) := match s with
                        | String "-" s' => (true, s')
                        | _ => (false, s)
                        end in
  match s with
  | EmptyString => None
  | String c s1 =>
      match digit c with
      | None => None
      | Some d0 =>
          let '(int, s2) := if (d0 =? 0)%Z then (0%Z, s1)
                            else let '(v, _, r) := digits s1 d0 1 in (v, r) in
          let fraction :=
            match s2 with
            | String "." s3 =>
                let '(v, count, r) := digits s3 int 0 in
                if (count =? 0)%nat then None else Some (v, count, r)
            | _ => Some (int, 0%nat, s2)
            end in
          match fraction with
          | None => None
          | Some (mantissa, scale, s4) =>
              let exponent :=
                match s4 with
                | String e s5 =>
                    if Ascii.eqb e "e" || Ascii.eqb e "E" then
                      let '(minus, s6) := match s5 with
                                          | String "-" s' => (true, s')
                                          | String "+" s' => (false, s')
                                          | _ => (false, s5)
                                          end in
                      let '(v, count, r) := digits s6 0 0 in
                      if (count =? 0)%nat then None
                      else Some (if minus : bool then (- v)%Z else v, r)
                    else Some (0%Z, s4)
                | EmptyString => Some (0%Z, s4)
                end in
              match exponent with
              | None => None
              | Some (e, rest) =>
                  let m := if negative : bool then (- mantissa)%Z else mantissa in
                  let e' := (e - Z.of_nat scale)%Z in
                  let q := if (0 <=? e')%Z then inject_Z (m * 10 ^ e')
                           else Qred (Qmake m (Z.to_pos (10 ^ (- e')))) in
                  Some (q, rest)
              end
          end
      end
  end.

Definition byte (n : N) : ascii := ascii_of_N n.

(** The double quote. *)
Definition quote : ascii := byte 34.

(** The UTF-8 bytes of a code point. *)
Definition utf8 (cp : N) : string :=
  if (cp <? 128)%N then String (byte cp) ""
  else if (cp <? 2048)%N then
    String (byte (192 + cp / 64)) (String (byte (128 + cp mod 64)) "")
  else if (cp <? 65536)%N then
    String (byte (224 + cp / 4096))
      (String (byte (128 + cp / 64 mod 64)) (String (byte (128 + cp mod 64)) ""))
  else
    String (byte (240 + cp / 262144))
      (String (byte (128 + cp / 4096 mod 64))
         (String (byte (128 + cp / 64 mod 64)) (String (byte (128 + cp mod 64)) ""))).

(** Four hexadecimal digits. *)
Definition hex4 (s : string) : option (N * string) :=
  match s with
  | String a (String b (String c (String d rest))) =>
      match hex_digit a, hex_digit b, hex_digit c, hex_digit d with
      | Some a, Some b, Some c, Some d => Some (((a * 16 + b) * 16 + c) * 16 + d, rest)%N
      | _, _, _, _ => None
      end
  | _ => None
  end.

(** The characters of a string after its opening quote, up to and
    including the closing quote. *)
Fixpoint chars (fuel : nat) (s : string) : option (string * string) :=
  match fuel with
  | O => None
  | S fuel' =>
      match s with
      | EmptyString => None
      | String "\" (String e rest) =>
          let simple (c : ascii) :=
            match chars fuel' rest with
            | Some (t, r) => Some (String c t, r)
            | None => None
            end in
          if Ascii.eqb e quote then simple quote
          else if Ascii.eqb e "\" then simple "\"%char
          else if Ascii.eqb e "/" then simple "/"%char
          else if Ascii.eqb e "b" then simple (byte 8)
          else if Ascii.eqb e "f" then simple (byte 12)
          else if Ascii.eqb e "n" then simple (byte 10)
          else if Ascii.eqb e "r" then simple (byte 13)
          else if Ascii.eqb e "t" then simple (byte 9)
          else if Ascii.eqb e "u" then
            match hex4 rest with
            | None => None
            | Some (hi, rest1) =>
                let single :=
                  match chars fuel' rest1 with
                  | Some (t, r) => Some ((utf8 hi ++ t)%string, r)
                  | None => None
                  end in
                if (55296 <=? hi)%N && (hi <? 56320)%N then
                  match rest1 with
                  | String "\" (String "u" rest2) =>
                      match hex4 rest2 with
                      | Some (lo, rest3) =>
                          if (56320 <=? lo)%N && (lo <? 57344)%N then
                            match chars fuel' rest3 with
                            | Some (t, r) =>
                                Some ((utf8 (65536 + (hi - 55296) * 1024 + (lo - 56320)) ++ t)%string, r)
                            | None => None
                            end
                          else single
                      | None => single
                      end
                  | _ => single
                  end
                else single
            end
          else None
      | String c rest =>
          if Ascii.eqb c quote then Some ("", rest)
          else if (nat_of_ascii c <? 32)%nat then None
          else
            match chars fuel' rest with
            | Some (t, r) => Some (String c t, r)
            | None => None
            end
      end
  end.

Definition literal (word : string) (v : jsval) (s : string) : option (jsval * string) :=
  if startsWith s word then Some (v, substring (String.length word) (String.length s) s)
  else None.

Inductive mode : Type :=
| Value
| Elements (seen : list jsval)
| Members (seen : list (string * jsval)).

(** [Value] reads one value; [Elements] the elements of an array after
    its bracket, [Members] the members of an object after its brace, both
    when at least one is present. *)
Fixpoint read (fuel : nat) (m : mode) (s : string) : option (jsval * string) :=
  match fuel with
  | O => None
  | S fuel' =>
      match m with
      | Value =>
          match skip_ws s with
          | EmptyString => None
          | String c rest as s' =>
              if Ascii.eqb c "{" then
                match skip_ws rest with
                | String "}" rest' => Some (JObj [], rest')
                | rest' => read fuel' (Members []) rest'
                end
              else if Ascii.eqb c "[" then
                match skip_ws rest with
                | String "]" rest' => Some (JArr [], rest')
                | rest' => read fuel' (Elements []) rest'
                end
              else if Ascii.eqb c quote then
                match chars (String.length rest) rest with
                | Some (t, rest') => Some (JStr t, rest')
                | None => None
                end
              else if Ascii.eqb c "t" then literal "true" (JBool true) s'
              else if Ascii.eqb c "f" then literal "false" (JBool false) s'
              else if Ascii.eqb c "n" then literal "null" JNull s'
              else
                match number s' with
                | Some (q, rest') => Some (JNum q, rest')
                | None => None
                end
          end
      | Elements seen =>
          match read fuel' Value s with
          | None => None
          | Some (v, rest) =>
              match skip_ws rest with
              | String "," rest' => read fuel' (Elements (seen ++ [v])) rest'
              | String "]" rest' => Some (JArr (seen ++ [v]), rest')
              | _ => None
              end
          end
      | Members seen =>
          match skip_ws s with
          | String c rest =>
              if Ascii.eqb c quote then
                match chars (String.length rest) rest with
                | None => None
                | Some (key, rest1) =>
                    match skip_ws rest1 with
                    | String ":" rest2 =>
                        match read fuel' Value rest2 with
                        | None => None
                        | Some (v, rest3) =>
                            match skip_ws rest3 with
                            | String "," rest' =>
                                read fuel' (Members (obj_set key v seen)) rest'
                            | String "}" rest' => Some (JObj (obj_set key v seen), rest')
                            | _ => None
                            end
                        end
                    | _ => None
                    end
                end
              else None
          | EmptyString => None
          end
      end
  end.

Definition parse (text : string) : option jsval :=
  match read (2 * String.length text + 2) Value text with
  | Some (v, rest) =>
      match skip_ws rest with
      | EmptyString => Some v
      | String _ _ => None
      end
  | None => None
  end.
End JSON.

(** ** TaskPlanner ([agent/planner.ts]) *)

Module Plan.
Record t : Type := mk {
  steps : list TaskStep.t;
  estimatedDuration : jsval
}.
End Plan.

Module TaskPlanner.
Definition strings (l : list string) : jsval := JArr (List.map JStr l).

(** The context object as a value: a property for each field that the
    analyzer has set. *)
Definition context_value (context : TaskContext.t) : jsval :=
  let field {A : Type} (key : string) (f : A -> jsval) (o : option A) :=
    match o with
    | Some a => [(key, f a)]
    | None => []
    end in
  let git (info : GitInfo.t) :=
    JObj ([("branch", JStr (GitInfo.branch info));
           ("lastCommit", JStr (GitInfo.lastCommit info));
           ("hasUncommittedChanges", JBool (GitInfo.hasUncommittedChanges info))]
          ++ field "remoteUrl" JStr (GitInfo.remoteUrl info)) in
  JObj (field "workspaceRoot" JStr (TaskContext.workspaceRoot context)
        ++ field "currentFile" JStr (TaskContext.currentFile context)
        ++ field "language" JStr (TaskContext.language context)
        ++ field "projectType" JStr (TaskContext.projectType context)
        ++ field "dependencies" strings (TaskContext.dependencies context)
        ++ field "gitInfo" git (TaskContext.gitInfo context)
        ++ field "userPreferences" (fun v => v) (TaskContext.userPreferences context)
        ++ field "recentChanges" (fun v => v) (TaskContext.recentChanges context)
        ++ field "openFiles" strings (TaskContext.openFiles context)
        ++ field "scripts" (fun v => v) (TaskContext.scripts context)).

(** [response.match(/\{[\s\S]*\}/)]: the text from the first opening
    brace to the last closing brace after it. *)
Fixpoint from_first_brace (s : string) : option string :=
  match s with
  | EmptyString => None
  | String c s' => if Ascii.eqb c "{" then Some s else from_first_brace s'
  end.

Fixpoint upto_last_brace (s : string) : option string :=
  match s with
  | EmptyString => None
  | String c s' =>
      match upto_last_brace s' with
      | Some t => Some (String c t)
      | None => if Ascii.eqb c "}" then Some (String c "") else None
      end
  end.

Definition match_braces (response : string) : option string :=
  match from_first_brace response with
  | Some (String c s') =>
      match upto_last_brace s' with
      | Some t => Some (String c t)
      | None => None
      end
  | _ => None
  end.

(** A pending step, as the object literals of the planner build it. *)
Definition pending_step (id name description type parameters : jsval) : TaskStep.t :=
  TaskStep.mk id name description type StepStatus.pending None None None None parameters.

Section Planner.
(** [JSON.parse]; [None] when it throws. *)
Variable JSON_parse : string -> option jsval.

Definition parsePlanResponse (response : string) : completion Plan.t :=
  let attempt : completion Plan.t :=
    match match_braces response with
    | None => Throw "No JSON found in response"
    | Some jsonMatch =>
        match JSON_parse jsonMatch with
        | None => Throw "Unexpected token in JSON"
        | Some parsed =>
            steps <~ get parsed "steps";
            (* parsed.steps.map((step, index) => ...) *)
            steps <~ match steps with
                     | JArr items =>
                         mapM_index
                           (fun step index =>
                              id <~ get step "id";
                              name <~ get step "name";
                              description <~ get step "description";
                              type <~ get step "type";
                              parameters <~ get step "parameters";
                              Normal (pending_step
                                        (js_or id (JStr ("step_" ++ pretty (index + 1)%nat)))
                                        (js_or name (JStr ("Step " ++ pretty (index + 1)%nat)))
                                        (js_or description (JStr ""))
                                        (js_or type (JStr "analysis"))
                                        (js_or parameters (JObj []))))
                           0 items
                     | JUndefined =>
                         Throw "Cannot read properties of undefined (reading 'map')"
                     | JNull => Throw "Cannot read properties of null (reading 'map')"
                     | _ => Throw "parsed.steps.map is not a function"
                     end;
            estimatedDuration <~ get parsed "estimatedDuration";
            Normal (Plan.mk steps (js_or estimatedDuration (of_nat 300)))
        end
    end in
  match attempt with
  | Normal plan => Normal plan
  | Throw _ => Throw "Invalid plan response format"
  end.

Definition createDefaultPlan (type : TaskType) (params : list (string * jsval))
           (context : TaskContext.t) : Plan.t :=
  let steps :=
    match type with
    | refactor =>
        [ pending_step (JStr "step_1") (JStr "Analyze Code")
            (JStr "Analyze the selected code for refactoring opportunities")
            (JStr "analysis")
            (JObj [("code", obj_get "code" params);
                   ("language", of_option (TaskContext.language context))]);
          pending_step (JStr "step_2") (JStr "Generate Refactored Code")
            (JStr "Generate improved version of the code")
            (JStr "code_generation")
            (JObj [("originalCode", obj_get "code" params);
                   ("goal", JStr "improve readability and maintainability")]);
          pending_step (JStr "step_3") (JStr "Apply Changes")
            (JStr "Apply the refactored code to the file")
            (JStr "file_operation")
            (JObj [("filePath", obj_get "filePath" params);
                   ("operation", JStr "replace")]) ]
    | implement =>
        [ pending_step (JStr "step_1") (JStr "Analyze Requirements")
            (JStr "Analyze the feature requirements")
            (JStr "analysis")
            (JObj [("description", obj_get "description" params)]);
          pending_step (JStr "step_2") (JStr "Design Solution")
            (JStr "Design the implementation approach")
            (JStr "analysis")
            (JObj [("context", context_value context)]);
          pending_step (JStr "step_3") (JStr "Generate Implementation")
            (JStr "Generate the feature implementation")
            (JStr "code_generation")
            (JObj [("requirements", obj_get "description" params);
                   ("context", context_value context)]);
          pending_step (JStr "step_4") (JStr "Create Tests")
            (JStr "Generate tests for the new feature")
            (JStr "code_generation")
            (JObj [("testType", JStr "unit"); ("context", context_value context)]);
          pending_step (JStr "step_5") (JStr "Update Documentation")
            (JStr "Generate or update project README and docs")
            (JStr "documentation")
            (JObj []) ]
    | fix_ =>
        [ pending_step (JStr "step_1") (JStr "Analyze Error")
            (JStr "Analyze the error message and stack trace")
            (JStr "analysis")
            (JObj [("errorMessage", obj_get "errorMessage" params);
                   ("stackTrace", obj_get "stackTrace" params)]);
          pending_step (JStr "step_2") (JStr "Generate Fix")
            (JStr "Generate the fix for the identified issue")
            (JStr "code_generation")
            (JObj [("originalCode", obj_get "code" params);
                   ("error", obj_get "errorMessage" params)]);
          pending_step (JStr "step_3") (JStr "Apply Fix")
            (JStr "Apply the fix to the file")
            (JStr "file_operation")
            (JObj [("filePath", obj_get "filePath" params);
                   ("operation", JStr "replace")]) ]
    | review =>
        [ pending_step (JStr "step_1") (JStr "Code Analysis")
            (JStr "Analyze the code for quality, security, and performance issues")
            (JStr "analysis")
            (JObj [("code", obj_get "code" params);
                   ("language", of_option (TaskContext.language context))]);
          pending_step (JStr "step_2") (JStr "Generate Review Report")
            (JStr "Generate a comprehensive code review report")
            (JStr "code_generation")
            (JObj [("reviewType", JStr "comprehensive");
                   ("code", obj_get "code" params)]) ]
    | _ =>
        [ pending_step (JStr "step_1") (JStr "Analyze Task")
            (JStr "Analyze the task requirements")
            (JStr "analysis")
            (JObj [("taskType", JStr (TaskType_name type)); ("params", JObj params)]);
          pending_step (JStr "step_2") (JStr "Execute Task")
            (JStr "Execute the requested task")
            (JStr "code_generation")
            (JObj [("taskType", JStr (TaskType_name type)); ("params", JObj params);
                   ("context", context_value context)]) ]
    end in
  Plan.mk steps (of_nat (length steps * 60)).

(** [createPlan], given how [this.llm.generate(prompt)] settles.  The
    prompt only reaches the provider, whose answer is an input here. *)
Definition createPlan (type : TaskType) (params : list (string * jsval))
           (context : TaskContext.t) (generated : completion string) : Plan.t :=
  match (response <~ generated; parsePlanResponse response) with
  | Normal plan => plan
  | Throw _ => createDefaultPlan type params context
  end.
End Planner.
End TaskPlanner.

(** ** Tasks and results ([types.ts]) *)

Module Task.
Record t : Type := mk {
  id : string;
  type : TaskType;
  params : list (string * jsval);
  status : TaskStatus.t;
  createdAt : Z;
  completedAt : option Z;
  error : option string;
  steps : list TaskStep.t;
  context : option TaskContext.t;
  estimatedDuration : option jsval;
  currentStep : option nat;
  progress : option Q
}.

Definition set_status (v : TaskStatus.t) (k : t) : t :=
  mk (id k) (type k) (params k) v (createdAt k) (completedAt k) (error k) (steps k)
     (context k) (estimatedDuration k) (currentStep k) (progress k).
Definition set_completedAt (v : Z) (k : t) : t :=
  mk (id k) (type k) (params k) (status k) (createdAt k) (Some v) (error k) (steps k)
     (context k) (estimatedDuration k) (currentStep k) (progress k).
Definition set_error (v : string) (k : t) : t :=
  mk (id k) (type k) (params k) (status k) (createdAt k) (completedAt k) (Some v) (steps k)
     (context k) (estimatedDuration k) (currentStep k) (progress k).
Definition set_steps (v : list TaskStep.t) (k : t) : t :=
  mk (id k) (type k) (params k) (status k) (createdAt k) (completedAt k) (error k) v
     (context k) (estimatedDuration k) (currentStep k) (progress k).
Definition set_context (v : TaskContext.t) (k : t) : t :=
  mk (id k) (type k) (params k) (status k) (createdAt k) (completedAt k) (error k) (steps k)
     (Some v) (estimatedDuration k) (currentStep k) (progress k).
Definition set_estimatedDuration (v : jsval) (k : t) : t :=
  mk (id k) (type k) (params k) (status k) (createdAt k) (completedAt k) (error k) (steps k)
     (context k) (Some v) (currentStep k) (progress k).
Definition set_progress (current : nat) (percent : Q) (k : t) : t :=
  mk (id k) (type k) (params k) (status k) (createdAt k) (completedAt k) (error k) (steps k)
     (context k) (estimatedDuration k) (Some current) (Some percent).

(** A write to the object that [task.steps[i]] refers to. *)
Definition update_step (i : nat) (f : TaskStep.t -> TaskStep.t) (k : t) : t :=
  set_steps (alter f i (steps k)) k.
End Task.

Module TaskResult.
Record t : Type := mk {
  taskId : string;
  type : TaskType;
  success : bool;
  results : option (list jsval);
  steps : option (list TaskStep.t);
  error : option string;
  context : option TaskContext.t;
  duration : Z;
  params : option (list (string * jsval))
}.
End TaskResult.

(** ** CodeCompanionManager ([manager.ts])

    [executeTask] and [runCustomPlan] are asynchronous: a call runs until the
    next [await], and other code (a [cancelTask] from the panel, another
    task) runs before it is resumed.  A call is therefore kept as a record
    of the task object it owns and the [await] it is suspended at, and each
    stretch of code between two [await]s is one function. *)

Module CodeCompanionManager.
Inductive Fn : Type := ExecuteTask | RunCustomPlan.

(** Where a call is suspended, with the local variables that are live
    there ([taskId], [type] and [params] are read from the task, whose
    fields of that name are never assigned). *)
Inductive Point : Type :=
| AwaitAnalyze
| AwaitCreatePlan (context : TaskContext.t)
| AwaitValidateStep (context : TaskContext.t) (results : list jsval) (i : nat)
                    (validation : completion SafetyValidation.t)
| AwaitExecuteStep (context : TaskContext.t) (results : list jsval) (i : nat)
| Resolved (taskResult : TaskResult.t)
| Rejected (message : string).

Record Call : Type := mkCall {
  fn : Fn;
  task : Task.t;
  point : Point
}.

(** The manager: the [activeTasks] map, whose values are references to the
    task objects of the calls (the position of the call in [calls]), and
    the history.  A [TaskResult] holds the steps as they are when it is
    built; nothing writes to a step after that. *)
Record t : Type := mk {
  activeTasks : gmap string nat;
  taskHistory : list TaskResult.t;
  calls : list Call
}.

(** The constructor, on the history found in the global state. *)
Definition new (persistedHistory : list TaskResult.t) : t :=
  mk ∅ persistedHistory [].

Definition getTaskById (taskId : string) (m : t) : option Task.t :=
  match activeTasks m !! taskId with
  | Some r => task <$> calls m !! r
  | None => None
  end.

Definition getTaskHistory (m : t) : list TaskResult.t := taskHistory m.

(** Keep only the latest 50 results. *)
Definition pushToHistory (result : TaskResult.t) (taskHistory : list TaskResult.t)
  : list TaskResult.t :=
  let taskHistory := taskHistory ++ [result] in
  if (50 <? length taskHistory)%nat then tail taskHistory else taskHistory.

Definition updateTaskProgress (currentStep totalSteps : nat) (task : Task.t) : Task.t :=
  Task.set_progress currentStep
    (Qred (inject_Z (Z.of_nat currentStep) / inject_Z (Z.of_nat totalSteps) * 100)) task.

(** What a stretch of a call leaves behind: its task object, the point it
    stops at, and the two collections of the manager. *)
Definition Outcome : Type := Task.t * Point * gmap string nat * list TaskResult.t.

(** The end of the [try] block of both functions: the task is completed. *)
Definition complete (context : TaskContext.t) (results : list jsval) (now : Z)
           (task : Task.t) (activeTasks : gmap string nat)
           (taskHistory : list TaskResult.t) : Outcome :=
  let task := Task.set_status TaskStatus.completed task in
  let task := Task.set_completedAt now task in
  let taskResult :=
    TaskResult.mk (Task.id task) (Task.type task) true (Some results)
                  (Some (Task.steps task)) None (Some context)
                  (now - Task.createdAt task) (Some (Task.params task)) in
  (task, Resolved taskResult, delete (Task.id task) activeTasks,
   pushToHistory taskResult taskHistory).

(** The outer [catch] block of both functions. *)
Definition fail (message : string) (now : Z)
           (task : Task.t) (activeTasks : gmap string nat)
           (taskHistory : list TaskResult.t) : Outcome :=
  let task := Task.set_status TaskStatus.failed task in
  let task := Task.set_error message task in
  let task := Task.set_completedAt now task in
  let taskResult :=
    TaskResult.mk (Task.id task) (Task.type task) false None
                  (Some (Task.steps task)) (Task.error task) (Task.context task)
                  (now - Task.createdAt task) (Some (Task.params task)) in
  (task, Rejected message, delete (Task.id task) activeTasks,
   pushToHistory taskResult taskHistory).

(** The inner [catch] block: the step is failed. *)
Definition fail_step (i : nat) (message : string) (now : Z) (task : Task.t) : Task.t :=
  Task.update_step i
    (fun step => TaskStep.set_completedAt now
                   (TaskStep.set_error message
                      (TaskStep.set_status StepStatus.failed step))) task.

(** The [for] loop from its test at index [i], with [left] steps to go
    ([left] is [task.steps.length - i]), up to the [await] on
    [validateStep].  A list has no holes, so the [continue] of
    [executeTask] and the failing write of [runCustomPlan] on a missing
    element are never reached. *)
Fixpoint loop (left : nat) (fn : Fn) (context : TaskContext.t) (results : list jsval)
         (i : nat) (now : Z) (task : Task.t) (activeTasks : gmap string nat)
         (taskHistory : list TaskResult.t) : Outcome :=
  match left with
  | O => complete context results now task activeTasks taskHistory
  | S left' =>
      match activeTasks !! Task.id task with
      | None => fail "Task cancelled by user" now task activeTasks taskHistory
      | Some _ =>
          match Task.steps task !! i with
          | None =>
              match fn with
              | ExecuteTask =>
                  loop left' fn context results (S i) now task activeTasks taskHistory
              | RunCustomPlan =>
                  fail "Cannot set properties of undefined (setting 'status')"
                       now task activeTasks taskHistory
              end
          | Some step =>
              let step := TaskStep.set_startedAt now
                            (TaskStep.set_status StepStatus.running step) in
              let task := Task.set_steps (<[i := step]> (Task.steps task)) task in
              let validation := SafetyValidator.validateStep step context in
              (task, AwaitValidateStep context results i validation, activeTasks, taskHistory)
          end
      end
  end.

(** How an awaited promise settles. *)
Inductive Settled : Type :=
| Analyzed (outcome : completion TaskContext.t)   (* contextAnalyzer.analyze *)
| Generated (outcome : completion string)         (* llm.generate, in createPlan *)
| Validated                                       (* safetyValidator.validateStep *)
| Executed (outcome : completion jsval).          (* executor.executeStep *)

Section Manager.
Variable JSON_parse : string -> option jsval.

(** A call continues after its [await]; [None] if the promise it waits
    for is not the one that settled. *)
Definition continue (how : Settled) (now : Z) (c : Call)
           (activeTasks : gmap string nat) (taskHistory : list TaskResult.t)
  : option Outcome :=
  let task := task c in
  match point c, how with
  | AwaitAnalyze, Analyzed (Throw message) =>
      Some (fail message now task activeTasks taskHistory)
  | AwaitAnalyze, Analyzed (Normal context) =>
      let task := Task.set_context context task in
      match fn c with
      | ExecuteTask =>
          let task := Task.set_status TaskStatus.planning task in
          Some (task, AwaitCreatePlan context, activeTasks, taskHistory)
      | RunCustomPlan =>
          Some (loop (length (Task.steps task)) RunCustomPlan context [] 0 now task
                     activeTasks taskHistory)
      end
  | AwaitCreatePlan context, Generated generated =>
      let plan :=
        TaskPlanner.createPlan JSON_parse (Task.type task) (Task.params task) context
                               generated in
      let task := Task.set_steps (Plan.steps plan) task in
      let task := Task.set_estimatedDuration (Plan.estimatedDuration plan) task in
      let task := Task.set_status TaskStatus.executing task in
      Some (loop (length (Task.steps task)) (fn c) context [] 0 now task
                 activeTasks taskHistory)
  | AwaitValidateStep context results i validation, Validated =>
      let thrown :=
        match validation with
        | Throw message => Some message
        | Normal validation =>
            if SafetyValidation.safe validation then None
            else Some ("Safety validation failed: " ++
                       default "undefined" (SafetyValidation.reason validation))%string
        end in
      match thrown with
      | None => Some (task, AwaitExecuteStep context results i, activeTasks, taskHistory)
      | Some message =>
          match fn c with
          | ExecuteTask =>
              (* thrown inside the inner try: the step is failed first *)
              Some (fail message now (fail_step i message now task)
                         activeTasks taskHistory)
          | RunCustomPlan =>
              (* thrown before the inner try *)
              Some (fail message now task activeTasks taskHistory)
          end
      end
  | AwaitExecuteStep context results i, Executed (Normal result) =>
      let task :=
        Task.update_step i
          (fun step => TaskStep.set_result result
                         (TaskStep.set_completedAt now
                            (TaskStep.set_status StepStatus.completed step))) task in
      let results := results ++ [result] in
      let task := updateTaskProgress (i + 1) (length (Task.steps task)) task in
      Some (loop (length (Task.steps task) - (i + 1)) (fn c) context results (i + 1) now
                 task activeTasks taskHistory)
  | AwaitExecuteStep context results i, Executed (Throw message) =>
      Some (fail message now (fail_step i message now task) activeTasks taskHistory)
  | _, _ => None
  end.

(** The start of [executeTask], up to [await analyze(params)]. *)
Definition executeTask (type : TaskType) (params : list (string * jsval))
           (taskId : string) (now : Z) (m : t) : t :=
  let task := Task.mk taskId type params TaskStatus.planning now None None [] None None
                      None None in
  let r := length (calls m) in
  let task := Task.set_status TaskStatus.analyzing task in
  mk (<[taskId := r]> (activeTasks m)) (taskHistory m)
     (calls m ++ [mkCall ExecuteTask task AwaitAnalyze]).

(** The start of [runCustomPlan], up to [await analyze(params)]. *)
Definition runCustomPlan (type : TaskType) (params : list (string * jsval))
           (customSteps : list TaskStep.t) (taskId : string) (now : Z) (m : t) : t :=
  let task := Task.mk taskId type params TaskStatus.executing now None None customSteps
                      None None None None in
  let r := length (calls m) in
  mk (<[taskId := r]> (activeTasks m)) (taskHistory m)
     (calls m ++ [mkCall RunCustomPlan task AwaitAnalyze]).

Definition cancelTask (taskId : string) (now : Z) (m : t) : bool * t :=
  match activeTasks m !! taskId with
  | None => (false, m)
  | Some r =>
      let cancel (c : Call) :=
        mkCall (fn c)
               (Task.set_completedAt now (Task.set_status TaskStatus.cancelled (task c)))
               (point c) in
      (true, mk (delete taskId (activeTasks m)) (taskHistory m) (alter cancel r (calls m)))
  end.

(** [retryTask]: a new [executeTask] on the type and parameters of the
    history entry; the call is rejected when there is none. *)
Definition retryTask (originalTaskId taskId : string) (now : Z) (m : t) : t :=
  match List.find (fun item => String.eqb (TaskResult.taskId item) originalTaskId)
                  (taskHistory m) with
  | None => m
  | Some historyItem =>
      executeTask (TaskResult.type historyItem)
                  (default [] (TaskResult.params historyItem)) taskId now m
  end.

(** What happens to the manager, one stretch of code at a time. *)
Inductive Event : Type :=
| ExecuteTaskCalled (type : TaskType) (params : list (string * jsval))
                    (taskId : string) (now : Z)
| RunCustomPlanCalled (type : TaskType) (params : list (string * jsval))
                      (customSteps : list TaskStep.t) (taskId : string) (now : Z)
| CancelTaskCalled (taskId : string) (now : Z)
| RetryTaskCalled (originalTaskId taskId : string) (now : Z)
| Resumed (r : nat) (how : Settled) (now : Z).

Definition react (e : Event) (m : t) : option t :=
  match e with
  | ExecuteTaskCalled type params taskId now => Some (executeTask type params taskId now m)
  | RunCustomPlanCalled type params customSteps taskId now =>
      Some (runCustomPlan type params customSteps taskId now m)
  | CancelTaskCalled taskId now => Some (snd (cancelTask taskId now m))
  | RetryTaskCalled originalTaskId taskId now =>
      Some (retryTask originalTaskId taskId now m)
  | Resumed r how now =>
      match calls m !! r with
      | None => None
      | Some c =>
          match continue how now c (activeTasks m) (taskHistory m) with
          | None => None
          | Some (task, point, activeTasks, taskHistory) =>
              Some (mk activeTasks taskHistory (<[r := mkCall (fn c) task point]> (calls m)))
          end
      end
  end.

Fixpoint run (events : list Event) (m : t) : option t :=
  match events with
  | [] => Some m
  | e :: events' =>
      match react e m with
      | Some m' => run events' m'
      | None => None
      end
  end.
End Manager.

(** [getActiveTasks]: the task objects that the map refers to.  They
    come in the order of the identifiers, not in the order in which the
    tasks were started; the status bar counts them. *)
Definition getActiveTasks (m : t) : list Task.t :=
  omap (fun entry => task <$> calls m !! snd entry) (map_to_list (activeTasks m)).

(** The text that [updateStatusBar] sends to the status bar. *)
Definition statusText (m : t) : string :=
  let activeCount := size (activeTasks m) in
  if (0 <? activeCount)%nat
  then "CodeCompanion: " ++ pretty activeCount ++ " active task(s)"
  else "CodeCompanion: Ready".

End CodeCompanionManager.

(** ** StatusBar ([ui/statusbar.ts]) *)

Module StatusBar.
(** The item of the status bar: its text, whether its background is the
    prominent one, and its tooltip. *)
Record t : Type := mk {
  text : string;
  prominent : bool;
  tooltip : string
}.

Definition is_running (task : Task.t) : bool :=
  match Task.status task with
  | TaskStatus.planning | TaskStatus.analyzing | TaskStatus.executing => true
  | _ => false
  end.

(** [updateStatus], on the tasks that [getActiveTasks] returns. *)
Definition updateStatus (activeTasks : list Task.t) (statusText : option string) : t :=
  let tooltip :=
    match statusText with
    | Some statusText =>
        if String.eqb statusText "" then "Click to open CodeCompanion chat" else statusText
    | None => "Click to open CodeCompanion chat"
    end in
  if (0 <? length activeTasks)%nat then
    let runningTasks := List.filter is_running activeTasks in
    if (0 <? length runningTasks)%nat then
      mk ("$(sync~spin) CodeCompanion: " ++ pretty (length runningTasks) ++ " active")
         true tooltip
    else mk "$(lightbulb) CodeCompanion: Ready" false tooltip
  else mk "$(lightbulb) CodeCompanion" false tooltip.
End StatusBar.

(** ** Vocabulary of the statements *)

Module ValidatorSpec.
Import SafetyValidator.

(** The path a step names: its [filePath] parameter when that is a
    string, the empty string otherwise. *)
Definition path_of (props : list (string * jsval)) : string :=
  match obj_get "filePath" props with
  | JStr p => p
  | _ => ""
  end.

(** The [command] of a terminal step is a string or is missing. *)
Definition command_typed (step : TaskStep.t) (props : list (string * jsval)) : Prop :=
  type_is step "terminal_command" = true ->
  match obj_get "command" props with
  | JStr _ | JUndefined | JNull => True
  | _ => False
  end.

(** The [filePath] parameter is a string or is falsy. *)
Definition path_typed (props : list (string * jsval)) : Prop :=
  match obj_get "filePath" props with
  | JStr _ => True
  | v => truthy v = false
  end.

Definition isDangerous (step : TaskStep.t) (props : list (string * jsval)) : bool :=
  type_is step "terminal_command" &&
  match obj_get "command" props with
  | JStr c => existsb (fun op => includes (toLowerCase c) op) dangerousOperations
  | _ => false
  end.

Definition isSensitive (step : TaskStep.t) (props : list (string * jsval)) : bool :=
  type_is step "file_operation" &&
  existsb (fun sensitive => includes (path_of props) sensitive) sensitiveFiles &&
  (jsval_is_string (obj_get "operation" props) "delete" ||
   jsval_is_string (obj_get "operation" props) "replace").

Definition isOutside (context : TaskContext.t) (props : list (string * jsval)) : bool :=
  match workspaceRoot_truthy context with
  | Some root => negb (String.eqb (path_of props) "") && negb (startsWith (path_of props) root)
  | None => false
  end.

Definition same_verdict (v v' : SafetyValidation.t) : Prop :=
  SafetyValidation.safe v' = SafetyValidation.safe v /\
  SafetyValidation.reason v' = SafetyValidation.reason v.

(** A verdict is well formed: it gives a reason exactly when it is not
    safe, then it holds a warning, and there is a recommendation for
    each warning. *)
Definition verdict_ok (v : SafetyValidation.t) : Prop :=
  (SafetyValidation.safe v = true <-> SafetyValidation.reason v = None) /\
  (SafetyValidation.safe v = false -> SafetyValidation.warnings v <> []) /\
  length (SafetyValidation.warnings v) = length (SafetyValidation.recommendations v).

(** One check of [validateStep], from [v] to [v']: the verdict stays
    well formed and at most [n] warnings are added. *)
Definition grows (n : nat) (v v' : SafetyValidation.t) : Prop :=
  (verdict_ok v -> verdict_ok v') /\
  length (SafetyValidation.warnings v') <= length (SafetyValidation.warnings v) + n.
End ValidatorSpec.

Module PlannerSpec.
(** [null] or [undefined]: reading a property of it throws. *)
Definition nullish (v : jsval) : bool :=
  match v with
  | JUndefined | JNull => true
  | _ => false
  end.

(** [item.key] where the access does not throw. *)
Definition prop_of (item : jsval) (key : string) : jsval :=
  match get item key with
  | Normal v => v
  | Throw _ => JUndefined
  end.

(** The step that [parsePlanResponse] makes of the item at [index]. *)
Definition planned_step (index : nat) (item : jsval) : TaskStep.t :=
  TaskPlanner.pending_step
    (js_or (prop_of item "id") (JStr ("step_" ++ pretty (index + 1)%nat)))
    (js_or (prop_of item "name") (JStr ("Step " ++ pretty (index + 1)%nat)))
    (js_or (prop_of item "description") (JStr ""))
    (js_or (prop_of item "type") (JStr "analysis"))
    (js_or (prop_of item "parameters") (JObj [])).
End PlannerSpec.

Module ManagerSpec.
Import CodeCompanionManager.

(** The order of the step statuses: pending, then running, then the two
    final ones. *)
Definition rank (s : StepStatus.t) : nat :=
  match s with
  | StepStatus.pending => 0
  | StepStatus.running => 1
  | StepStatus.completed | StepStatus.failed => 2
  end.

Definition terminal (s : TaskStatus.t) : bool :=
  match s with
  | TaskStatus.completed | TaskStatus.failed | TaskStatus.cancelled => true
  | _ => false
  end.

Definition task_ids (m : t) : list string := (fun c => Task.id (task c)) <$> calls m.

Definition history_ids (m : t) : list string := TaskResult.taskId <$> taskHistory m.

(** [generateTaskId] joins the clock and a random number: the identifier
    of a new task is taken to differ from those of the tasks and of the
    results the manager has seen. *)
Definition fresh (e : Event) (m : t) : Prop :=
  match e with
  | ExecuteTaskCalled _ _ taskId _
  | RunCustomPlanCalled _ _ _ taskId _
  | RetryTaskCalled _ taskId _ => (taskId ∉ task_ids m) /\ (taskId ∉ history_ids m)
  | CancelTaskCalled _ _ | Resumed _ _ _ => True
  end.

(** The states of a manager built on [persistedHistory]. *)
Inductive reachable (JSON_parse : string -> option jsval)
          (persistedHistory : list TaskResult.t) : t -> Prop :=
| reachable_new : reachable JSON_parse persistedHistory (new persistedHistory)
| reachable_react e m m' :
    reachable JSON_parse persistedHistory m ->
    fresh e m ->
    react JSON_parse e m = Some m' ->
    reachable JSON_parse persistedHistory m'.

(** The status of step [j] of the task of call [r], if there is one. *)
Definition step_status (m : t) (r j : nat) : option StepStatus.t :=
  match calls m !! r with
  | Some c => TaskStep.status <$> Task.steps (task c) !! j
  | None => None
  end.

Definition call_fn (m : t) (r : nat) : option Fn := fn <$> calls m !! r.


(** A stretch that ends its call: the task is completed or failed, its
    result is pushed to the history and its identifier leaves the map. *)
Definition settles (task : Task.t) (activeTasks : gmap string nat)
           (taskHistory : list TaskResult.t) (o : Outcome) : Prop :=
  let '(task', point', activeTasks', taskHistory') := o in
  Task.id task' = Task.id task /\
  Task.steps task' = Task.steps task /\
  (Task.status task' = TaskStatus.completed \/ Task.status task' = TaskStatus.failed) /\
  match point' with
  | Resolved _ | Rejected _ => True
  | _ => False
  end /\
  activeTasks' = delete (Task.id task) activeTasks /\
  exists result,
    TaskResult.taskId result = Task.id task /\
    taskHistory' = pushToHistory result taskHistory.

(** What a stretch does to the map and the history: nothing (and the
    status of the task stays), or what [settles] says. *)
Definition keeps_or_settles (task : Task.t) (activeTasks : gmap string nat)
           (taskHistory : list TaskResult.t) (o : Outcome) : Prop :=
  let '(task', _, activeTasks', taskHistory') := o in
  Task.id task' = Task.id task /\
  ((activeTasks' = activeTasks /\ taskHistory' = taskHistory /\
    Task.status task' = Task.status task) \/
   (activeTasks' = delete (Task.id task) activeTasks /\
    exists result,
      TaskResult.taskId result = Task.id task /\
      taskHistory' = pushToHistory result taskHistory)).

(** A stretch of the loop that stops at the validation of a step at or
    after [i]: that step is now running, nothing else has changed. *)
Definition suspends (context : TaskContext.t) (results : list jsval) (i : nat) (now : Z)
           (task : Task.t) (activeTasks : gmap string nat)
           (taskHistory : list TaskResult.t) (o : Outcome) : Prop :=
  exists i' step,
    i <= i' /\
    Task.steps task !! i' = Some step /\
    is_Some (activeTasks !! Task.id task) /\
    let step' := TaskStep.set_startedAt now (TaskStep.set_status StepStatus.running step) in
    o = (Task.set_steps (<[i' := step']> (Task.steps task)) task,
         AwaitValidateStep context results i' (SafetyValidator.validateStep step' context),
         activeTasks, taskHistory).

(** Where a call waits, and what its steps look like there.  The steps
    of [executeTask] come from the planner: none before the plan, and
    only pending ones after the step in hand. *)
Definition waits_ok (c : Call) : Prop :=
  match point c with
  | AwaitAnalyze => fn c = ExecuteTask -> Task.steps (task c) = []
  | AwaitCreatePlan _ => fn c = ExecuteTask /\ Task.steps (task c) = []
  | AwaitValidateStep _ _ i _ | AwaitExecuteStep _ _ i =>
      (exists step, Task.steps (task c) !! i = Some step /\
                    TaskStep.status step = StepStatus.running) /\
      (fn c = ExecuteTask ->
       forall j step, i < j -> Task.steps (task c) !! j = Some step ->
                      TaskStep.status step = StepStatus.pending)
  | Resolved _ | Rejected _ => True
  end.

Definition is_pending (step : TaskStep.t) : Prop :=
  TaskStep.status step = StepStatus.pending.

(** The call has returned or thrown. *)
Definition settled (p : Point) : bool :=
  match p with
  | Resolved _ | Rejected _ => true
  | _ => false
  end.

(** How the status of a step may change in one stretch of a call to [f]:
    not at all, or one level up; [runCustomPlan] also sets it to running
    from any status. *)
Definition moves (f : Fn) (s s' : StepStatus.t) : Prop :=
  s' = s \/ rank s' = S (rank s) \/ (f = RunCustomPlan /\ s' = StepStatus.running).

(** The map and the history agree with the calls: an active identifier
    refers to a call of that identifier whose task is not in a final
    status, the calls have distinct identifiers, and no active identifier
    is in the history. *)
Definition consistent (m : t) : Prop :=
  (forall taskId r,
      activeTasks m !! taskId = Some r ->
      exists c, calls m !! r = Some c /\ Task.id (task c) = taskId /\
                terminal (Task.status (task c)) = false) /\
  NoDup (task_ids m) /\
  (forall taskId, is_Some (activeTasks m !! taskId) -> taskId ∉ history_ids m).

(** The shape of a result: a success holds the outputs of the steps and
    no error, a failure an error and no outputs; both hold the steps and
    the parameters of the task. *)
Definition result_ok (result : TaskResult.t) : Prop :=
  (if TaskResult.success result
   then is_Some (TaskResult.results result) /\ TaskResult.error result = None
   else TaskResult.results result = None /\ is_Some (TaskResult.error result)) /\
  is_Some (TaskResult.steps result) /\
  is_Some (TaskResult.params result).

(** A call that has returned left its task completed, one that has
    thrown left it failed with the message thrown; the identifier of
    either is no longer in the map. *)
Definition ended_ok (m : t) (c : Call) : Prop :=
  match point c with
  | Resolved taskResult =>
      Task.status (task c) = TaskStatus.completed /\
      TaskResult.success taskResult = true /\
      TaskResult.taskId taskResult = Task.id (task c) /\
      activeTasks m !! Task.id (task c) = None
  | Rejected message =>
      Task.status (task c) = TaskStatus.failed /\
      Task.error (task c) = Some message /\
      activeTasks m !! Task.id (task c) = None
  | _ => True
  end.

(** What a stretch of the call of task [id] leaves behind.  If the call
    returns, the task is completed and the result pushed is a success;
    if it throws, the task is failed and the result pushed is a failure,
    both with the message thrown; otherwise the map and the history are
    untouched. *)
Definition stretch_ok (id : string) (activeTasks : gmap string nat)
           (taskHistory : list TaskResult.t) (o : Outcome) : Prop :=
  let '(task', point', activeTasks', taskHistory') := o in
  Task.id task' = id /\
  match point' with
  | Resolved taskResult =>
      Task.status task' = TaskStatus.completed /\
      TaskResult.success taskResult = true /\
      TaskResult.taskId taskResult = id /\
      result_ok taskResult /\
      activeTasks' = delete id activeTasks /\
      taskHistory' = pushToHistory taskResult taskHistory
  | Rejected message =>
      Task.status task' = TaskStatus.failed /\
      Task.error task' = Some message /\
      activeTasks' = delete id activeTasks /\
      exists taskResult,
        TaskResult.success taskResult = false /\
        TaskResult.error taskResult = Some message /\
        TaskResult.taskId taskResult = id /\
        result_ok taskResult /\
        taskHistory' = pushToHistory taskResult taskHistory
  | _ => activeTasks' = activeTasks /\ taskHistory' = taskHistory
  end.

(** The events of call [r] while each of its steps is found safe and
    then executed with the given result, at the given time. *)
Definition proceed (r : nat) (outs : list (jsval * Z)) : list Event :=
  flat_map (fun out => [Resumed r Validated (snd out);
                        Resumed r (Executed (Normal (fst out))) (snd out)]) outs.

(** The validator finds the step safe in the context. *)
Definition passes (context : TaskContext.t) (step : TaskStep.t) : Prop :=
  exists validation,
    SafetyValidator.validateStep step context = Normal validation /\
    SafetyValidation.safe validation = true.

(** The step was completed with the result, at the time. *)
Definition finished (step : TaskStep.t) (out : jsval * Z) : Prop :=
  TaskStep.status step = StepStatus.completed /\
  TaskStep.result step = Some (fst out) /\
  TaskStep.completedAt step = Some (snd out).
End ManagerSpec.

(** ** Inputs of the examples *)

Module Examples.
Import CodeCompanionManager.

Definition context_in (workspaceRoot : option string) : TaskContext.t :=
  TaskContext.mk workspaceRoot None None None None None None None None None.

(** The workspace [/home/u/proj]. *)
Definition proj : TaskContext.t := context_in (Some "/home/u/proj").

Definition step_of (type : string) (status : StepStatus.t) (props : list (string * jsval))
  : TaskStep.t :=
  TaskStep.mk (JStr "step_1") (JStr "Step 1") (JStr "") (JStr type) status
              None None None None (JObj props).

Definition rm_step : TaskStep.t :=
  step_of "terminal_command" StepStatus.pending [("command", JStr "rm -rf /tmp/x")].

Definition rm_step_outside : TaskStep.t :=
  step_of "terminal_command" StepStatus.pending
          [("command", JStr "rm -rf /tmp/x"); ("filePath", JStr "/etc/passwd")].



Definition create_file : TaskStep.t :=
  step_of "file_operation" StepStatus.pending
          [("filePath", JStr "/home/u/proj/src/a.ts"); ("operation", JStr "create")].






(** An environment of the executor: [/home/u/proj/.env] exists, the
    helpers and the commands succeed, the provider cannot be reached. *)
Definition env_of_proj : CodeExecutor.Env :=
  CodeExecutor.mkEnv
    (Throw "LLM code generation failed: connect ECONNREFUSED")
    None
    (fun folder name => (folder ++ "/" ++ name)%string)
    (fun fullPath => String.eqb fullPath "/home/u/proj/.env")
    (fun _ => "The path argument must be of type string")
    (fun _ => Normal (JObj [("success", JBool true)]))
    "/home/u"
    (fun _ _ _ => CodeExecutor.Closed (Some 0%Z) "" "")
    (Throw "Failed to write README: read-only file system").


(** A terminal step without a command. *)
Definition no_command : TaskStep.t :=
  step_of "terminal_command" StepStatus.pending [].

Definition list_sources : TaskStep.t :=
  step_of "terminal_command" StepStatus.pending [("command", JStr "ls -la  src")].



(** No workspace folder is open; the editor shows [/home/u/proj/.env]. *)
Definition editing_env : TaskContext.t :=
  TaskContext.mk None (Some "/home/u/proj/.env") None None None None None None None None.

Definition analysis_step (status : StepStatus.t) : TaskStep.t :=
  step_of "analysis" status [].

(** A text between double quotes. *)
Definition quoted (s : string) : string :=
  String JSON.quote s ++ String JSON.quote "".

(** The response [{"steps": []}]. *)
Definition empty_plan_response : string :=
  "Here is the plan: {" ++ quoted "steps" ++ ": []}".

(** A response whose plan starts with [rm -rf /tmp/x]. *)
Definition rm_plan_response : string :=
  "{" ++ quoted "steps" ++ ": [{" ++ quoted "type" ++ ": " ++ quoted "terminal_command"
      ++ ", " ++ quoted "parameters" ++ ": {" ++ quoted "command" ++ ": "
      ++ quoted "rm -rf /tmp/x" ++ "}}, {" ++ quoted "type" ++ ": " ++ quoted "analysis"
      ++ "}]}".


(** [executeTask('implement', ...)] with an unreachable provider, hence
    the default plan of five steps; the task is cancelled while its second
    step executes, and the step then succeeds. *)
Definition cancel_after_two_steps : list Event :=
  [ ExecuteTaskCalled implement [("description", JStr "add login")] "task_1" 1000;
    Resumed 0 (Analyzed (Normal proj)) 1001;
    Resumed 0 (Generated (Throw "connect ECONNREFUSED")) 1002;
    Resumed 0 Validated 1003;
    Resumed 0 (Executed (Normal (JStr "first"))) 1004;
    Resumed 0 Validated 1005;
    CancelTaskCalled "task_1" 1006;
    Resumed 0 (Executed (Normal (JStr "second"))) 1007 ].

(** A task is cancelled while the analysis of the context is pending. *)
Definition cancel_during_analysis : list Event :=
  [ ExecuteTaskCalled review [] "task_1" 1000;
    CancelTaskCalled "task_1" 1001 ].

(** [runCustomPlan] on a plan whose first step is [rm -rf /tmp/x]. *)
Definition custom_plan_blocked : list Event :=
  [ RunCustomPlanCalled implement [] [rm_step; analysis_step StepStatus.pending]
                        "task_1" 1000;
    Resumed 0 (Analyzed (Normal proj)) 1001;
    Resumed 0 Validated 1002 ].

(** [executeTask] on the same plan, as the provider returns it. *)
Definition planned_blocked : list Event :=
  [ ExecuteTaskCalled implement [] "task_1" 1000;
    Resumed 0 (Analyzed (Normal proj)) 1001;
    Resumed 0 (Generated (Normal rm_plan_response)) 1002;
    Resumed 0 Validated 1003 ].

(** [runCustomPlan] on the steps of a finished task, as the chat panel
    sends them when the plan is edited. *)
Definition rerun_finished_plan : list Event :=
  [ RunCustomPlanCalled implement [] [analysis_step StepStatus.completed] "task_2" 2000;
    Resumed 0 (Analyzed (Normal proj)) 2001 ].

(** A task that runs its default plan to the end. *)
Definition review_to_the_end : list Event :=
  [ ExecuteTaskCalled review [] "task_1" 1000;
    Resumed 0 (Analyzed (Normal proj)) 1001;
    Resumed 0 (Generated (Normal "no plan, sorry")) 1002;
    Resumed 0 Validated 1003;
    Resumed 0 (Executed (Normal (JStr "analysis"))) 1004;
    Resumed 0 Validated 1005;
    Resumed 0 (Executed (Normal (JStr "report"))) 1006 ].
End Examples.

(** * Properties of strings *)

Lemma startsWith_app (s p : string) :
  startsWith s p = true <-> exists rest, s = (p ++ rest)%string.
Proof.
  revert s; induction p as [|c p IH]; intros s; simpl.
  - split; [intros _; exists s; reflexivity | reflexivity].
  - destruct s as [|d s]; simpl.
    + split; [discriminate | intros [rest H]; discriminate].
    + rewrite andb_true_iff, Ascii.eqb_eq, IH. split.
      * intros [-> [rest ->]]. eauto.
      * intros [rest H]. injection H as -> ->. eauto.
Qed.

Lemma includes_app (s sub : string) :
  includes s sub = true <-> exists before after, s = (before ++ sub ++ after)%string.
Proof.
  induction s as [|c s IH]; simpl.
  - rewrite orb_false_r, startsWith_app. split.
    + intros [rest H]. exists "", rest. exact H.
    + intros [before [after H]]. destruct before; simpl in H; [eauto | discriminate].
  - rewrite orb_true_iff, startsWith_app, IH. split.
    + intros [[rest H] | [before [after H]]].
      * exists "", rest. exact H.
      * exists (String c before), after. simpl. now rewrite H.
    + intros [before [after H]]. destruct before as [|d before]; simpl in H.
      * left. eauto.
      * right. injection H as -> ->. eauto.
Qed.

Lemma toLowerCase_app (a b : string) :
  toLowerCase (a ++ b) = (toLowerCase a ++ toLowerCase b)%string.
Proof. induction a as [|c a IH]; simpl; [reflexivity | now rewrite IH]. Qed.

Lemma includes_toLowerCase (s op : string) :
  toLowerCase op = op -> includes s op = true -> includes (toLowerCase s) op = true.
Proof.
  intros Hop. rewrite !includes_app. intros [before [after ->]].
  exists (toLowerCase before), (toLowerCase after).
  now rewrite !toLowerCase_app, Hop.
Qed.

Lemma some_Normal {A : Type} (f : A -> completion bool) (g : A -> bool) (l : list A) :
  (forall a, f a = Normal (g a)) -> some f l = Normal (existsb g l).
Proof.
  intros Hf. induction l as [|a l IH]; simpl; [reflexivity|].
  rewrite Hf. simpl. destruct (g a); [reflexivity | exact IH].
Qed.

(** * The safety validator *)

Module SafetyValidatorFacts.
Import SafetyValidation SafetyValidator ValidatorSpec.

Lemma type_is_exclusive (step : TaskStep.t) (a b : string) :
  a <> b -> type_is step a = true -> type_is step b = false.
Proof.
  unfold type_is, jsval_is_string. destruct (TaskStep.type step); try discriminate.
  intros Hab Ha. apply String.eqb_eq in Ha. subst a.
  now apply String.eqb_neq.
Qed.

Lemma js_or_path (props : list (string * jsval)) :
  path_typed props -> js_or (obj_get "filePath" props) (JStr "") = JStr (path_of props).
Proof.
  unfold path_typed, path_of, js_or.
  destruct (obj_get "filePath" props) as [| |b|q|p|items|o]; simpl; intros H;
    try rewrite H; try reflexivity; try discriminate.
  destruct (String.eqb_spec p ""); simpl; [now subst | reflexivity].
Qed.

Lemma js_or_operation (v : jsval) (s : string) :
  s <> "" -> jsval_is_string (js_or v (JStr "")) s = jsval_is_string v s.
Proof.
  intros Hs. unfold js_or. destruct (truthy v) eqn:Hv; [reflexivity|].
  assert (String.eqb "" s = false) as He by (apply String.eqb_neq; congruence).
  destruct v as [| |b|q|s'|items|o]; unfold jsval_is_string; simpl in Hv;
    try discriminate; try exact He.
  apply negb_false_iff, String.eqb_eq in Hv. now subst.
Qed.

Lemma check_dangerous_command_spec step props validation :
  TaskStep.parameters step = JObj props ->
  command_typed step props ->
  check_dangerous_command step validation =
  Normal (if isDangerous step props
          then block ("Dangerous command detected: " ++ ToString (obj_get "command" props))
                     "This command could cause data loss or system damage"
                     "Review the command carefully before execution" validation
          else validation).
Proof.
  intros Hp Hc. unfold check_dangerous_command, isDangerous, command_typed in *.
  destruct (type_is step "terminal_command"); [|reflexivity].
  rewrite Hp. cbn [get bind]. specialize (Hc eq_refl).
  destruct (obj_get "command" props) as [| |b|q|c|items|o]; try contradiction;
    try reflexivity.
  cbn [bind andb].
  destruct (existsb (fun op => includes (toLowerCase c) op) dangerousOperations);
    reflexivity.
Qed.

Lemma check_sensitive_file_spec step props validation :
  TaskStep.parameters step = JObj props ->
  path_typed props ->
  check_sensitive_file step validation =
  Normal (if isSensitive step props
          then block ("Attempting to modify sensitive file: " ++ path_of props)
                     "This operation could affect project configuration or security"
                     "Backup the file before proceeding" validation
          else validation).
Proof.
  intros Hp Ht. unfold check_sensitive_file, isSensitive.
  destruct (type_is step "file_operation"); [|reflexivity].
  rewrite Hp. cbn [get bind]. rewrite (js_or_path _ Ht).
  rewrite (some_Normal _ (fun sensitive => includes (path_of props) sensitive))
    by reflexivity.
  cbn [bind andb]. rewrite !js_or_operation by discriminate.
  match goal with |- context [if ?b then _ else _] => destruct b end; reflexivity.
Qed.

Lemma check_workspace_boundary_spec step context props validation :
  TaskStep.parameters step = JObj props ->
  path_typed props ->
  check_workspace_boundary step context validation =
  Normal (if isOutside context props
          then block ("Operation outside workspace boundary: " ++ path_of props)
                     "This operation targets files outside the current workspace"
                     "Ensure the file path is within the workspace" validation
          else validation).
Proof.
  intros Hp Ht. unfold check_workspace_boundary, isOutside.
  destruct (workspaceRoot_truthy context) as [root|]; [|reflexivity].
  rewrite Hp. simpl get. simpl bind. rewrite (js_or_path _ Ht). simpl.
  destruct (String.eqb (path_of props) ""); simpl; [reflexivity|].
  destruct (startsWith (path_of props) root); reflexivity.
Qed.

Lemma check_uncommitted_changes_verdict step context validation :
  same_verdict validation (check_uncommitted_changes step context validation).
Proof.
  unfold check_uncommitted_changes, same_verdict.
  destruct (TaskContext.gitInfo context) as [info|]; [|split; reflexivity].
  destruct (GitInfo.hasUncommittedChanges info && type_is step "file_operation");
    split; reflexivity.
Qed.

Lemma check_large_content_verdict step props validation :
  TaskStep.parameters step = JObj props ->
  exists v, check_large_content step validation = Normal v /\ same_verdict validation v.
Proof.
  intros Hp. unfold check_large_content, same_verdict.
  destruct (type_is step "file_operation"); [|eauto].
  rewrite Hp. simpl get. simpl bind.
  destruct (obj_get "content" props) as [| |b|q|s|items|o]; simpl;
    repeat match goal with
           | |- context [if ?b then _ else _] => destruct b; simpl
           end; eauto.
Qed.

Lemma check_recursive_pattern_verdict step props validation :
  TaskStep.parameters step = JObj props ->
  command_typed step props ->
  exists v, check_recursive_pattern step validation = Normal v /\ same_verdict validation v.
Proof.
  intros Hp Hc. unfold check_recursive_pattern, command_typed, same_verdict in *.
  destruct (type_is step "terminal_command"); [|eauto].
  rewrite Hp. simpl get. simpl bind. specialize (Hc eq_refl).
  assert (exists c, js_or (obj_get "command" props) (JStr "") = JStr c) as [c ->].
  { unfold js_or. destruct (obj_get "command" props); try contradiction; simpl; eauto.
    destruct (negb (String.eqb s "")); eauto. }
  simpl. destruct (includes c "**"); simpl; eauto.
  destruct (includes c "/*"); simpl; eauto.
  destruct (includes c "\*"); simpl; eauto.
Qed.

(** What [validateStep] answers on a step whose parameters have the types
    the validator expects: it blocks exactly on a dangerous command, a
    sensitive file or a path outside the workspace, and the reason is that
    of the last check that blocked. *)
Lemma validateStep_verdict step context props :
  TaskStep.parameters step = JObj props ->
  command_typed step props ->
  path_typed props ->
  exists v,
    validateStep step context = Normal v /\
    safe v = negb (isDangerous step props || isSensitive step props || isOutside context props) /\
    reason v =
      if isOutside context props
      then Some ("Operation outside workspace boundary: " ++ path_of props)%string
      else if isSensitive step props
      then Some ("Attempting to modify sensitive file: " ++ path_of props)%string
      else if isDangerous step props
      then Some ("Dangerous command detected: " ++ ToString (obj_get "command" props))%string
      else None.
Proof.
  intros Hp Hc Ht. unfold validateStep.
  rewrite (check_dangerous_command_spec _ props) by assumption. simpl bind.
  rewrite (check_sensitive_file_spec _ props) by assumption. simpl bind.
  rewrite (check_workspace_boundary_spec _ _ props) by assumption. simpl bind.
  match goal with
  | |- context [check_uncommitted_changes step context ?v] =>
      destruct (check_uncommitted_changes_verdict step context v) as [Hs4 Hr4];
      destruct (check_large_content_verdict step props
                  (check_uncommitted_changes step context v) Hp) as [v5 [-> [Hs5 Hr5]]]
  end.
  simpl bind.
  destruct (check_recursive_pattern_verdict step props v5 Hp Hc) as [v6 [-> [Hs6 Hr6]]].
  simpl bind. exists v6. split; [reflexivity|].
  rewrite Hs6, Hs5, Hs4, Hr6, Hr5, Hr4.
  destruct (isDangerous step props), (isSensitive step props), (isOutside context props);
    split; reflexivity.
Qed.
End SafetyValidatorFacts.

(** * Claims on the safety validator *)

Section ValidatorClaims.
Import SafetyValidation SafetyValidator ValidatorSpec SafetyValidatorFacts.

Lemma dangerousOperations_lower_case (op : string) :
  In op dangerousOperations -> toLowerCase op = op.
Proof.
  unfold dangerousOperations. simpl.
  intros H. repeat (destruct H as [<- | H]; [reflexivity|]). contradiction.
Qed.

Lemma isDangerous_intro step props command op :
  type_is step "terminal_command" = true ->
  obj_get "command" props = JStr command ->
  In op dangerousOperations ->
  includes command op = true ->
  isDangerous step props = true.
Proof.
  intros Ht Hc Hop Hin. unfold isDangerous. rewrite Ht, Hc. cbn [andb].
  apply existsb_exists. exists op. split; [exact Hop|].
  apply includes_toLowerCase; [now apply dangerousOperations_lower_case | exact Hin].
Qed.


(** C7 (amended).  A terminal_command step whose command string contains
    an entry of the dangerous-operation list is blocked: [validateStep]
    returns [safe = false].  The reason names the command, unless the
    step also carries a [filePath] outside the workspace root: the
    boundary check runs later and its reason replaces the first one.
    (A [filePath], when present, is a string.) *)
Theorem dangerous_command_blocked step context props command op :
  type_is step "terminal_command" = true ->
  TaskStep.parameters step = JObj props ->
  obj_get "command" props = JStr command ->
  In op dangerousOperations ->
  includes command op = true ->
  path_typed props ->
  exists v,
    validateStep step context = Normal v /\
    safe v = false /\
    reason v =
      Some (if isOutside context props
            then "Operation outside workspace boundary: " ++ path_of props
            else "Dangerous command detected: " ++ command)%string.
Proof.
  intros Ht Hp Hc Hop Hin Hpath.
  assert (command_typed step props) as Hct by (intros _; now rewrite Hc).
  destruct (validateStep_verdict step context props Hp Hct Hpath) as [v [Hv [Hs Hr]]].
  exists v. split; [exact Hv|].
  rewrite (isDangerous_intro step props command op) in Hs, Hr by assumption.
  assert (isSensitive step props = false) as Hsens.
  { unfold isSensitive.
    now rewrite (type_is_exclusive step "terminal_command" "file_operation"). }
  rewrite Hsens in Hr. rewrite Hc in Hr. simpl in Hs, Hr. split; [exact Hs|].
  rewrite Hr. now destruct (isOutside context props).
Qed.



End ValidatorClaims.

Section ValidatorExamples.
Import SafetyValidation SafetyValidator ValidatorSpec Examples.

Lemma dangerous_command_blocked_witness :
  exists v,
    validateStep rm_step proj = Normal v /\
    safe v = false /\
    reason v = Some "Dangerous command detected: rm -rf /tmp/x".
Proof.
  exact (dangerous_command_blocked rm_step proj [("command", JStr "rm -rf /tmp/x")]
           "rm -rf /tmp/x" "rm -rf"
           eq_refl eq_refl eq_refl (or_introl eq_refl) eq_refl eq_refl).
Defined.

(** C7 as stated fails on a dangerous command that comes with a path
    outside the workspace: the step is blocked, but the reason names the
    path and not the command. *)
Lemma dangerous_command_reason_replaced :
  type_is rm_step_outside "terminal_command" = true /\
  get (TaskStep.parameters rm_step_outside) "command" = Normal (JStr "rm -rf /tmp/x") /\
  includes "rm -rf /tmp/x" "rm -rf" = true /\
  validateStep rm_step_outside proj =
    Normal (mk false (Some "Operation outside workspace boundary: /etc/passwd")
               [ "This command could cause data loss or system damage";
                 "This operation targets files outside the current workspace" ]
               [ "Review the command carefully before execution";
                 "Ensure the file path is within the workspace" ]) /\
  includes "Operation outside workspace boundary: /etc/passwd" "rm -rf" = false.
Proof. repeat split; reflexivity. Qed.





End ValidatorExamples.

(** * The planner *)

Section PlannerClaims.
Import TaskPlanner Examples.
Variable JSON_parse : string -> option jsval.

Lemma createDefaultPlan_estimatedDuration type params context :
  Plan.estimatedDuration (createDefaultPlan type params context) =
  of_nat (60 * length (Plan.steps (createDefaultPlan type params context))).
Proof. destruct type; reflexivity. Qed.

Lemma createDefaultPlan_length type params context :
  length (Plan.steps (createDefaultPlan type params context)) =
  match type with
  | refactor | fix_ => 3
  | implement => 5
  | review | test | document => 2
  end.
Proof. destruct type; reflexivity. Qed.

Lemma parsePlanResponse_throws response :
  (match_braces response = None \/
   exists jsonMatch, match_braces response = Some jsonMatch /\ JSON_parse jsonMatch = None) ->
  parsePlanResponse JSON_parse response = Throw "Invalid plan response format".
Proof.
  unfold parsePlanResponse. intros [-> | [jsonMatch [-> ->]]]; reflexivity.
Qed.

(** C3 (amended).  For every task type, a response without a parsable
    JSON object makes [createPlan] return the default plan of the type,
    whose [estimatedDuration] is 60 times its number of steps.  A parsed
    plan with an empty [steps] array is not replaced: [createPlan] returns
    it, with no step and the parsed duration or 300. *)
Theorem createPlan_fallback type params context response :
  ((match_braces response = None \/
    exists jsonMatch,
      match_braces response = Some jsonMatch /\ JSON_parse jsonMatch = None) ->
   let plan := createPlan JSON_parse type params context (Normal response) in
   plan = createDefaultPlan type params context /\
   Plan.estimatedDuration plan = of_nat (60 * length (Plan.steps plan)) /\
   length (Plan.steps plan) =
     match type with
     | refactor | fix_ => 3
     | implement => 5
     | review | test | document => 2
     end) /\
  (forall jsonMatch props,
      match_braces response = Some jsonMatch ->
      JSON_parse jsonMatch = Some (JObj props) ->
      obj_get "steps" props = JArr [] ->
      createPlan JSON_parse type params context (Normal response) =
      Plan.mk [] (js_or (obj_get "estimatedDuration" props) (of_nat 300))).
Proof.
  split.
  - intros H plan. subst plan. unfold createPlan. cbn [bind].
    rewrite (parsePlanResponse_throws _ H).
    split; [reflexivity|]. split.
    + apply createDefaultPlan_estimatedDuration.
    + apply createDefaultPlan_length.
  - intros jsonMatch props Hm Hp Hs. unfold createPlan, parsePlanResponse. cbn [bind].
    rewrite Hm, Hp. cbn [get bind]. rewrite Hs. reflexivity.
Qed.
End PlannerClaims.

Section PlannerExamples.
Import TaskPlanner Examples.

Lemma createPlan_fallback_witness :
  createPlan JSON.parse review [] proj (Normal "I cannot plan this.") =
    createDefaultPlan review [] proj /\
  createPlan JSON.parse review [] proj (Normal "{ steps: none }") =
    createDefaultPlan review [] proj /\
  Plan.estimatedDuration (createDefaultPlan review [] proj) = of_nat (60 * 2).
Proof.
  destruct (createPlan_fallback JSON.parse review [] proj "I cannot plan this.")
    as [H1 _].
  destruct (createPlan_fallback JSON.parse review [] proj "{ steps: none }")
    as [H2 _].
  destruct (H1 (or_introl eq_refl)) as [Ha [Hb _]].
  destruct (H2 (or_intror (ex_intro _ "{ steps: none }" (conj eq_refl eq_refl))))
    as [Hc _].
  split; [exact Ha|]. split; [exact Hc|]. rewrite <- Ha. exact Hb.
Defined.

(** C3 as stated fails on a plan with an empty [steps] array: it is
    returned as it is, with the duration 300, and the task then completes
    without running anything. *)
Lemma createPlan_empty_steps_kept :
  match_braces empty_plan_response = Some ("{" ++ quoted "steps" ++ ": []}")%string /\
  JSON.parse ("{" ++ quoted "steps" ++ ": []}") = Some (JObj [("steps", JArr [])]) /\
  createPlan JSON.parse review [] proj (Normal empty_plan_response) =
    Plan.mk [] (of_nat 300) /\
  createPlan JSON.parse review [] proj (Normal empty_plan_response) <>
    createDefaultPlan review [] proj.
Proof.
  split; [reflexivity|]. split; [reflexivity|]. split; [reflexivity|].
  vm_compute. discriminate.
Qed.
End PlannerExamples.

(** * The manager *)

Module ManagerFacts.
Import CodeCompanionManager ManagerSpec.

(** ** The history *)




Lemma pushToHistory_ids result (history : list TaskResult.t) (taskId : string) :
  taskId ∈ TaskResult.taskId <$> pushToHistory result history ->
  taskId = TaskResult.taskId result \/ taskId ∈ TaskResult.taskId <$> history.
Proof.
  unfold pushToHistory.
  assert (taskId ∈ TaskResult.taskId <$> (history ++ [result]) ->
          taskId = TaskResult.taskId result \/ taskId ∈ TaskResult.taskId <$> history) as Hall.
  { rewrite fmap_app, elem_of_app. simpl. rewrite list_elem_of_singleton. tauto. }
  destruct (50 <? length (history ++ [result]))%nat; [|exact Hall].
  intros Hin. apply Hall. destruct (history ++ [result]) as [|first rest]; [exact Hin|].
  simpl in *. apply elem_of_cons. right. exact Hin.
Qed.




(** ** The stretches of a call *)

Lemma complete_settles context results now task activeTasks taskHistory :
  settles task activeTasks taskHistory
          (complete context results now task activeTasks taskHistory).
Proof.
  unfold settles, complete. cbn.
  split; [reflexivity|]. split; [reflexivity|]. split; [left; reflexivity|].
  split; [exact I|]. split; [reflexivity|]. eexists. split; [|reflexivity]. reflexivity.
Qed.

Lemma fail_settles message now task activeTasks taskHistory :
  settles task activeTasks taskHistory (fail message now task activeTasks taskHistory).
Proof.
  unfold settles, fail. cbn.
  split; [reflexivity|]. split; [reflexivity|]. split; [right; reflexivity|].
  split; [exact I|]. split; [reflexivity|]. eexists. split; [|reflexivity]. reflexivity.
Qed.

Lemma loop_outcome left fn context results i now task activeTasks taskHistory :
  let o := loop left fn context results i now task activeTasks taskHistory in
  settles task activeTasks taskHistory o \/
  suspends context results i now task activeTasks taskHistory o.
Proof.
  revert i. induction left as [|left IH]; intros i; simpl.
  - left. apply complete_settles.
  - destruct (activeTasks !! Task.id task) as [r|] eqn:Hactive;
      [|left; apply fail_settles].
    destruct (Task.steps task !! i) as [step|] eqn:Hstep.
    + right. exists i, step. rewrite Hactive. eauto.
    + destruct fn; [|left; apply fail_settles].
      destruct (IH (S i)) as [H|[i' [step [Hle H]]]]; [left; exact H|].
      right. exists i', step. split; [lia | exact H].
Qed.

(** With steps left from [i] on, the loop stops at step [i] itself. *)
Lemma loop_suspends_here left fn context results i now task activeTasks taskHistory r step :
  activeTasks !! Task.id task = Some r ->
  Task.steps task !! i = Some step ->
  let step' := TaskStep.set_startedAt now (TaskStep.set_status StepStatus.running step) in
  loop (S left) fn context results i now task activeTasks taskHistory =
  (Task.set_steps (<[i := step']> (Task.steps task)) task,
   AwaitValidateStep context results i (SafetyValidator.validateStep step' context),
   activeTasks, taskHistory).
Proof. intros Ha Hs. simpl. now rewrite Ha, Hs. Qed.

(** A cancelled task is no longer in the map: the loop throws and the
    outer handler records the task as failed. *)
Lemma loop_cancelled left fn context results i now task activeTasks taskHistory :
  activeTasks !! Task.id task = None ->
  loop (S left) fn context results i now task activeTasks taskHistory =
  fail "Task cancelled by user" now task activeTasks taskHistory.
Proof. intros Ha. simpl. now rewrite Ha. Qed.

Lemma settles_keeps_or_settles task activeTasks taskHistory o :
  settles task activeTasks taskHistory o -> keeps_or_settles task activeTasks taskHistory o.
Proof.
  destruct o as [[[task' point'] activeTasks'] taskHistory']. unfold settles, keeps_or_settles.
  intros (Hid & _ & _ & _ & Ha & Hh). split; [exact Hid|]. right. split; assumption.
Qed.

Lemma suspends_keeps_or_settles context results i now task activeTasks taskHistory o :
  suspends context results i now task activeTasks taskHistory o ->
  keeps_or_settles task activeTasks taskHistory o.
Proof.
  intros (i' & step & _ & _ & _ & ->). unfold keeps_or_settles. simpl.
  split; [reflexivity|]. left. repeat split; reflexivity.
Qed.

Lemma loop_keeps_or_settles left fn context results i now task activeTasks taskHistory :
  keeps_or_settles task activeTasks taskHistory
    (loop left fn context results i now task activeTasks taskHistory).
Proof.
  destruct (loop_outcome left fn context results i now task activeTasks taskHistory).
  - now apply settles_keeps_or_settles.
  - now apply suspends_keeps_or_settles with context results i now.
Qed.

Lemma fail_keeps_or_settles message now task activeTasks taskHistory :
  keeps_or_settles task activeTasks taskHistory
    (fail message now task activeTasks taskHistory).
Proof. apply settles_keeps_or_settles, fail_settles. Qed.

Lemma task_ids_insert (m : t) r c c' :
  calls m !! r = Some c ->
  Task.id (task c') = Task.id (task c) ->
  (fun c => Task.id (task c)) <$> <[r := c']> (calls m) = task_ids m.
Proof.
  intros Hr Hid. unfold task_ids. apply list_eq. intros k.
  rewrite !list_lookup_fmap. destruct (decide (r = k)) as [<- | Hne].
  - rewrite list_lookup_insert_eq by (eapply lookup_lt_Some; exact Hr).
    rewrite Hr. simpl. now rewrite Hid.
  - now rewrite list_lookup_insert_ne.
Qed.

Lemma task_ids_alter (m : t) r (f : Call -> Call) :
  (forall c, Task.id (task (f c)) = Task.id (task c)) ->
  (fun c => Task.id (task c)) <$> alter f r (calls m) = task_ids m.
Proof.
  intros Hf. unfold task_ids. apply list_eq. intros k.
  rewrite !list_lookup_fmap. destruct (decide (r = k)) as [<- | Hne].
  - rewrite list_lookup_alter_eq. destruct (calls m !! r); simpl; [|reflexivity].
    now rewrite Hf.
  - now rewrite list_lookup_alter_ne.
Qed.

Lemma same_id_same_call (m : t) r r' c c' :
  NoDup (task_ids m) ->
  calls m !! r = Some c -> calls m !! r' = Some c' ->
  Task.id (task c) = Task.id (task c') -> r = r'.
Proof.
  intros Hnd Hr Hr' Hid. apply (NoDup_lookup _ _ _ (Task.id (task c)) Hnd).
  - unfold task_ids. now rewrite list_lookup_fmap, Hr.
  - unfold task_ids. rewrite list_lookup_fmap, Hr'. simpl. now rewrite Hid.
Qed.

(** ** The map and the history stay consistent *)

Lemma new_consistent persistedHistory : consistent (new persistedHistory).
Proof.
  unfold consistent, new, task_ids. simpl. split; [|split].
  - intros taskId r H. rewrite lookup_empty in H. discriminate.
  - constructor.
  - intros taskId [r H]. rewrite lookup_empty in H. discriminate.
Qed.

Lemma register_consistent (m : t) (c0 : Call) :
  consistent m ->
  Task.id (task c0) ∉ task_ids m ->
  Task.id (task c0) ∉ history_ids m ->
  terminal (Task.status (task c0)) = false ->
  consistent (mk (<[Task.id (task c0) := length (calls m)]> (activeTasks m))
                 (taskHistory m) (calls m ++ [c0])).
Proof.
  intros (Hactive & Hnodup & Hhist) Hfresh Hfresh' Hstatus.
  unfold consistent, task_ids, history_ids in *. simpl. split; [|split].
  - intros taskId r H. apply lookup_insert_Some in H as [[<- <-] | [Hne H]].
    + exists c0. split; [|split; [reflexivity | exact Hstatus]].
      now apply list_lookup_middle.
    + destruct (Hactive _ _ H) as (c & Hc & Hid & Hs).
      exists c. split; [|split; assumption]. now apply lookup_app_l_Some.
  - rewrite fmap_app. apply NoDup_app. split; [exact Hnodup|]. split.
    + intros x Hx Hx'. simpl in Hx'. apply list_elem_of_singleton in Hx'. now subst.
    + simpl. apply NoDup_singleton.
  - intros taskId [r H]. apply lookup_insert_Some in H as [[<- <-] | [Hne H]].
    + exact Hfresh'.
    + apply Hhist. eauto.
Qed.

Lemma executeTask_consistent type params taskId now (m : t) :
  consistent m -> taskId ∉ task_ids m -> taskId ∉ history_ids m ->
  consistent (executeTask type params taskId now m).
Proof.
  intros Hm Hfresh Hfresh'.
  exact (register_consistent m
           (mkCall ExecuteTask
              (Task.set_status TaskStatus.analyzing
                 (Task.mk taskId type params TaskStatus.planning now None None [] None None
                          None None))
              AwaitAnalyze) Hm Hfresh Hfresh' eq_refl).
Qed.

Lemma runCustomPlan_consistent type params customSteps taskId now (m : t) :
  consistent m -> taskId ∉ task_ids m -> taskId ∉ history_ids m ->
  consistent (runCustomPlan type params customSteps taskId now m).
Proof.
  intros Hm Hfresh Hfresh'.
  exact (register_consistent m
           (mkCall RunCustomPlan
              (Task.mk taskId type params TaskStatus.executing now None None customSteps
                       None None None None)
              AwaitAnalyze) Hm Hfresh Hfresh' eq_refl).
Qed.

Lemma cancelTask_consistent taskId now (m : t) :
  consistent m -> consistent (snd (cancelTask taskId now m)).
Proof.
  intros Hm. unfold cancelTask.
  destruct (activeTasks m !! taskId) as [r|] eqn:Hr; [|exact Hm].
  destruct Hm as (Hactive & Hnodup & Hhist).
  destruct (Hactive _ _ Hr) as (c & Hc & Hid & _).
  unfold consistent, task_ids, history_ids in *. simpl. split; [|split].
  - intros taskId' r' H. apply lookup_delete_Some in H as [Hne H].
    destruct (Hactive _ _ H) as (c' & Hc' & Hid' & Hs').
    exists c'. split; [|split; assumption].
    rewrite list_lookup_alter_ne; [exact Hc'|].
    intros <-. rewrite Hc in Hc'. injection Hc' as <-. congruence.
  - now rewrite (task_ids_alter m r).
  - intros taskId' [r' H]. apply lookup_delete_Some in H as [_ H]. apply Hhist. eauto.
Qed.

Section WithParser.
Variable JSON_parse : string -> option jsval.

(** What a resumed call does to the map and the history, through a
    task that has the identifier of the call and its status, or a
    status that is not final. *)
Lemma continue_store how now c activeTasks taskHistory o :
  continue JSON_parse how now c activeTasks taskHistory = Some o ->
  exists task0,
    Task.id task0 = Task.id (task c) /\
    (Task.status task0 = Task.status (task c) \/ terminal (Task.status task0) = false) /\
    keeps_or_settles task0 activeTasks taskHistory o.
Proof.
  unfold continue. intros H.
  destruct (point c)
    as [|context|context results i validation|context results i|taskResult|rejected];
    destruct how as [[context'|message]|generated| |[result|message]];
    try discriminate.
  - destruct (fn c); injection H as <-.
    + eexists. split; [|split; [right|]]; cycle 2.
      * unfold keeps_or_settles. split; [reflexivity|]. left. repeat split; reflexivity.
      * reflexivity.
      * reflexivity.
    + eexists. split; [|split; [left|apply loop_keeps_or_settles]]; reflexivity.
  - injection H as <-. exists (task c).
    split; [reflexivity|]. split; [now left|]. apply fail_keeps_or_settles.
  - injection H as <-.
    eexists. split; [|split; [right|apply loop_keeps_or_settles]]; reflexivity.
  - destruct validation as [validation|message].
    + destruct (SafetyValidation.safe validation).
      * injection H as <-. exists (task c). split; [reflexivity|]. split; [now left|].
        unfold keeps_or_settles. split; [reflexivity|]. left. repeat split; reflexivity.
      * destruct (fn c); injection H as <-.
        -- eexists. split; [|split; [left|apply fail_keeps_or_settles]]; reflexivity.
        -- exists (task c). split; [reflexivity|]. split; [now left|].
           apply fail_keeps_or_settles.
    + destruct (fn c); injection H as <-.
      * eexists. split; [|split; [left|apply fail_keeps_or_settles]]; reflexivity.
      * exists (task c). split; [reflexivity|]. split; [now left|].
        apply fail_keeps_or_settles.
  - injection H as <-.
    eexists. split; [|split; [left|apply loop_keeps_or_settles]]; reflexivity.
  - injection H as <-.
    eexists. split; [|split; [left|apply fail_keeps_or_settles]]; reflexivity.
Qed.

Lemma resumed_consistent r how now (m m' : t) :
  consistent m -> react JSON_parse (Resumed r how now) m = Some m' -> consistent m'.
Proof.
  intros (Hactive & Hnodup & Hhist). simpl.
  destruct (calls m !! r) as [c|] eqn:Hc; [|discriminate].
  destruct (continue JSON_parse how now c (activeTasks m) (taskHistory m))
    as [[[[task' point'] activeTasks'] taskHistory']|] eqn:Hk; [|discriminate].
  intros H. injection H as <-.
  destruct (continue_store _ _ _ _ _ _ Hk) as (task0 & Hid0 & Hstatus0 & Hid' & Hstore).
  rewrite Hid0 in Hid', Hstore.
  assert ((fun c => Task.id (task c)) <$> <[r := mkCall (fn c) task' point']> (calls m)
          = task_ids m) as Hids by now apply (task_ids_insert m r c).
  unfold consistent, task_ids, history_ids in *. simpl.
  destruct Hstore as [(-> & -> & Hstatus) | (-> & result & Hresult & ->)].
  - split; [|split; [now rewrite Hids | exact Hhist]].
    intros taskId r' H. destruct (Hactive _ _ H) as (c' & Hc' & Hidc & Hs).
    destruct (decide (r = r')) as [<- | Hne].
    + rewrite Hc in Hc'. injection Hc' as <-.
      eexists. split; [apply list_lookup_insert_eq; eapply lookup_lt_Some; exact Hc|].
      simpl. split; [congruence|]. rewrite Hstatus.
      destruct Hstatus0 as [-> | Hs0]; assumption.
    + exists c'. split; [|split; assumption]. now rewrite list_lookup_insert_ne.
  - split; [|split; [now rewrite Hids|]].
    + intros taskId r' H. apply lookup_delete_Some in H as [Hne H].
      destruct (Hactive _ _ H) as (c' & Hc' & Hidc & Hs).
      exists c'. split; [|split; assumption].
      rewrite list_lookup_insert_ne; [exact Hc'|].
      intros <-. rewrite Hc in Hc'. injection Hc' as <-. congruence.
    + intros taskId [r' H] Hin. apply lookup_delete_Some in H as [Hne H].
      apply pushToHistory_ids in Hin as [-> | Hin]; [congruence|].
      apply (Hhist taskId); eauto.
Qed.

Lemma react_consistent e (m m' : t) :
  consistent m -> fresh e m -> react JSON_parse e m = Some m' -> consistent m'.
Proof.
  intros Hm Hfresh H. destruct e as [type params taskId now
                                      |type params customSteps taskId now
                                      |taskId now
                                      |originalTaskId taskId now
                                      |r how now].
  - injection H as <-. destruct Hfresh. now apply executeTask_consistent.
  - injection H as <-. destruct Hfresh. now apply runCustomPlan_consistent.
  - injection H as <-. now apply cancelTask_consistent.
  - injection H as <-. unfold retryTask.
    destruct (List.find _ _); [|exact Hm].
    destruct Hfresh. now apply executeTask_consistent.
  - now apply (resumed_consistent r how now m).
Qed.

(** A step that the validator blocks, in [executeTask]: the step is
    failed with the message, then the task. *)
Lemma blocked_in_executeTask now c context results i validation reason
      activeTasks taskHistory :
  fn c = ExecuteTask ->
  point c = AwaitValidateStep context results i (Normal validation) ->
  SafetyValidation.safe validation = false ->
  SafetyValidation.reason validation = Some reason ->
  let message := ("Safety validation failed: " ++ reason)%string in
  continue JSON_parse Validated now c activeTasks taskHistory =
  Some (fail message now (fail_step i message now (task c)) activeTasks taskHistory).
Proof. intros Hf Hp Hs Hr. unfold continue. now rewrite Hp, Hs, Hr, Hf. Qed.

(** The same in [runCustomPlan]: the task is failed, the steps are
    left as they are, the blocked one running. *)
Lemma blocked_in_runCustomPlan now c context results i validation reason
      activeTasks taskHistory :
  fn c = RunCustomPlan ->
  point c = AwaitValidateStep context results i (Normal validation) ->
  SafetyValidation.safe validation = false ->
  SafetyValidation.reason validation = Some reason ->
  let message := ("Safety validation failed: " ++ reason)%string in
  continue JSON_parse Validated now c activeTasks taskHistory =
  Some (fail message now (task c) activeTasks taskHistory).
Proof. intros Hf Hp Hs Hr. unfold continue. now rewrite Hp, Hs, Hr, Hf. Qed.

(** A call whose task was cancelled while a step was executing: when
    the step returns it is completed, and the next test of the loop
    fails the task. *)
Lemma resumed_after_cancelTask now c context results i result activeTasks taskHistory :
  point c = AwaitExecuteStep context results i ->
  activeTasks !! Task.id (task c) = None ->
  i + 1 < length (Task.steps (task c)) ->
  exists task' taskHistory',
    continue JSON_parse (Executed (Normal result)) now c activeTasks taskHistory =
    Some (task', Rejected "Task cancelled by user", activeTasks, taskHistory') /\
    Task.status task' = TaskStatus.failed /\
    Task.error task' = Some "Task cancelled by user" /\
    Task.steps task' =
      alter (fun step => TaskStep.set_result result
                           (TaskStep.set_completedAt now
                              (TaskStep.set_status StepStatus.completed step)))
            i (Task.steps (task c)).
Proof.
  intros Hp Ha Hi. unfold continue. rewrite Hp.
  match goal with
  | |- context [loop ?n _ _ _ _ _ ?task0 _ _] =>
      destruct n as [|n'] eqn:Hn;
      [simpl in Hn; rewrite length_alter in Hn; lia|];
      rewrite (loop_cancelled n' _ _ _ _ _ task0) by exact Ha
  end.
  unfold fail. simpl. rewrite delete_id by exact Ha. eauto 10.
Qed.

Lemma reachable_consistent persistedHistory (m : t) :
  reachable JSON_parse persistedHistory m -> consistent m.
Proof.
  induction 1 as [|e m m' _ IH Hfresh Hreact].
  - apply new_consistent.
  - exact (react_consistent e m m' IH Hfresh Hreact).
Qed.
End WithParser.
End ManagerFacts.

(** * The statuses of the steps *)

Module StepFacts.
Import CodeCompanionManager ManagerSpec ManagerFacts TaskPlanner.

Lemma mapM_index_Forall {A B : Type} (P : B -> Prop) (f : A -> nat -> completion B) :
  (forall a index b, f a index = Normal b -> P b) ->
  forall l index bs, mapM_index f index l = Normal bs -> Forall P bs.
Proof.
  intros Hf. induction l as [|a l IH]; intros index bs; simpl.
  - intros H. injection H as <-. constructor.
  - destruct (f a index) as [b|] eqn:Hb; simpl; [|discriminate].
    destruct (mapM_index f (S index) l) as [bs'|] eqn:Hbs; simpl; [|discriminate].
    intros H. injection H as <-. constructor; eauto.
Qed.

Lemma createDefaultPlan_pending type params context :
  Forall is_pending (Plan.steps (createDefaultPlan type params context)).
Proof. destruct type; simpl; repeat constructor. Qed.

Section WithParser.
Variable JSON_parse : string -> option jsval.

Lemma parsePlanResponse_pending response plan :
  parsePlanResponse JSON_parse response = Normal plan ->
  Forall is_pending (Plan.steps plan).
Proof.
  unfold parsePlanResponse.
  destruct (match_braces response) as [jsonMatch|]; [|discriminate].
  destruct (JSON_parse jsonMatch) as [parsed|]; [|discriminate].
  destruct (get parsed "steps") as [steps|]; [|discriminate]. cbn [bind].
  destruct steps as [| | | | |items|]; try discriminate.
  destruct (mapM_index _ 0 items) as [steps|] eqn:Hsteps; [|discriminate]. cbn [bind].
  destruct (get parsed "estimatedDuration"); [|discriminate]. cbn [bind].
  intros H. injection H as <-. simpl.
  revert Hsteps. apply mapM_index_Forall. intros step index b.
  destruct (get step "id"); [|discriminate]. cbn [bind].
  destruct (get step "name"); [|discriminate]. cbn [bind].
  destruct (get step "description"); [|discriminate]. cbn [bind].
  destruct (get step "type"); [|discriminate]. cbn [bind].
  destruct (get step "parameters"); [|discriminate]. cbn [bind].
  intros H. injection H as <-. reflexivity.
Qed.

Lemma createPlan_pending type params context generated :
  Forall is_pending (Plan.steps (createPlan JSON_parse type params context generated)).
Proof.
  unfold createPlan. destruct generated as [response|message]; cbn [bind].
  - destruct (parsePlanResponse JSON_parse response) as [plan|] eqn:Hplan.
    + now apply (parsePlanResponse_pending response).
    + apply createDefaultPlan_pending.
  - apply createDefaultPlan_pending.
Qed.

Lemma moves_refl f s : moves f s s.
Proof. now left. Qed.

(** The loop from index [i], on a task whose steps from [i] on are
    pending when they come from the planner. *)
Lemma loop_steps left f context results i now task0 activeTasks taskHistory
      task' point' activeTasks' taskHistory' :
  loop left f context results i now task0 activeTasks taskHistory
  = (task', point', activeTasks', taskHistory') ->
  (f = ExecuteTask ->
   forall j step, i <= j -> Task.steps task0 !! j = Some step -> is_pending step) ->
  waits_ok (mkCall f task' point') /\
  forall j step',
    Task.steps task' !! j = Some step' ->
    exists step,
      Task.steps task0 !! j = Some step /\
      moves f (TaskStep.status step) (TaskStep.status step').
Proof.
  intros Hloop Hpending.
  destruct (loop_outcome left f context results i now task0 activeTasks taskHistory)
    as [Hs | (i' & step & Hle & Hstep & _ & Heq)]; rewrite Hloop in *.
  - destruct Hs as (_ & Hsteps & _ & Hpoint & _). split.
    + unfold waits_ok. simpl. destruct point'; try contradiction; exact I.
    + intros j step' Hj. rewrite Hsteps in Hj. eauto using moves_refl.
  - injection Heq as -> -> _ _. simpl.
    assert (i' < length (Task.steps task0)) as Hlt by (eapply lookup_lt_Some; eauto).
    split.
    + unfold waits_ok. simpl. split.
      * eexists. split; [now apply list_lookup_insert_eq | reflexivity].
      * intros Hf j step0 Hij Hj. rewrite list_lookup_insert_ne in Hj by lia.
        apply (Hpending Hf j); [lia | exact Hj].
    + intros j step' Hj. destruct (decide (i' = j)) as [<- | Hne].
      * rewrite list_lookup_insert_eq in Hj by exact Hlt. injection Hj as <-.
        exists step. split; [exact Hstep|]. simpl. destruct f.
        -- right. left. now rewrite (Hpending eq_refl i' step Hle Hstep).
        -- right. right. now split.
      * rewrite list_lookup_insert_ne in Hj by exact Hne. eauto using moves_refl.
Qed.

Lemma fail_steps message now task activeTasks taskHistory
      task' point' activeTasks' taskHistory' f :
  fail message now task activeTasks taskHistory
  = (task', point', activeTasks', taskHistory') ->
  waits_ok (mkCall f task' point') /\ Task.steps task' = Task.steps task.
Proof. unfold fail. intros H. injection H as <- <- _ _. split; [exact I | reflexivity]. Qed.

Lemma moves_trans_completed f s' :
  moves f StepStatus.completed s' -> moves f StepStatus.running s'.
Proof.
  unfold moves. intros [-> | [H | [-> ->]]].
  - right. now left.
  - destruct s'; discriminate.
  - now left.
Qed.

(** What a resumed call does to its steps. *)
Lemma continue_steps how now c activeTasks taskHistory
      task' point' activeTasks' taskHistory' :
  waits_ok c ->
  continue JSON_parse how now c activeTasks taskHistory
  = Some (task', point', activeTasks', taskHistory') ->
  waits_ok (mkCall (fn c) task' point') /\
  forall j step',
    Task.steps task' !! j = Some step' ->
    match Task.steps (task c) !! j with
    | Some step => moves (fn c) (TaskStep.status step) (TaskStep.status step')
    | None =>
        fn c = ExecuteTask ->
        TaskStep.status step' = StepStatus.pending \/
        TaskStep.status step' = StepStatus.running
    end.
Proof.
  unfold continue, waits_ok at 1. intros Hc H.
  destruct (point c)
    as [|context|context results i validation|context results i|taskResult|rejected];
    destruct how as [[context'|message]|generated| |[result|message]];
    try discriminate.
  - (* analyze returns *)
    destruct (fn c) eqn:Hf.
    + injection H as <- <- _ _. split.
      * unfold waits_ok. simpl. split; [reflexivity | now apply Hc].
      * intros j step' Hj. simpl in Hj. rewrite Hj. apply moves_refl.
    + apply (inj Some) in H.
      apply loop_steps in H as [Hw Hm]; [|discriminate].
      split; [exact Hw|]. intros j step' Hj.
      destruct (Hm j step' Hj) as (step & Hstep & Hmove).
      simpl in Hstep. now rewrite Hstep.
  - (* analyze throws *)
    apply (inj Some) in H. apply (fail_steps _ _ _ _ _ _ _ _ _ (fn c)) in H as [Hw Hs].
    split; [exact Hw|]. intros j step' Hj. rewrite Hs in Hj. rewrite Hj.
    apply moves_refl.
  - (* the plan arrives *)
    destruct Hc as [Hf Hnil]. apply (inj Some) in H. rewrite Hf in H.
    apply loop_steps in H as [Hw Hm].
    + rewrite Hf. split; [exact Hw|]. intros j step' Hj. rewrite Hnil.
      rewrite lookup_nil. intros _.
      destruct (Hm j step' Hj) as (step & Hstep & Hmove). simpl in Hstep.
      pose proof (createPlan_pending (Task.type (task c)) (Task.params (task c))
                    context generated) as Hall.
      rewrite Forall_lookup in Hall. specialize (Hall j step Hstep).
      unfold is_pending in Hall. rewrite Hall in Hmove.
      destruct Hmove as [-> | [Hr | [Hx _]]]; [now left | | discriminate].
      destruct (TaskStep.status step'); try discriminate; now right.
    + intros _ j step _ Hj. simpl in Hj.
      pose proof (createPlan_pending (Task.type (task c)) (Task.params (task c))
                    context generated) as Hall.
      rewrite Forall_lookup in Hall. exact (Hall j step Hj).
  - (* the validation returns *)
    destruct Hc as [(running & Hrun & Hstatus) Hrest].
    assert (forall o, o = (task', point', activeTasks', taskHistory') ->
                 o = (task c, AwaitExecuteStep context results i, activeTasks, taskHistory)
                 \/ (exists message, o = fail message now (task c) activeTasks taskHistory)
                 \/ (exists message,
                       o = fail message now (fail_step i message now (task c))
                                activeTasks taskHistory) ->
                 waits_ok (mkCall (fn c) task' point') /\
                 forall j step',
                   Task.steps task' !! j = Some step' ->
                   match Task.steps (task c) !! j with
                   | Some step =>
                       moves (fn c) (TaskStep.status step) (TaskStep.status step')
                   | None =>
                       fn c = ExecuteTask ->
                       TaskStep.status step' = StepStatus.pending \/
                       TaskStep.status step' = StepStatus.running
                   end) as Hcases.
    { intros o -> [Ho | [[message Ho] | [message Ho]]].
      - injection Ho as -> -> _ _. split.
        + unfold waits_ok. simpl. split; eauto.
        + intros j step' Hj. rewrite Hj. apply moves_refl.
      - symmetry in Ho. apply (fail_steps _ _ _ _ _ _ _ _ _ (fn c)) in Ho as [Hw Hs].
        split; [exact Hw|]. intros j step' Hj. rewrite Hs in Hj. rewrite Hj.
        apply moves_refl.
      - symmetry in Ho. apply (fail_steps _ _ _ _ _ _ _ _ _ (fn c)) in Ho as [Hw Hs].
        split; [exact Hw|]. intros j step' Hj. rewrite Hs in Hj. simpl in Hj.
        destruct (decide (i = j)) as [<- | Hne].
        + rewrite list_lookup_alter_eq, Hrun in Hj. injection Hj as <-.
          rewrite Hrun. simpl. rewrite Hstatus. right. now left.
        + rewrite list_lookup_alter_ne in Hj by exact Hne. rewrite Hj.
          apply moves_refl. }
    destruct validation as [validation|message].
    + destruct (SafetyValidation.safe validation).
      * apply (inj Some) in H. apply (Hcases _ H). now left.
      * destruct (fn c); apply (inj Some) in H; apply (Hcases _ H); eauto.
    + destruct (fn c); apply (inj Some) in H; apply (Hcases _ H); eauto.
  - (* the step has run *)
    destruct Hc as [(running & Hrun & Hstatus) Hrest]. apply (inj Some) in H.
    apply loop_steps in H as [Hw Hm].
    + split; [exact Hw|]. intros j step' Hj.
      destruct (Hm j step' Hj) as (step & Hstep & Hmove). simpl in Hstep.
      destruct (decide (i = j)) as [<- | Hne].
      * rewrite list_lookup_alter_eq, Hrun in Hstep. injection Hstep as <-.
        rewrite Hrun, Hstatus. simpl in Hmove. now apply moves_trans_completed.
      * rewrite list_lookup_alter_ne in Hstep by exact Hne. now rewrite Hstep.
    + intros Hf j step Hij Hj. simpl in Hj.
      rewrite list_lookup_alter_ne in Hj by lia. apply (Hrest Hf j); [lia | exact Hj].
  - (* the step has thrown *)
    destruct Hc as [(running & Hrun & Hstatus) Hrest]. apply (inj Some) in H.
    apply (fail_steps _ _ _ _ _ _ _ _ _ (fn c)) in H as [Hw Hs].
    split; [exact Hw|]. intros j step' Hj. rewrite Hs in Hj. simpl in Hj.
    destruct (decide (i = j)) as [<- | Hne].
    + rewrite list_lookup_alter_eq, Hrun in Hj. injection Hj as <-.
      rewrite Hrun. simpl. rewrite Hstatus. right. now left.
    + rewrite list_lookup_alter_ne in Hj by exact Hne. rewrite Hj. apply moves_refl.
Qed.
End WithParser.
End StepFacts.

(** * Claims on the manager *)

Section ManagerClaims.
Import CodeCompanionManager ManagerSpec ManagerFacts StepFacts.
Variable JSON_parse : string -> option jsval.

Lemma run_invariant (P : t -> Prop) :
  (forall e m m', P m -> react JSON_parse e m = Some m' -> P m') ->
  forall events m m', P m -> run JSON_parse events m = Some m' -> P m'.
Proof.
  intros Hstep. induction events as [|e events IH]; intros m m' Hm; simpl.
  - intros H. now injection H as <-.
  - destruct (react JSON_parse e m) as [m1|] eqn:He; [|discriminate].
    apply IH. eauto.
Qed.

(** ** The history is bounded *)



(** ** The statuses of the steps move forward *)

Lemma cancel_waits_ok now (c : Call) :
  waits_ok c ->
  waits_ok (mkCall (fn c)
              (Task.set_completedAt now (Task.set_status TaskStatus.cancelled (task c)))
              (point c)).
Proof. unfold waits_ok. simpl. auto. Qed.

Lemma register_steps (m : t) (c0 : Call) activeTasks' r j s' :
  Forall waits_ok (calls m) ->
  waits_ok c0 ->
  (fn c0 = ExecuteTask -> Task.steps (task c0) = []) ->
  let m' := mk activeTasks' (taskHistory m) (calls m ++ [c0]) in
  Forall waits_ok (calls m') /\
  (step_status m' r j = Some s' ->
   match step_status m r j with
   | Some s => s' = s
   | None => call_fn m' r = Some ExecuteTask -> False
   end).
Proof.
  intros Hall Hc0 Hnil. simpl. split.
  - apply Forall_app. split; [exact Hall | now constructor].
  - unfold step_status, call_fn. simpl.
    destruct (decide (r < length (calls m))) as [Hlt | Hge].
    + rewrite lookup_app_l by exact Hlt.
      destruct (calls m !! r) as [c|]; [|discriminate].
      intros H. rewrite H. reflexivity.
    + rewrite (lookup_ge_None_2 (calls m) r) by lia.
      rewrite lookup_app_r by lia.
      destruct ([c0] !! (r - length (calls m))) as [c|] eqn:Hc; [|discriminate].
      apply list_lookup_singleton_Some in Hc as [_ <-]. simpl.
      intros H Hf. injection Hf as Hf. rewrite (Hnil Hf), lookup_nil in H. discriminate.
Qed.

Lemma react_steps e (m m' : t) r j s' :
  Forall waits_ok (calls m) ->
  react JSON_parse e m = Some m' ->
  Forall waits_ok (calls m') /\
  (step_status m' r j = Some s' ->
   match step_status m r j with
   | Some s => exists f, call_fn m r = Some f /\ moves f s s'
   | None =>
       call_fn m' r = Some ExecuteTask ->
       s' = StepStatus.pending \/ s' = StepStatus.running
   end).
Proof.
  intros Hall H.
  assert (forall c0 activeTasks',
             waits_ok c0 -> (fn c0 = ExecuteTask -> Task.steps (task c0) = []) ->
             m' = mk activeTasks' (taskHistory m) (calls m ++ [c0]) ->
             Forall waits_ok (calls m') /\
             (step_status m' r j = Some s' ->
              match step_status m r j with
              | Some s => exists f, call_fn m r = Some f /\ moves f s s'
              | None =>
                  call_fn m' r = Some ExecuteTask ->
                  s' = StepStatus.pending \/ s' = StepStatus.running
              end)) as Hregister.
  { intros c0 activeTasks' Hc0 Hnil ->.
    destruct (register_steps m c0 activeTasks' r j s' Hall Hc0 Hnil) as [Hw Hs].
    split; [exact Hw|]. intros Hj. specialize (Hs Hj).
    unfold step_status, call_fn in *.
    destruct (calls m !! r) as [c|]; [|intros Hf; now destruct (Hs Hf)].
    simpl in *. destruct (Task.steps (task c) !! j); simpl in *.
    - subst. eexists. split; [reflexivity | apply moves_refl].
    - intros Hf. now destruct (Hs Hf). }
  assert (m' = m ->
          Forall waits_ok (calls m') /\
          (step_status m' r j = Some s' ->
           match step_status m r j with
           | Some s => exists f, call_fn m r = Some f /\ moves f s s'
           | None =>
               call_fn m' r = Some ExecuteTask ->
               s' = StepStatus.pending \/ s' = StepStatus.running
           end)) as Hsame.
  { intros ->. split; [exact Hall|]. intros Hj. rewrite Hj.
    unfold step_status, call_fn in *. destruct (calls m !! r); [|discriminate].
    eexists. split; [reflexivity | apply moves_refl]. }
  destruct e as [type params taskId now
                |type params customSteps taskId now
                |taskId now
                |originalTaskId taskId now
                |r0 how now]; simpl in H.
  - apply (inj Some) in H. eapply Hregister; [| |symmetry; exact H]; [|reflexivity].
    unfold waits_ok. simpl. reflexivity.
  - apply (inj Some) in H. eapply Hregister; [| |symmetry; exact H]; [|discriminate].
    unfold waits_ok. simpl. discriminate.
  - apply (inj Some) in H. unfold cancelTask in H.
    destruct (activeTasks m !! taskId) as [r0|]; simpl in H; [|now apply Hsame].
    clear Hregister Hsame. subst m'. simpl. split.
    + apply Forall_lookup. intros k c Hk. rewrite Forall_lookup in Hall.
      destruct (decide (r0 = k)) as [<- | Hne].
      * rewrite list_lookup_alter_eq in Hk.
        destruct (calls m !! r0) as [c0|] eqn:Hc0; [|discriminate].
        injection Hk as <-. apply cancel_waits_ok. exact (Hall r0 c0 Hc0).
      * rewrite list_lookup_alter_ne in Hk by exact Hne. exact (Hall k c Hk).
    + unfold step_status, call_fn. simpl.
      destruct (decide (r0 = r)) as [<- | Hne].
      * rewrite list_lookup_alter_eq. destruct (calls m !! r0) as [c0|]; [|discriminate].
        simpl. intros Hj. rewrite Hj. eexists. split; [reflexivity | apply moves_refl].
      * rewrite list_lookup_alter_ne by exact Hne.
        destruct (calls m !! r) as [c|]; [|discriminate].
        simpl. intros Hj. rewrite Hj. eexists. split; [reflexivity | apply moves_refl].
  - apply (inj Some) in H. unfold retryTask in H.
    destruct (List.find _ _); [|now apply Hsame].
    eapply Hregister; [| |symmetry; exact H]; [|reflexivity].
    unfold waits_ok. simpl. reflexivity.
  - destruct (calls m !! r0) as [c|] eqn:Hc; [|discriminate].
    destruct (continue JSON_parse how now c (activeTasks m) (taskHistory m))
      as [[[[task' point'] activeTasks'] taskHistory']|] eqn:Hk; [|discriminate].
    clear Hregister Hsame. injection H as <-. simpl.
    rewrite Forall_lookup in Hall.
    destruct (continue_steps JSON_parse _ _ _ _ _ _ _ _ _ (Hall r0 c Hc) Hk) as [Hw Hm].
    split.
    + apply Forall_lookup. intros k c' Hk'.
      destruct (decide (r0 = k)) as [<- | Hne].
      * rewrite list_lookup_insert_eq in Hk' by (eapply lookup_lt_Some; exact Hc).
        injection Hk' as <-. exact Hw.
      * rewrite list_lookup_insert_ne in Hk' by exact Hne. exact (Hall k c' Hk').
    + unfold step_status, call_fn. simpl.
      destruct (decide (r0 = r)) as [<- | Hne].
      * rewrite list_lookup_insert_eq by (eapply lookup_lt_Some; exact Hc).
        rewrite Hc. simpl.
        destruct (Task.steps task' !! j) as [step'|] eqn:Hj; [|discriminate].
        simpl. intros Hs. injection Hs as <-. specialize (Hm j step' Hj).
        destruct (Task.steps (task c) !! j); simpl.
        -- eexists. split; [reflexivity | exact Hm].
        -- intros Hf. injection Hf as Hf. exact (Hm Hf).
      * rewrite list_lookup_insert_ne by exact Hne.
        destruct (calls m !! r) as [c'|]; [|discriminate].
        simpl. intros Hj. rewrite Hj. eexists. split; [reflexivity | apply moves_refl].
Qed.

Lemma run_waits_ok persistedHistory events (m : t) :
  run JSON_parse events (new persistedHistory) = Some m -> Forall waits_ok (calls m).
Proof.
  apply (run_invariant (fun m => Forall waits_ok (calls m))).
  - intros e m0 m1 H0 He.
    exact (proj1 (react_steps e m0 m1 0 0 StepStatus.pending H0 He)).
  - constructor.
Qed.

(** C5 (amended).  In one stretch of a call, the status of a step of its
    task stays as it is or moves one level up in the order pending,
    running, completed or failed: it is never set to completed or failed
    unless it is running.  In a task run through [executeTask] this is all
    that happens, and the steps of the plan start as pending (the stretch
    that receives the plan sets its first step to running).  In
    [runCustomPlan] the loop also sets a step to running whatever status
    it was supplied with, so that a step supplied as completed or failed
    goes back to running. *)
Theorem step_status_moves_forward persistedHistory events (m : t) e (m' : t) r j s' :
  run JSON_parse events (new persistedHistory) = Some m ->
  react JSON_parse e m = Some m' ->
  step_status m' r j = Some s' ->
  match step_status m r j with
  | Some s =>
      s' = s \/ rank s' = S (rank s) \/
      (call_fn m r = Some RunCustomPlan /\ s' = StepStatus.running)
  | None =>
      call_fn m' r = Some ExecuteTask ->
      s' = StepStatus.pending \/ s' = StepStatus.running
  end.
Proof.
  intros Hrun He Hj.
  pose proof (run_waits_ok _ _ _ Hrun) as Hall.
  destruct (react_steps e m m' r j s' Hall He) as [_ Hs]. specialize (Hs Hj).
  destruct (step_status m r j) as [s|]; [|exact Hs].
  destruct Hs as (f & Hf & [-> | [Hr | [-> ->]]]); auto.
Qed.

(** ** A finished task is not active *)

Lemma getTaskById_terminal (m : t) r c :
  consistent m ->
  calls m !! r = Some c ->
  terminal (Task.status (task c)) = true ->
  getTaskById (Task.id (task c)) m = None.
Proof.
  intros (Hactive & Hnodup & _) Hc Hterminal. unfold getTaskById.
  destruct (activeTasks m !! Task.id (task c)) as [r'|] eqn:Hr'; [|reflexivity].
  destruct (Hactive _ _ Hr') as (c' & Hc' & Hid & Hs).
  assert (r' = r) as -> by (eapply same_id_same_call; eauto).
  rewrite Hc in Hc'. injection Hc' as <-. congruence.
Qed.

Lemma last_pushToHistory result (history : list TaskResult.t) :
  last (pushToHistory result history) = Some result.
Proof.
  unfold pushToHistory.
  destruct (Nat.ltb_spec 50 (length (history ++ [result]))) as [Hlt|_];
    [|apply last_snoc].
  destruct history as [|first rest]; simpl in *; [lia | apply last_snoc].
Qed.

(** A call that has returned or thrown has pushed its result. *)
Lemma continue_settled how now c activeTasks taskHistory
      task' point' activeTasks' taskHistory' :
  continue JSON_parse how now c activeTasks taskHistory
  = Some (task', point', activeTasks', taskHistory') ->
  settled point' = true ->
  Task.id task' = Task.id (task c) /\
  (Task.status task' = TaskStatus.completed \/ Task.status task' = TaskStatus.failed) /\
  exists result,
    TaskResult.taskId result = Task.id task' /\ last taskHistory' = Some result.
Proof.
  intros H Hsettled.
  assert (forall task0 o,
             o = (task', point', activeTasks', taskHistory') ->
             settles task0 activeTasks taskHistory o ->
             Task.id task0 = Task.id (task c) ->
             Task.id task' = Task.id (task c) /\
             (Task.status task' = TaskStatus.completed \/
              Task.status task' = TaskStatus.failed) /\
             exists result,
               TaskResult.taskId result = Task.id task' /\
               last taskHistory' = Some result) as Hsettles.
  { intros task0 o -> (Hid & _ & Hstatus & _ & _ & result & Hresult & ->) Hid0.
    split; [congruence|]. split; [exact Hstatus|].
    exists result. split; [congruence | apply last_pushToHistory]. }
  assert (forall task0 left f context results i o,
             o = (task', point', activeTasks', taskHistory') ->
             o = loop left f context results i now task0 activeTasks taskHistory ->
             Task.id task0 = Task.id (task c) ->
             Task.id task' = Task.id (task c) /\
             (Task.status task' = TaskStatus.completed \/
              Task.status task' = TaskStatus.failed) /\
             exists result,
               TaskResult.taskId result = Task.id task' /\
               last taskHistory' = Some result) as Hloop.
  { intros task0 left f context results i o Ho Hl Hid0.
    destruct (loop_outcome left f context results i now task0 activeTasks taskHistory)
      as [Hs | (i' & step & _ & _ & _ & Heq)]; rewrite <- Hl in *.
    - exact (Hsettles task0 o Ho Hs Hid0).
    - rewrite Ho in Heq. injection Heq as _ -> _ _. discriminate. }
  unfold continue in H.
  destruct (point c)
    as [|context|context results i validation|context results i|taskResult|rejected];
    destruct how as [[context'|message]|generated| |[result|message]];
    try discriminate.
  - destruct (fn c); apply (inj Some) in H.
    + injection H as _ <- _ _. discriminate.
    + exact (Hloop _ _ _ _ _ _ _ H eq_refl eq_refl).
  - apply (inj Some) in H. exact (Hsettles _ _ H (fail_settles _ _ _ _ _) eq_refl).
  - apply (inj Some) in H. exact (Hloop _ _ _ _ _ _ _ H eq_refl eq_refl).
  - destruct validation as [validation|message].
    + destruct (SafetyValidation.safe validation).
      * apply (inj Some) in H. injection H as _ <- _ _. discriminate.
      * destruct (fn c); apply (inj Some) in H;
          exact (Hsettles _ _ H (fail_settles _ _ _ _ _) eq_refl).
    + destruct (fn c); apply (inj Some) in H;
        exact (Hsettles _ _ H (fail_settles _ _ _ _ _) eq_refl).
  - apply (inj Some) in H. exact (Hloop _ _ _ _ _ _ _ H eq_refl eq_refl).
  - apply (inj Some) in H. exact (Hsettles _ _ H (fail_settles _ _ _ _ _) eq_refl).
Qed.

(** C6 (amended).  Once a task is completed, failed or cancelled,
    [getTaskById] on its identifier returns nothing, and no identifier is
    at once in the map of the active tasks and in the history.  A task
    that completes or fails is recorded in the history in the stretch of
    code that ends its call; [cancelTask] records nothing there. *)
Theorem finished_task_not_active persistedHistory (m : t) :
  reachable JSON_parse persistedHistory m ->
  (forall r c,
      calls m !! r = Some c ->
      terminal (Task.status (task c)) = true ->
      getTaskById (Task.id (task c)) m = None) /\
  (forall taskId, is_Some (activeTasks m !! taskId) -> taskId ∉ history_ids m) /\
  (forall r how now m' c',
      react JSON_parse (Resumed r how now) m = Some m' ->
      calls m' !! r = Some c' ->
      settled (point c') = true ->
      (Task.status (task c') = TaskStatus.completed \/
       Task.status (task c') = TaskStatus.failed) /\
      exists result,
        last (taskHistory m') = Some result /\
        TaskResult.taskId result = Task.id (task c')).
Proof.
  intros Hreach. pose proof (reachable_consistent _ _ _ Hreach) as Hm.
  split; [|split].
  - intros r c. now apply getTaskById_terminal.
  - now destruct Hm as (_ & _ & Hhist).
  - intros r how now m' c' Hreact Hc' Hsettled. simpl in Hreact.
    destruct (calls m !! r) as [c|] eqn:Hc; [|discriminate].
    destruct (continue JSON_parse how now c (activeTasks m) (taskHistory m))
      as [[[[task' point'] activeTasks'] taskHistory']|] eqn:Hk; [|discriminate].
    injection Hreact as <-. simpl in *.
    rewrite list_lookup_insert_eq in Hc' by (eapply lookup_lt_Some; exact Hc).
    injection Hc' as <-. simpl in *.
    destruct (continue_settled _ _ _ _ _ _ _ _ _ Hk Hsettled)
      as (_ & Hstatus & result & Hresult & Hlast).
    split; [exact Hstatus|]. exists result. now split.
Qed.
End ManagerClaims.

Section ManagerExamples.
Import CodeCompanionManager ManagerSpec Examples.


Lemma step_status_moves_forward_witness :
  let m := default (new []) (run JSON.parse (take 4 cancel_after_two_steps) (new [])) in
  let e := Resumed 0 (Executed (Normal (JStr "first"))) 1004 in
  let m' := default m (react JSON.parse e m) in
  step_status m 0 1 = Some StepStatus.pending /\
  step_status m' 0 1 = Some StepStatus.running /\
  (StepStatus.running = StepStatus.pending \/
   rank StepStatus.running = S (rank StepStatus.pending) \/
   (call_fn m 0 = Some RunCustomPlan /\ StepStatus.running = StepStatus.running)).
Proof.
  intros m e m'.
  assert (run JSON.parse (take 4 cancel_after_two_steps) (new []) = Some m) as Hrun
      by (vm_compute; reflexivity).
  assert (react JSON.parse e m = Some m') as He by (vm_compute; reflexivity).
  assert (step_status m' 0 1 = Some StepStatus.running) as Hj by (vm_compute; reflexivity).
  assert (step_status m 0 1 = Some StepStatus.pending) as Hs by (vm_compute; reflexivity).
  pose proof (step_status_moves_forward JSON.parse [] _ m e m' 0 1 _ Hrun He Hj) as H.
  rewrite Hs in H. split; [exact Hs|]. split; [exact Hj | exact H].
Defined.

(** C5 as stated fails in [runCustomPlan]: the chat panel sends the steps
    of a finished task, and the loop sets a completed step back to
    running. *)
Lemma completed_step_set_running :
  exists m m',
    run JSON.parse (take 1 rerun_finished_plan) (new []) = Some m /\
    react JSON.parse (Resumed 0 (Analyzed (Normal proj)) 2001) m = Some m' /\
    step_status m 0 0 = Some StepStatus.completed /\
    step_status m' 0 0 = Some StepStatus.running /\
    rank StepStatus.running < rank StepStatus.completed.
Proof.
  eexists. eexists.
  split; [vm_compute; reflexivity|]. split; [vm_compute; reflexivity|].
  split; [vm_compute; reflexivity|]. split; [vm_compute; reflexivity|].
  simpl. lia.
Qed.

Lemma cancel_during_analysis_reachable :
  exists m,
    run JSON.parse cancel_during_analysis (new []) = Some m /\
    reachable JSON.parse [] m.
Proof.
  eexists. split; [vm_compute; reflexivity|].
  eapply reachable_react
    with (e := CancelTaskCalled "task_1" 1001);
    [eapply reachable_react with (e := ExecuteTaskCalled review [] "task_1" 1000);
     [apply reachable_new | | reflexivity] | exact I | vm_compute; reflexivity].
  split; apply not_elem_of_nil.
Defined.

Lemma finished_task_not_active_witness :
  exists m c,
    run JSON.parse cancel_during_analysis (new []) = Some m /\
    calls m !! 0 = Some c /\
    Task.status (task c) = TaskStatus.cancelled /\
    getTaskById (Task.id (task c)) m = None.
Proof.
  destruct cancel_during_analysis_reachable as (m & Hrun & Hreach).
  destruct (finished_task_not_active JSON.parse [] m Hreach) as (Hget & _ & _).
  exists m. revert Hget. vm_compute in Hrun. injection Hrun as <-. intros Hget.
  eexists. split; [vm_compute; reflexivity|]. split; [reflexivity|].
  split; [reflexivity|]. apply (Hget 0); reflexivity.
Defined.

(** C6 as stated fails after a cancellation: the task is cancelled and
    no longer active, but the history holds no result for it. *)
Lemma cancelled_task_not_in_history :
  exists m c,
    run JSON.parse cancel_during_analysis (new []) = Some m /\
    calls m = [c] /\
    Task.id (task c) = "task_1" /\
    Task.status (task c) = TaskStatus.cancelled /\
    getTaskById "task_1" m = None /\
    taskHistory m = [].
Proof.
  eexists. eexists. split; [vm_compute; reflexivity|].
  repeat split; reflexivity.
Qed.


(** C2: the code at the failing input.  In [runCustomPlan] a blocked step
    stays [running] and gets no error: the validation is outside the
    [try] block that fails a step.  [executeTask] on the same plan fails
    the step with the reason.  In both the task fails with the reason and
    the next step stays pending. *)
Theorem blocked_step_left_running :
  exists m c m' c',
    run JSON.parse custom_plan_blocked (new []) = Some m /\
    calls m = [c] /\
    (fun s => (TaskStep.status s, TaskStep.error s)) <$> Task.steps (task c) =
      [ (StepStatus.running, None); (StepStatus.pending, None) ] /\
    Task.status (task c) = TaskStatus.failed /\
    Task.error (task c) =
      Some "Safety validation failed: Dangerous command detected: rm -rf /tmp/x" /\
    run JSON.parse planned_blocked (new []) = Some m' /\
    calls m' = [c'] /\
    (fun s => (TaskStep.status s, TaskStep.error s)) <$> Task.steps (task c') =
      [ (StepStatus.failed,
         Some "Safety validation failed: Dangerous command detected: rm -rf /tmp/x");
        (StepStatus.pending, None) ] /\
    Task.status (task c') = TaskStatus.failed /\
    Task.error (task c') =
      Some "Safety validation failed: Dangerous command detected: rm -rf /tmp/x".
Proof.
  eexists. eexists. eexists. eexists.
  split; [vm_compute; reflexivity|]. split; [reflexivity|].
  split; [reflexivity|]. split; [reflexivity|]. split; [reflexivity|].
  split; [vm_compute; reflexivity|]. repeat split; reflexivity.
Qed.
End ManagerExamples.

(** * Further properties of the manager *)

Module StretchFacts.
Import CodeCompanionManager ManagerSpec ManagerFacts.

Lemma complete_stretch_ok context results now task activeTasks taskHistory :
  stretch_ok (Task.id task) activeTasks taskHistory
             (complete context results now task activeTasks taskHistory).
Proof.
  unfold stretch_ok, complete, result_ok. cbn.
  repeat split; try reflexivity; eauto.
Qed.

Lemma fail_stretch_ok message now task activeTasks taskHistory :
  stretch_ok (Task.id task) activeTasks taskHistory
             (fail message now task activeTasks taskHistory).
Proof.
  unfold stretch_ok, fail. cbn.
  repeat split; try reflexivity.
  eexists. split; [|split; [|split; [|split; [|reflexivity]]]]; try reflexivity.
  unfold result_ok. cbn. repeat split; eauto.
Qed.

Lemma loop_stretch_ok left fn context results i now task activeTasks taskHistory :
  stretch_ok (Task.id task) activeTasks taskHistory
             (loop left fn context results i now task activeTasks taskHistory).
Proof.
  revert i. induction left as [|left IH]; intros i; simpl.
  - apply complete_stretch_ok.
  - destruct (activeTasks !! Task.id task); [|apply fail_stretch_ok].
    destruct (Task.steps task !! i).
    + unfold stretch_ok. cbn. repeat split; reflexivity.
    + destruct fn; [apply IH | apply fail_stretch_ok].
Qed.

Section WithParser.
Variable JSON_parse : string -> option jsval.

Lemma continue_stretch_ok how now c activeTasks taskHistory o :
  continue JSON_parse how now c activeTasks taskHistory = Some o ->
  stretch_ok (Task.id (task c)) activeTasks taskHistory o.
Proof.
  unfold continue. intros H.
  destruct (point c)
    as [|context|context results i validation|context results i|taskResult|rejected];
    destruct how as [[context'|message]|generated| |[result|message]];
    try discriminate.
  - destruct (fn c); apply (inj Some) in H; subst o.
    + unfold stretch_ok. cbn. repeat split; reflexivity.
    + apply (loop_stretch_ok _ _ _ _ _ _ (Task.set_context context' (task c))).
  - apply (inj Some) in H; subst o. apply fail_stretch_ok.
  - apply (inj Some) in H; subst o.
    match goal with
    | |- context [loop _ _ _ _ _ _ ?task0 _ _] =>
        apply (loop_stretch_ok _ _ _ _ _ _ task0)
    end.
  - destruct validation as [validation|message].
    + destruct (SafetyValidation.safe validation).
      * apply (inj Some) in H; subst o. unfold stretch_ok. cbn. repeat split; reflexivity.
      * destruct (fn c); apply (inj Some) in H; subst o.
        -- match goal with
           | |- context [fail _ _ ?task0 _ _] => apply (fail_stretch_ok _ _ task0)
           end.
        -- apply fail_stretch_ok.
    + destruct (fn c); apply (inj Some) in H; subst o.
      * match goal with
        | |- context [fail _ _ ?task0 _ _] => apply (fail_stretch_ok _ _ task0)
        end.
      * apply fail_stretch_ok.
  - apply (inj Some) in H; subst o.
    match goal with
    | |- context [loop _ _ _ _ _ _ ?task0 _ _] =>
        apply (loop_stretch_ok _ _ _ _ _ _ task0)
    end.
  - apply (inj Some) in H; subst o.
    match goal with
    | |- context [fail _ _ ?task0 _ _] => apply (fail_stretch_ok _ _ task0)
    end.
Qed.

(** A resumed call, as a change of the manager. *)
Lemma react_Resumed r how now (m m' : t) :
  react JSON_parse (Resumed r how now) m = Some m' ->
  exists c task' point' activeTasks' taskHistory',
    calls m !! r = Some c /\
    continue JSON_parse how now c (activeTasks m) (taskHistory m)
    = Some (task', point', activeTasks', taskHistory') /\
    m' = mk activeTasks' taskHistory' (<[r := mkCall (fn c) task' point']> (calls m)).
Proof.
  simpl. destruct (calls m !! r) as [c|]; [|discriminate].
  destruct (continue JSON_parse how now c (activeTasks m) (taskHistory m))
    as [[[[task' point'] activeTasks'] taskHistory']|] eqn:Hk; [|discriminate].
  intros H. apply (inj Some) in H. subst m'. eauto 10.
Qed.

Lemma react_Resumed_intro r how now (m : t) c task' point' activeTasks' taskHistory' :
  calls m !! r = Some c ->
  continue JSON_parse how now c (activeTasks m) (taskHistory m)
  = Some (task', point', activeTasks', taskHistory') ->
  react JSON_parse (Resumed r how now) m
  = Some (mk activeTasks' taskHistory' (<[r := mkCall (fn c) task' point']> (calls m))).
Proof. intros Hc Hk. simpl. now rewrite Hc, Hk. Qed.

Lemma run_cons e events (m : t) :
  run JSON_parse (e :: events) m =
  match react JSON_parse e m with
  | Some m' => run JSON_parse events m'
  | None => None
  end.
Proof. reflexivity. Qed.
End WithParser.

Lemma find_history_None (history : list TaskResult.t) (taskId : string) :
  taskId ∉ TaskResult.taskId <$> history ->
  List.find (fun item => String.eqb (TaskResult.taskId item) taskId) history = None.
Proof.
  induction history as [|item history IH]; [reflexivity|]. simpl.
  intros Hnotin. apply not_elem_of_cons in Hnotin as [Hne Hnotin].
  destruct (String.eqb_spec (TaskResult.taskId item) taskId) as [Heq|_]; [congruence|].
  now apply IH.
Qed.

Lemma pushToHistory_Forall (P : TaskResult.t -> Prop) result (history : list TaskResult.t) :
  P result -> Forall P history -> Forall P (pushToHistory result history).
Proof.
  intros Hr Hh. unfold pushToHistory.
  assert (Forall P (history ++ [result])) as Hall
      by (apply Forall_app; split; [exact Hh | now constructor]).
  destruct (50 <? length (history ++ [result]))%nat; [|exact Hall].
  destruct (history ++ [result]); [exact Hall|]. simpl. now inversion Hall.
Qed.

Lemma ended_ok_mono (m m' : t) c :
  (activeTasks m !! Task.id (task c) = None ->
   activeTasks m' !! Task.id (task c) = None) ->
  ended_ok m c -> ended_ok m' c.
Proof. unfold ended_ok. destruct (point c); intuition. Qed.

(** The validator reads the type and the parameters of a step only. *)
Lemma validateStep_reads (step step' : TaskStep.t) context :
  TaskStep.type step' = TaskStep.type step ->
  TaskStep.parameters step' = TaskStep.parameters step ->
  SafetyValidator.validateStep step' context = SafetyValidator.validateStep step context.
Proof. destruct step, step'. simpl. intros -> ->. reflexivity. Qed.

Lemma passes_running context step now :
  passes context step ->
  passes context (TaskStep.set_startedAt now (TaskStep.set_status StepStatus.running step)).
Proof.
  unfold passes.
  now rewrite (validateStep_reads step
                 (TaskStep.set_startedAt now (TaskStep.set_status StepStatus.running step))).
Qed.
End StretchFacts.

Section ManagerExtras.
Import CodeCompanionManager ManagerSpec ManagerFacts StepFacts StretchFacts.
Variable JSON_parse : string -> option jsval.

(** X1.  [cancelTask] answers whether the identifier was in the map.
    After it the identifier is not in the map: [getTaskById] finds
    nothing, and a second [cancelTask] answers false and changes
    nothing.  The history and the other identifiers are untouched, and
    the only call that is written to is the one of the identifier, whose
    task is cancelled. *)
Theorem cancelTask_once taskId now now' (m : t) :
  let m' := snd (cancelTask taskId now m) in
  fst (cancelTask taskId now m) = bool_decide (is_Some (activeTasks m !! taskId)) /\
  (fst (cancelTask taskId now m) = false -> m' = m) /\
  getTaskById taskId m' = None /\
  cancelTask taskId now' m' = (false, m') /\
  taskHistory m' = taskHistory m /\
  (forall taskId', taskId' <> taskId ->
                   activeTasks m' !! taskId' = activeTasks m !! taskId') /\
  (forall r r' c,
      activeTasks m !! taskId = Some r ->
      calls m !! r' = Some c ->
      calls m' !! r' =
      Some (if decide (r' = r)
            then mkCall (fn c)
                        (Task.set_completedAt now
                           (Task.set_status TaskStatus.cancelled (task c)))
                        (point c)
            else c)).
Proof.
  unfold cancelTask, getTaskById.
  destruct (activeTasks m !! taskId) as [r|] eqn:Ha; cbn.
  - rewrite lookup_delete_eq.
    split; [reflexivity|]. split; [discriminate|].
    split; [reflexivity|]. split; [reflexivity|]. split; [reflexivity|].
    split.
    + intros taskId' Hne. now rewrite lookup_delete_ne.
    + intros r0 r' c H Hc. injection H as <-.
      destruct (decide (r' = r)) as [->|Hne].
      * rewrite list_lookup_alter_eq, Hc. reflexivity.
      * rewrite list_lookup_alter_ne by congruence. exact Hc.
  - rewrite Ha.
    split; [reflexivity|]. split; [reflexivity|].
    split; [reflexivity|]. split; [reflexivity|]. split; [reflexivity|].
    split; [reflexivity|]. intros r r' c H. discriminate.
Qed.

(** X2.  [retryTask] starts nothing for a task that is still in the map,
    nor for an identifier that the history does not hold: an active task
    is never in the history, so that only a task whose call has ended can
    be retried. *)
Theorem retryTask_needs_history persistedHistory (m : t) originalTaskId taskId now :
  reachable JSON_parse persistedHistory m ->
  is_Some (getTaskById originalTaskId m) \/ originalTaskId ∉ history_ids m ->
  retryTask originalTaskId taskId now m = m.
Proof.
  intros Hm H. unfold retryTask.
  rewrite find_history_None; [reflexivity|].
  destruct H as [[task0 H]|H]; [|exact H].
  destruct (reachable_consistent _ _ _ Hm) as (_ & _ & Hhist).
  apply Hhist. unfold getTaskById in H.
  destruct (activeTasks m !! originalTaskId); [eauto | discriminate].
Qed.

(** X3.  A stretch of a call writes to its own call only, removes no
    identifier but its own from the map, and leaves the history as it is
    or pushes one result, which is the one of its own task. *)
Theorem resumed_frame r how now (m m' : t) c :
  calls m !! r = Some c ->
  react JSON_parse (Resumed r how now) m = Some m' ->
  (forall r', r' <> r -> calls m' !! r' = calls m !! r') /\
  (forall taskId, taskId <> Task.id (task c) ->
                  activeTasks m' !! taskId = activeTasks m !! taskId) /\
  (taskHistory m' = taskHistory m \/
   exists result,
     TaskResult.taskId result = Task.id (task c) /\
     taskHistory m' = pushToHistory result (taskHistory m)).
Proof.
  intros Hc H.
  destruct (react_Resumed _ _ _ _ _ _ H)
    as (c' & task' & point' & activeTasks' & taskHistory' & Hc' & Hk & ->).
  rewrite Hc in Hc'. injection Hc' as <-. cbn.
  split; [intros r' Hne; now rewrite list_lookup_insert_ne|].
  pose proof (continue_stretch_ok _ _ _ _ _ _ _ Hk) as (Hid & Hshape).
  destruct point' as [|context|context results i validation|context results i
                      |taskResult|rejected].
  1-4: destruct Hshape as [-> ->]; split; [reflexivity | now left].
  - destruct Hshape as (_ & _ & Hres & _ & -> & ->).
    split; [intros taskId Hne; now rewrite lookup_delete_ne|]. right. eauto.
  - destruct Hshape as (_ & _ & -> & taskResult & _ & _ & Hres & _ & ->).
    split; [intros taskId Hne; now rewrite lookup_delete_ne|]. right. eauto.
Qed.
(** ** Calls that have ended *)

Lemma ended_ok_react e (m m' : t) :
  consistent m ->
  (forall r c, calls m !! r = Some c -> ended_ok m c) ->
  fresh e m ->
  react JSON_parse e m = Some m' ->
  forall r c, calls m' !! r = Some c -> ended_ok m' c.
Proof.
  intros (Hactive & Hnodup & Hhist) Hended Hfresh H.
  assert (forall type params taskId now,
             taskId ∉ task_ids m ->
             forall r c, calls (executeTask type params taskId now m) !! r = Some c ->
                         ended_ok (executeTask type params taskId now m) c) as Hexec.
  { intros type params taskId now Hnew r c Hc. unfold executeTask in *. cbn in Hc.
    apply lookup_app_Some in Hc as [Hc | [_ Hc]].
    - apply (ended_ok_mono m); [|now apply (Hended r)]. cbn. intros Hnone.
      rewrite lookup_insert_ne; [exact Hnone|].
      intros Heq. apply Hnew. rewrite Heq. unfold task_ids.
      apply list_elem_of_fmap. exists c. split; [reflexivity|].
      eapply list_elem_of_lookup_2. exact Hc.
    - apply list_lookup_singleton_Some in Hc as [_ <-]. exact I. }
  destruct e as [type params taskId now
                |type params customSteps taskId now
                |taskId now
                |originalTaskId taskId now
                |r0 how now].
  - apply (inj Some) in H. subst m'. destruct Hfresh as [Hnew _]. now apply Hexec.
  - apply (inj Some) in H. subst m'. destruct Hfresh as [Hnew _].
    intros r c Hc. unfold runCustomPlan in *. cbn in Hc.
    apply lookup_app_Some in Hc as [Hc | [_ Hc]].
    + apply (ended_ok_mono m); [|now apply (Hended r)]. cbn. intros Hnone.
      rewrite lookup_insert_ne; [exact Hnone|].
      intros Heq. apply Hnew. rewrite Heq. unfold task_ids.
      apply list_elem_of_fmap. exists c. split; [reflexivity|].
      eapply list_elem_of_lookup_2. exact Hc.
    + apply list_lookup_singleton_Some in Hc as [_ <-]. exact I.
  - apply (inj Some) in H. subst m'. unfold cancelTask.
    destruct (activeTasks m !! taskId) as [r0|] eqn:Ha; [|exact Hended].
    cbn. intros r c Hc.
    destruct (Hactive _ _ Ha) as (c0 & Hc0 & Hid0 & Hs0).
    destruct (decide (r = r0)) as [->|Hne].
    + rewrite list_lookup_alter_eq, Hc0 in Hc. apply (inj Some) in Hc. subst c.
      pose proof (Hended _ _ Hc0) as H0. unfold ended_ok in *. cbn.
      destruct (point c0); try exact I.
      * destruct H0 as (_ & _ & _ & H0). congruence.
      * destruct H0 as (_ & _ & H0). congruence.
    + rewrite list_lookup_alter_ne in Hc by congruence.
      apply (ended_ok_mono m); [|now apply (Hended r)]. cbn. intros Hnone.
      apply lookup_delete_None. now right.
  - apply (inj Some) in H. subst m'. unfold retryTask.
    destruct (List.find _ _); [|exact Hended].
    destruct Hfresh as [Hnew _]. now apply Hexec.
  - destruct (react_Resumed _ _ _ _ _ _ H)
      as (c0 & task' & point' & activeTasks' & taskHistory' & Hc0 & Hk & ->).
    pose proof (continue_stretch_ok _ _ _ _ _ _ _ Hk) as (Hid & Hshape).
    intros r c Hc. cbn in Hc.
    destruct (decide (r = r0)) as [->|Hne].
    + rewrite list_lookup_insert_eq in Hc by (eapply lookup_lt_Some; exact Hc0).
      apply (inj Some) in Hc. subst c. unfold ended_ok. cbn.
      destruct point'; try exact I.
      * destruct Hshape as (Hs & Hsucc & Hres & _ & -> & _).
        rewrite Hid. repeat split; try assumption. apply lookup_delete_eq.
      * destruct Hshape as (Hs & Herr & -> & _).
        rewrite Hid. repeat split; try assumption. apply lookup_delete_eq.
    + rewrite list_lookup_insert_ne in Hc by congruence.
      apply (ended_ok_mono m); [|now apply (Hended r)]. cbn. intros Hnone.
      destruct point'.
      1-4: destruct Hshape as [-> _]; exact Hnone.
      * destruct Hshape as (_ & _ & _ & _ & -> & _). apply lookup_delete_None. now right.
      * destruct Hshape as (_ & _ & -> & _). apply lookup_delete_None. now right.
Qed.

(** X4.  In every state of the manager, a call that has returned has a
    completed task and a result that is a success, a call that has thrown
    has a failed task whose error is the message thrown, and the
    identifier of neither is in the map: no later event writes to the
    task of a call that has ended. *)
Theorem ended_call_agrees persistedHistory (m : t) r c :
  reachable JSON_parse persistedHistory m ->
  calls m !! r = Some c ->
  ended_ok m c.
Proof.
  intros Hm. revert r c.
  induction Hm as [|e m m' Hm IH Hfresh Hreact]; [intros r c H; discriminate|].
  apply (ended_ok_react e m m'); try assumption.
  exact (reachable_consistent _ _ _ Hm).
Qed.

(** X5.  The results of the history keep their shape: a success holds
    the outputs of the steps and no error, a failure an error and no
    outputs, and both hold the steps and the parameters of the task, which
    [retryTask] reads. *)
Theorem history_results_well_formed persistedHistory events (m : t) :
  Forall result_ok persistedHistory ->
  run JSON_parse events (new persistedHistory) = Some m ->
  Forall result_ok (taskHistory m).
Proof.
  intros Hp. apply (run_invariant JSON_parse (fun m => Forall result_ok (taskHistory m)));
    [|exact Hp].
  clear. intros e m m' Hm H.
  destruct e as [type params taskId now
                |type params customSteps taskId now
                |taskId now
                |originalTaskId taskId now
                |r how now].
  - apply (inj Some) in H. now subst m'.
  - apply (inj Some) in H. now subst m'.
  - apply (inj Some) in H. subst m'. unfold cancelTask.
    now destruct (activeTasks m !! taskId).
  - apply (inj Some) in H. subst m'. unfold retryTask. now destruct (List.find _ _).
  - destruct (react_Resumed _ _ _ _ _ _ H)
      as (c0 & task' & point' & activeTasks' & taskHistory' & Hc0 & Hk & ->).
    pose proof (continue_stretch_ok _ _ _ _ _ _ _ Hk) as (Hid & Hshape). cbn.
    destruct point'.
    1-4: destruct Hshape as [_ ->]; exact Hm.
    + destruct Hshape as (_ & _ & _ & Hok & _ & ->). now apply pushToHistory_Forall.
    + destruct Hshape as (_ & _ & _ & taskResult & _ & _ & _ & Hok & ->).
      now apply pushToHistory_Forall.
Qed.
(** ** Tasks that run to the end *)

Lemma proceed_completes outs :
  forall (m : t) r c context results i validation,
    calls m !! r = Some c ->
    is_Some (activeTasks m !! Task.id (task c)) ->
    point c = AwaitValidateStep context results i (Normal validation) ->
    SafetyValidation.safe validation = true ->
    length (Task.steps (task c)) = i + length outs ->
    outs <> [] ->
    (forall j step, i < j -> Task.steps (task c) !! j = Some step -> passes context step) ->
    exists m' task' taskResult,
      run JSON_parse (proceed r outs) m = Some m' /\
      calls m' !! r = Some (mkCall (fn c) task' (Resolved taskResult)) /\
      Task.id task' = Task.id (task c) /\
      Task.status task' = TaskStatus.completed /\
      Task.estimatedDuration task' = Task.estimatedDuration (task c) /\
      length (Task.steps task') = length (Task.steps (task c)) /\
      (forall j, j < i -> Task.steps task' !! j = Task.steps (task c) !! j) /\
      (forall j out, outs !! j = Some out ->
                     exists step, Task.steps task' !! (i + j) = Some step /\
                                  finished step out) /\
      TaskResult.success taskResult = true /\
      TaskResult.results taskResult = Some (results ++ (fst <$> outs)) /\
      TaskResult.steps taskResult = Some (Task.steps task') /\
      taskHistory m' = pushToHistory taskResult (taskHistory m) /\
      activeTasks m' = delete (Task.id (task c)) (activeTasks m).
Proof.
  induction outs as [|[result now] outs IH];
    intros m r c context results i validation Hc Hactive Hpoint Hsafe Hlen Hne Hrest;
    [congruence|]. clear Hne.
  change (proceed r ((result, now) :: outs))
    with (Resumed r Validated now :: Resumed r (Executed (Normal result)) now
                  :: proceed r outs).
  assert (r < length (calls m)) as Hr by (eapply lookup_lt_Some; exact Hc).
  (* the validation *)
  assert (continue JSON_parse Validated now c (activeTasks m) (taskHistory m)
          = Some (task c, AwaitExecuteStep context results i, activeTasks m, taskHistory m))
    as Hk1 by (unfold continue; now rewrite Hpoint, Hsafe).
  rewrite run_cons, (react_Resumed_intro _ _ _ _ _ _ _ _ _ _ Hc Hk1).
  set (c1 := mkCall (fn c) (task c) (AwaitExecuteStep context results i)).
  set (m1 := mk (activeTasks m) (taskHistory m) (<[r := c1]> (calls m))).
  assert (calls m1 !! r = Some c1) as Hc1 by now apply list_lookup_insert_eq.
  (* the execution *)
  set (done := fun step => TaskStep.set_result result
                             (TaskStep.set_completedAt now
                                (TaskStep.set_status StepStatus.completed step))).
  set (task2 := updateTaskProgress (i + 1) (length (alter done i (Task.steps (task c))))
                                   (Task.update_step i done (task c))).
  assert (Task.steps task2 = alter done i (Task.steps (task c))) as Hsteps2 by reflexivity.
  assert (Task.id task2 = Task.id (task c)) as Hid2 by reflexivity.
  assert (exists step, Task.steps (task c) !! i = Some step) as [step Hstep].
  { apply lookup_lt_is_Some. simpl in Hlen. lia. }
  assert (continue JSON_parse (Executed (Normal result)) now c1 (activeTasks m1)
                   (taskHistory m1)
          = Some (loop (length (Task.steps task2) - (i + 1)) (fn c) context
                       (results ++ [result]) (i + 1) now task2
                       (activeTasks m) (taskHistory m))) as Hk2 by reflexivity.
  assert (outs = [] \/ outs <> []) as [->|Hmore]
      by (destruct outs; [now left | now right]).
  - (* the last step *)
    replace (length (Task.steps task2) - (i + 1)) with 0 in Hk2.
    2:{ rewrite Hsteps2. rewrite length_alter; simpl in Hlen; lia. }
    cbn [loop] in Hk2. unfold complete in Hk2.
    rewrite run_cons, (react_Resumed_intro _ _ _ _ _ _ _ _ _ _ Hc1 Hk2).
    cbn [proceed flat_map run].
    eexists. eexists. eexists. split; [reflexivity|].
    split; [apply list_lookup_insert_eq; unfold m1; cbn [calls];
            now rewrite length_insert|].
    split; [reflexivity|]. split; [reflexivity|]. split; [reflexivity|].
    split; [exact (length_alter done (Task.steps (task c)) i)|].
    split; [intros j Hj; apply (list_lookup_alter_ne done); lia|].
    split.
    { intros [|j] out Hout; [|discriminate]. apply (inj Some) in Hout. subst out.
      exists (done step). split; [|repeat split].
      rewrite Nat.add_0_r.
      change (alter done i (Task.steps (task c)) !! i = Some (done step)).
      now rewrite list_lookup_alter_eq, Hstep. }
    repeat split.
  - (* a step follows *)
    destruct Hactive as [r0 Hactive].
    assert (0 < length outs) as Hpos by (destruct outs; [congruence | simpl; lia]).
    assert (exists next, Task.steps (task c) !! (i + 1) = Some next) as [next Hnext].
    { apply lookup_lt_is_Some. simpl in Hlen. lia. }
    assert (Task.steps task2 !! (i + 1) = Some next) as Hnext2.
    { rewrite Hsteps2, list_lookup_alter_ne by lia. exact Hnext. }
    assert (exists n, length (Task.steps task2) - (i + 1) = S n) as [n Hn].
    { exists (length outs - 1). rewrite Hsteps2, length_alter. simpl in Hlen. lia. }
    rewrite Hn in Hk2.
    rewrite (loop_suspends_here _ _ _ _ _ _ task2 _ _ r0 next) in Hk2
      by assumption.
    set (next' := TaskStep.set_startedAt now
                    (TaskStep.set_status StepStatus.running next)) in Hk2.
    destruct (passes_running context next now) as (validation' & Hv' & Hsafe').
    { apply (Hrest (i + 1)); [lia | exact Hnext]. }
    fold next' in Hv'. rewrite Hv' in Hk2.
    rewrite run_cons, (react_Resumed_intro _ _ _ _ _ _ _ _ _ _ Hc1 Hk2).
    set (task3 := Task.set_steps (<[i + 1 := next']> (Task.steps task2)) task2).
    set (c3 := mkCall (fn c1) task3
                      (AwaitValidateStep context (results ++ [result]) (i + 1)
                                         (Normal validation'))).
    set (m3 := mk (activeTasks m) (taskHistory m) (<[r := c3]> (calls m1))).
    assert (Task.steps task3 = <[i + 1 := next']> (alter done i (Task.steps (task c))))
      as Hsteps3 by reflexivity.
    destruct (IH m3 r c3 context (results ++ [result]) (i + 1) validation')
      as (m' & task' & taskResult & Hrun & Hcall & Hid & Hstatus & Hest & Hlen' & Hprefix
          & Hdone & Hsucc & Hresults & Hrsteps & Hhist & Hact).
    + apply list_lookup_insert_eq. unfold m1. cbn. now rewrite length_insert.
    + exists r0. exact Hactive.
    + reflexivity.
    + exact Hsafe'.
    + change (Task.steps (task c3)) with (Task.steps task3).
      rewrite Hsteps3, length_insert, length_alter. simpl in Hlen. lia.
    + exact Hmore.
    + intros j step' Hj Hs. change (Task.steps (task c3)) with (Task.steps task3) in Hs.
      rewrite Hsteps3 in Hs.
      rewrite list_lookup_insert_ne, list_lookup_alter_ne in Hs by lia.
      apply (Hrest j); [lia | exact Hs].
    + change (Task.steps (task c3)) with (Task.steps task3) in Hlen', Hprefix.
      change (Task.id (task c3)) with (Task.id (task c)) in Hid, Hact.
      change (fn c3) with (fn c) in Hcall.
      change (taskHistory m3) with (taskHistory m) in Hhist.
      change (activeTasks m3) with (activeTasks m) in Hact.
      exists m', task', taskResult.
      split; [exact Hrun|]. split; [exact Hcall|]. split; [exact Hid|].
      split; [exact Hstatus|]. split; [exact Hest|].
      split; [rewrite Hlen', Hsteps3, length_insert, length_alter; reflexivity|].
      split.
      { intros j Hj. rewrite Hprefix by lia. rewrite Hsteps3.
        rewrite list_lookup_insert_ne, list_lookup_alter_ne by lia. reflexivity. }
      split.
      { intros [|j] out Hout.
        - apply (inj Some) in Hout. subst out. exists (done step).
          rewrite Nat.add_0_r, Hprefix by lia. rewrite Hsteps3.
          rewrite list_lookup_insert_ne, list_lookup_alter_eq, Hstep by lia.
          split; [reflexivity|]. repeat split.
        - destruct (Hdone j out Hout) as (step' & Hs' & Hf').
          exists step'. split; [|exact Hf'].
          replace (i + S j) with (i + 1 + j) by lia. exact Hs'. }
      split; [exact Hsucc|].
      split; [rewrite Hresults, <- app_assoc; reflexivity|].
      split; [exact Hrsteps|]. split; [exact Hhist | exact Hact].
Qed.
Lemma loop_completes (m : t) r c0 context now task0 outs :
  calls m !! r = Some c0 ->
  is_Some (activeTasks m !! Task.id task0) ->
  length outs = length (Task.steps task0) ->
  Forall (passes context) (Task.steps task0) ->
  exists task1 point1 activeTasks1 taskHistory1 m' task' taskResult,
    loop (length (Task.steps task0)) (fn c0) context [] 0 now task0
         (activeTasks m) (taskHistory m)
    = (task1, point1, activeTasks1, taskHistory1) /\
    run JSON_parse (proceed r outs)
        (mk activeTasks1 taskHistory1 (<[r := mkCall (fn c0) task1 point1]> (calls m)))
    = Some m' /\
    calls m' !! r = Some (mkCall (fn c0) task' (Resolved taskResult)) /\
    Task.id task' = Task.id task0 /\
    Task.status task' = TaskStatus.completed /\
    Task.estimatedDuration task' = Task.estimatedDuration task0 /\
    Forall2 finished (Task.steps task') outs /\
    TaskResult.success taskResult = true /\
    TaskResult.results taskResult = Some (fst <$> outs) /\
    TaskResult.steps taskResult = Some (Task.steps task') /\
    taskHistory m' = pushToHistory taskResult (taskHistory m) /\
    activeTasks m' = delete (Task.id task0) (activeTasks m).
Proof.
  intros Hc0 [r0 Hactive] Hlen Hpass.
  assert (r < length (calls m)) as Hr by (eapply lookup_lt_Some; exact Hc0).
  destruct (Task.steps task0) as [|first rest] eqn:Hsteps.
  - destruct outs; [|discriminate]. cbn [length loop]. unfold complete.
    do 7 eexists. split; [reflexivity|]. split; [reflexivity|].
    split; [apply list_lookup_insert_eq; exact Hr|].
    split; [reflexivity|]. split; [reflexivity|]. split; [reflexivity|].
    split; [cbn; rewrite Hsteps; constructor|].
    repeat split.
  - cbn [length].
    rewrite (loop_suspends_here _ _ _ _ _ _ task0 _ _ r0 first)
      by (try assumption; now rewrite Hsteps).
    set (first' := TaskStep.set_startedAt now
                     (TaskStep.set_status StepStatus.running first)).
    destruct (passes_running context first now) as (validation & Hv & Hsafe).
    { now inversion Hpass. }
    fold first' in Hv. rewrite Hv.
    set (task1 := Task.set_steps (<[0 := first']> (Task.steps task0)) task0).
    set (c1 := mkCall (fn c0) task1 (AwaitValidateStep context [] 0 (Normal validation))).
    set (m1 := mk (activeTasks m) (taskHistory m) (<[r := c1]> (calls m))).
    destruct (proceed_completes outs m1 r c1 context [] 0 validation)
      as (m' & task' & taskResult & Hrun & Hcall & Hid & Hstatus & Hest & Hlen' & _
          & Hdone & Hsucc & Hresults & Hrsteps & Hhist & Hact).
    + now apply list_lookup_insert_eq.
    + exists r0. exact Hactive.
    + reflexivity.
    + exact Hsafe.
    + change (Task.steps (task c1)) with (<[0 := first']> (Task.steps task0)).
      rewrite length_insert, Hsteps. simpl in *. lia.
    + intros ->. discriminate.
    + intros j step Hj Hs.
      change (Task.steps (task c1)) with (<[0 := first']> (Task.steps task0)) in Hs.
      rewrite list_lookup_insert_ne in Hs by lia.
      rewrite Forall_lookup in Hpass. apply (Hpass j). now rewrite <- Hsteps.
    + change (Task.steps (task c1)) with (<[0 := first']> (Task.steps task0)) in Hlen'.
      rewrite length_insert in Hlen'.
      exists task1, (AwaitValidateStep context [] 0 (Normal validation)),
             (activeTasks m), (taskHistory m), m', task', taskResult.
      split; [reflexivity|]. split; [exact Hrun|]. split; [exact Hcall|].
      split; [exact Hid|]. split; [exact Hstatus|]. split; [exact Hest|].
      split.
      { apply Forall2_same_length_lookup_2; [congruence|].
        intros j step out Hs Hout. destruct (Hdone j out Hout) as (step' & Hs' & Hf).
        simpl in Hs'. congruence. }
      split; [exact Hsucc|]. split; [exact Hresults|]. split; [exact Hrsteps|].
      split; [exact Hhist | exact Hact].
Qed.

(** X6.  [runCustomPlan] on steps that the validator finds safe, each
    executed with success while nobody cancels the task: the call returns
    a success that holds the outputs in the order of the steps, every
    step is completed with its output, the task is completed, its result
    is pushed to the history and its identifier leaves the map. *)
Theorem custom_plan_completes (m : t) type params customSteps taskId now context now' outs :
  length outs = length customSteps ->
  Forall (passes context) customSteps ->
  exists m' task' taskResult,
    run JSON_parse
        (RunCustomPlanCalled type params customSteps taskId now
           :: Resumed (length (calls m)) (Analyzed (Normal context)) now'
           :: proceed (length (calls m)) outs) m = Some m' /\
    calls m' !! length (calls m) = Some (mkCall RunCustomPlan task' (Resolved taskResult)) /\
    Task.id task' = taskId /\
    Task.status task' = TaskStatus.completed /\
    Forall2 finished (Task.steps task') outs /\
    TaskResult.success taskResult = true /\
    TaskResult.results taskResult = Some (fst <$> outs) /\
    TaskResult.steps taskResult = Some (Task.steps task') /\
    taskHistory m' = pushToHistory taskResult (taskHistory m) /\
    activeTasks m' = delete taskId (activeTasks m).
Proof.
  intros Hlen Hpass.
  set (r := length (calls m)).
  set (m0 := runCustomPlan type params customSteps taskId now m).
  set (task0 := Task.mk taskId type params TaskStatus.executing now None None customSteps
                        None None None None).
  set (c0 := mkCall RunCustomPlan task0 AwaitAnalyze).
  assert (calls m0 !! r = Some c0) as Hc0 by apply list_lookup_middle, eq_refl.
  destruct (loop_completes m0 r c0 context now' (Task.set_context context task0) outs)
    as (task1 & point1 & activeTasks1 & taskHistory1 & m' & task' & taskResult
        & Hloop & Hrun & Hcall & Hid & Hstatus & Hest & Hdone & Hsucc & Hresults & Hrsteps
        & Hhist & Hact); try assumption.
  { exists r. apply lookup_insert_eq. }
  assert (continue JSON_parse (Analyzed (Normal context)) now' c0 (activeTasks m0)
                   (taskHistory m0)
          = Some (task1, point1, activeTasks1, taskHistory1)) as Hk
      by (rewrite <- Hloop; reflexivity).
  exists m', task', taskResult.
  split.
  { rewrite run_cons. change (react JSON_parse _ m) with (Some m0). cbv iota.
    rewrite run_cons, (react_Resumed_intro _ _ _ _ _ _ _ _ _ _ Hc0 Hk). exact Hrun. }
  split; [exact Hcall|]. split; [exact Hid|]. split; [exact Hstatus|].
  split; [exact Hdone|]. split; [exact Hsucc|]. split; [exact Hresults|].
  split; [exact Hrsteps|]. split; [exact Hhist|].
  rewrite Hact. apply delete_insert_eq.
Qed.

(** ** Cancellation comes too late *)


(** ** The progress of a task *)

End ManagerExtras.

Section ManagerExtrasExamples.
Import CodeCompanionManager ManagerSpec Examples.

Lemma retryTask_needs_history_witness :
  let m := executeTask review [] "task_1" 1000 (new []) in
  retryTask "task_1" "task_2" 2000 m = m.
Proof.
  intros m.
  assert (reachable JSON.parse [] m) as Hm.
  { apply (reachable_react JSON.parse [] (ExecuteTaskCalled review [] "task_1" 1000)
                           (new []) m).
    - apply reachable_new.
    - split; apply not_elem_of_nil.
    - reflexivity. }
  apply (retryTask_needs_history JSON.parse [] m "task_1" "task_2" 2000 Hm).
  left. vm_compute. eauto.
Defined.

Lemma resumed_frame_witness :
  let m := default (new []) (run JSON.parse (take 3 review_to_the_end) (new [])) in
  let m' := default m (react JSON.parse (Resumed 0 Validated 1003) m) in
  (forall r', r' <> 0 -> calls m' !! r' = calls m !! r') /\
  (forall taskId, taskId <> "task_1" -> activeTasks m' !! taskId = activeTasks m !! taskId) /\
  (taskHistory m' = taskHistory m \/
   exists result,
     TaskResult.taskId result = "task_1" /\
     taskHistory m' = pushToHistory result (taskHistory m)).
Proof.
  intros m m'.
  assert (is_Some (calls m !! 0)) as [c Hc] by (vm_compute; eauto).
  assert (Task.id (task c) = "task_1") as Hid.
  { pose proof Hc as Hc'. vm_compute in Hc'. apply (inj Some) in Hc'. now subst c. }
  assert (react JSON.parse (Resumed 0 Validated 1003) m = Some m') as He
      by (vm_compute; reflexivity).
  pose proof (resumed_frame JSON.parse 0 Validated 1003 m m' c Hc He) as H.
  rewrite Hid in H. exact H.
Defined.
Lemma ended_call_agrees_witness :
  let m := default (new [])
             (run JSON.parse [ExecuteTaskCalled review [] "task_1" 1000;
                              Resumed 0 (Analyzed (Throw "no workspace")) 1001]
                  (new [])) in
  exists c, calls m !! 0 = Some c /\ ended_ok m c.
Proof.
  intros m.
  set (m0 := executeTask review [] "task_1" 1000 (new [])).
  assert (reachable JSON.parse [] m0) as Hm0.
  { apply (reachable_react JSON.parse [] (ExecuteTaskCalled review [] "task_1" 1000)
                           (new []) m0).
    - apply reachable_new.
    - split; apply not_elem_of_nil.
    - reflexivity. }
  assert (reachable JSON.parse [] m) as Hm.
  { apply (reachable_react JSON.parse []
                           (Resumed 0 (Analyzed (Throw "no workspace")) 1001) m0 m Hm0).
    - exact I.
    - vm_compute. reflexivity. }
  assert (is_Some (calls m !! 0)) as [c Hc] by (vm_compute; eauto).
  exists c. split; [exact Hc|].
  exact (ended_call_agrees JSON.parse [] m 0 c Hm Hc).
Defined.

Lemma history_results_well_formed_witness :
  let m := default (new []) (run JSON.parse review_to_the_end (new [])) in
  length (taskHistory m) = 1 /\ Forall result_ok (taskHistory m).
Proof.
  intros m. split; [vm_compute; reflexivity|].
  assert (run JSON.parse review_to_the_end (new []) = Some m) as Hrun
      by (vm_compute; reflexivity).
  exact (history_results_well_formed JSON.parse [] review_to_the_end m (List.Forall_nil _) Hrun).
Defined.

Lemma custom_plan_completes_witness :
  let customSteps := [analysis_step StepStatus.pending; create_file] in
  let outs := [(JStr "analysis", 1002%Z); (JObj [("success", JBool true)], 1003%Z)] in
  exists m' task' taskResult,
    run JSON.parse
        (RunCustomPlanCalled implement [] customSteps "task_1" 1000
           :: Resumed 0 (Analyzed (Normal proj)) 1001
           :: proceed 0 outs) (new []) = Some m' /\
    calls m' !! 0 = Some (mkCall RunCustomPlan task' (Resolved taskResult)) /\
    Task.id task' = "task_1" /\
    Task.status task' = TaskStatus.completed /\
    Forall2 finished (Task.steps task') outs /\
    TaskResult.success taskResult = true /\
    TaskResult.results taskResult = Some (fst <$> outs) /\
    TaskResult.steps taskResult = Some (Task.steps task') /\
    taskHistory m' = pushToHistory taskResult [] /\
    activeTasks m' = delete "task_1" ∅.
Proof.
  intros customSteps outs.
  assert (Forall (passes proj) customSteps) as Hpass.
  { constructor; [exists (SafetyValidation.mk true None [] []);
                   split; vm_compute; reflexivity|].
    constructor; [exists (SafetyValidation.mk true None [] []);
                   split; vm_compute; reflexivity|].
    apply List.Forall_nil. }
  exact (custom_plan_completes JSON.parse (new []) implement [] customSteps "task_1" 1000
                               proj 1001 outs eq_refl Hpass).
Defined.



End ManagerExtrasExamples.

(** * Further properties of the safety validator *)

Module VerdictFacts.
Import SafetyValidation SafetyValidator ValidatorSpec SafetyValidatorFacts.

Lemma grows_refl n v : grows n v v.
Proof. split; [tauto | lia]. Qed.

Lemma grows_block r w rec v : grows 1 v (block r w rec v).
Proof.
  unfold grows, verdict_ok, block. cbn. rewrite !length_app. cbn.
  split; [|lia]. intros (_ & _ & Hlen).
  split; [split; discriminate|]. split; [|lia].
  intros _ H. apply app_eq_nil in H as [_ H]. discriminate.
Qed.

Lemma grows_warn w rec v : grows 1 v (warn w rec v).
Proof.
  unfold grows, verdict_ok, warn. cbn. rewrite !length_app. cbn.
  split; [|lia]. intros (Hreason & Hwarn & Hlen).
  split; [exact Hreason|]. split; [|lia].
  intros _ H. apply app_eq_nil in H as [_ H]. discriminate.
Qed.

Lemma grows_0 v v' : grows 0 v v' -> grows 1 v v'.
Proof. intros [H Hlen]. split; [exact H | lia]. Qed.

Lemma grows_trans n n' v v' v'' : grows n v v' -> grows n' v' v'' -> grows (n + n') v v''.
Proof. intros [H Hlen] [H' Hlen']. split; [tauto | lia]. Qed.

Ltac cases H :=
  repeat first
    [ progress cbn [bind] in H
    | progress cbv beta zeta in H
    | match type of H with
      | Normal _ = Normal _ => injection H as H; subst
      | Throw _ = Normal _ => discriminate H
      | bind ?c _ = Normal _ => destruct c eqn:?
      | (if ?b then _ else _) = Normal _ => destruct b eqn:?
      | match ?x with _ => _ end = Normal _ => destruct x eqn:?
      end ].

Ltac grown := first [apply grows_refl | apply grows_block | apply grows_warn
                     | apply grows_0, grows_refl].

Lemma check_dangerous_command_grows step v v' :
  check_dangerous_command step v = Normal v' ->
  grows (if type_is step "terminal_command" then 1 else 0) v v'.
Proof. unfold check_dangerous_command. intros H. cases H; grown. Qed.

Lemma check_sensitive_file_grows step v v' :
  check_sensitive_file step v = Normal v' ->
  grows (if type_is step "file_operation" then 1 else 0) v v'.
Proof. unfold check_sensitive_file. intros H. cases H; grown. Qed.

Lemma check_workspace_boundary_grows step context v v' :
  check_workspace_boundary step context v = Normal v' -> grows 1 v v'.
Proof. unfold check_workspace_boundary. intros H. cases H; grown. Qed.

Lemma check_uncommitted_changes_grows step context v :
  grows (if type_is step "file_operation" then 1 else 0) v
        (check_uncommitted_changes step context v).
Proof.
  unfold check_uncommitted_changes.
  destruct (TaskContext.gitInfo context) as [info|];
    [|destruct (type_is step "file_operation"); grown].
  destruct (GitInfo.hasUncommittedChanges info), (type_is step "file_operation");
    cbn [andb]; grown.
Qed.

Lemma check_large_content_grows step v v' :
  check_large_content step v = Normal v' ->
  grows (if type_is step "file_operation" then 1 else 0) v v'.
Proof. unfold check_large_content. intros H. cases H; grown. Qed.

Lemma check_recursive_pattern_grows step v v' :
  check_recursive_pattern step v = Normal v' ->
  grows (if type_is step "terminal_command" then 1 else 0) v v'.
Proof. unfold check_recursive_pattern. intros H. cases H; grown. Qed.
End VerdictFacts.

Section ValidatorExtras.
Import SafetyValidation SafetyValidator ValidatorSpec SafetyValidatorFacts VerdictFacts.

(** X10.  Whatever the step and the context, a verdict of
    [validateStep] gives a reason exactly when it is not safe, and then
    holds a warning; it holds a recommendation for each warning and at
    most four warnings. *)
Theorem validateStep_verdict_ok step context v :
  validateStep step context = Normal v ->
  verdict_ok v /\ length (warnings v) <= 4.
Proof.
  unfold validateStep. intros H.
  destruct (check_dangerous_command step (mk true None [] [])) as [v1|] eqn:H1;
    [|discriminate].
  cbn [bind] in H.
  destruct (check_sensitive_file step v1) as [v2|] eqn:H2; [|discriminate].
  cbn [bind] in H.
  destruct (check_workspace_boundary step context v2) as [v3|] eqn:H3; [|discriminate].
  cbn [bind] in H.
  destruct (check_large_content step (check_uncommitted_changes step context v3))
    as [v5|] eqn:H5; [|discriminate].
  cbn [bind] in H.
  destruct (check_recursive_pattern step v5) as [v6|] eqn:H6; [|discriminate].
  cbn [bind] in H. injection H as H. subst v6.
  apply check_dangerous_command_grows in H1.
  apply check_sensitive_file_grows in H2.
  apply check_workspace_boundary_grows in H3.
  pose proof (check_uncommitted_changes_grows step context v3) as H4.
  apply check_large_content_grows in H5.
  apply check_recursive_pattern_grows in H6.
  assert (type_is step "terminal_command" = true -> type_is step "file_operation" = false)
    as Hexcl by (apply type_is_exclusive; discriminate).
  assert (verdict_ok (mk true None [] [])) as H0.
  { unfold verdict_ok. cbn. repeat split; discriminate. }
  destruct H1 as [Hok1 Hn1], H2 as [Hok2 Hn2], H3 as [Hok3 Hn3], H4 as [Hok4 Hn4],
           H5 as [Hok5 Hn5], H6 as [Hok6 Hn6].
  split; [tauto|]. cbn [warnings length] in Hn1.
  destruct (type_is step "terminal_command"), (type_is step "file_operation");
    try (specialize (Hexcl eq_refl); discriminate); lia.
Qed.


End ValidatorExtras.

Section ValidatorExtrasExamples.
Import SafetyValidation SafetyValidator ValidatorSpec Examples.

Lemma validateStep_verdict_ok_witness :
  exists v,
    validateStep rm_step_outside proj = Normal v /\
    verdict_ok v /\ length (warnings v) <= 4.
Proof.
  assert (validateStep rm_step_outside proj =
          Normal (mk false (Some "Operation outside workspace boundary: /etc/passwd")
                     [ "This command could cause data loss or system damage";
                       "This operation targets files outside the current workspace" ]
                     [ "Review the command carefully before execution";
                       "Ensure the file path is within the workspace" ])) as Hv
      by (vm_compute; reflexivity).
  eexists. split; [exact Hv|].
  exact (validateStep_verdict_ok rm_step_outside proj _ Hv).
Defined.


End ValidatorExtrasExamples.

(** * Further properties of the planner *)

Module BraceFacts.
Import TaskPlanner.

Lemma append_cons (d : ascii) (a b : string) :
  (String d a ++ b = String d (a ++ b))%string.
Proof. reflexivity. Qed.

Lemma append_nil (b : string) : ("" ++ b = b)%string.
Proof. reflexivity. Qed.

Lemma includes_char (c : ascii) (d : ascii) (s : string) :
  includes (String d s) (String c "") = Ascii.eqb c d || includes s (String c "").
Proof. simpl. now rewrite andb_true_r. Qed.

Lemma from_first_brace_app (pre s : string) :
  includes pre "{" = false ->
  from_first_brace (pre ++ "{" ++ s) = Some ("{" ++ s)%string.
Proof.
  induction pre as [|d pre IH]; [reflexivity|]. intros H.
  rewrite includes_char in H. apply orb_false_iff in H as [Hd H].
  rewrite append_cons. cbn [from_first_brace].
  rewrite Ascii.eqb_sym in Hd. rewrite Hd. now apply IH.
Qed.

Lemma from_first_brace_Some (s t : string) :
  from_first_brace s = Some t ->
  exists pre rest, s = (pre ++ "{" ++ rest)%string /\ includes pre "{" = false /\
                   t = ("{" ++ rest)%string.
Proof.
  induction s as [|d s IH]; [discriminate|]. cbn [from_first_brace].
  destruct (Ascii.eqb_spec d "{"%char) as [->|Hne].
  - intros H. injection H as <-. exists "", s. repeat split.
  - intros H. destruct (IH H) as (pre & rest & -> & Hpre & ->).
    exists (String d pre), rest. split; [reflexivity|]. split; [|reflexivity].
    rewrite includes_char, Hpre, orb_false_r.
    apply Ascii.eqb_neq. congruence.
Qed.

Lemma upto_last_brace_None (post : string) :
  includes post "}" = false -> upto_last_brace post = None.
Proof.
  induction post as [|d post IH]; [reflexivity|]. intros H.
  rewrite includes_char in H. apply orb_false_iff in H as [Hd H].
  cbn [upto_last_brace]. rewrite IH by exact H.
  rewrite Ascii.eqb_sym in Hd. now rewrite Hd.
Qed.

Lemma upto_last_brace_app (s post : string) :
  includes post "}" = false ->
  upto_last_brace (s ++ "}" ++ post) = Some (s ++ "}")%string.
Proof.
  intros H. induction s as [|d s IH].
  - rewrite append_nil, append_cons. cbn [upto_last_brace].
    now rewrite upto_last_brace_None.
  - rewrite append_cons. cbn [upto_last_brace]. now rewrite IH.
Qed.

Lemma upto_last_brace_Some (s t : string) :
  upto_last_brace s = Some t ->
  exists body post, s = (body ++ "}" ++ post)%string /\ includes post "}" = false /\
                    t = (body ++ "}")%string.
Proof.
  revert t. induction s as [|d s IH]; [discriminate|]. intros t. cbn [upto_last_brace].
  destruct (upto_last_brace s) as [t'|] eqn:Hs.
  - intros H. injection H as <-.
    destruct (IH t' eq_refl) as (body & post & -> & Hpost & ->).
    exists (String d body), post. repeat split. exact Hpost.
  - destruct (Ascii.eqb_spec d "}"%char) as [->|Hne]; [|discriminate].
    intros H. injection H as <-. exists "", s. split; [reflexivity|].
    split; [|reflexivity].
    clear IH. induction s as [|e s IHs]; [reflexivity|].
    cbn [upto_last_brace] in Hs.
    destruct (upto_last_brace s); [discriminate|].
    destruct (Ascii.eqb_spec e "}"%char) as [->|Hne]; [discriminate|].
    rewrite includes_char, IHs by reflexivity.
    rewrite orb_false_r. apply Ascii.eqb_neq. congruence.
Qed.

Lemma match_braces_app (pre body post : string) :
  includes pre "{" = false ->
  includes post "}" = false ->
  match_braces (pre ++ "{" ++ body ++ "}" ++ post) = Some ("{" ++ body ++ "}")%string.
Proof.
  intros Hpre Hpost. unfold match_braces.
  rewrite from_first_brace_app by exact Hpre. rewrite append_cons, append_nil.
  now rewrite upto_last_brace_app.
Qed.
End BraceFacts.

Section PlannerExtras.
Import TaskPlanner PlannerSpec BraceFacts.
Variable JSON_parse : string -> option jsval.

(** X13.  What [parsePlanResponse] hands to [JSON.parse] is the text
    from the first opening brace of the response to its last closing
    brace: the text around it is ignored, and the plan that is read from
    a response is the one that is read from that text alone. *)
Theorem parsePlanResponse_reads_the_braces response jsonMatch :
  (match_braces response = Some jsonMatch <->
   exists pre body post,
     response = (pre ++ "{" ++ body ++ "}" ++ post)%string /\
     includes pre "{" = false /\
     includes post "}" = false /\
     jsonMatch = ("{" ++ body ++ "}")%string) /\
  (match_braces response = Some jsonMatch ->
   parsePlanResponse JSON_parse response = parsePlanResponse JSON_parse jsonMatch).
Proof.
  assert (match_braces response = Some jsonMatch ->
          exists pre body post,
            response = (pre ++ "{" ++ body ++ "}" ++ post)%string /\
            includes pre "{" = false /\
            includes post "}" = false /\
            jsonMatch = ("{" ++ body ++ "}")%string) as Hspec.
  { unfold match_braces.
    destruct (from_first_brace response) as [t|] eqn:Hfirst; [|discriminate].
    destruct (from_first_brace_Some _ _ Hfirst) as (pre & rest & -> & Hpre & ->).
    rewrite append_cons, append_nil.
    destruct (upto_last_brace rest) as [t|] eqn:Hlast; [|discriminate].
    destruct (upto_last_brace_Some _ _ Hlast) as (body & post & -> & Hpost & ->).
    intros H. injection H as <-. exists pre, body, post. repeat split; assumption. }
  split; [split; [exact Hspec|]|].
  - intros (pre & body & post & -> & Hpre & Hpost & ->). now apply match_braces_app.
  - intros H. destruct (Hspec H) as (pre & body & post & -> & Hpre & Hpost & ->).
    assert (match_braces ("{" ++ body ++ "}") = Some ("{" ++ body ++ "}")%string) as Hself
        by exact (match_braces_app "" body "" eq_refl eq_refl).
    unfold parsePlanResponse. now rewrite H, Hself.
Qed.

Lemma mapM_index_imap {A B : Type} (f : A -> nat -> completion B) (g : nat -> A -> B)
      (l : list A) :
  forall index,
    (forall i a, l !! i = Some a -> f a (index + i) = Normal (g (index + i) a)) ->
    mapM_index f index l = Normal (imap (fun i => g (index + i)) l).
Proof.
  induction l as [|a l IH]; intros index H; [reflexivity|].
  cbn [mapM_index]. rewrite <- (Nat.add_0_r index) at 1. rewrite (H 0 a eq_refl).
  cbn [bind]. rewrite (IH (S index)).
  - cbn [bind imap]. rewrite Nat.add_0_r. do 2 f_equal.
    apply imap_ext. intros i x _. cbn. f_equal. lia.
  - intros i x Hx. replace (S index + i) with (index + S i) by lia. now apply H.
Qed.

Lemma mapM_index_Throw {A B : Type} (f : A -> nat -> completion B) (l : list A) :
  forall index,
    (exists i a, l !! i = Some a /\ forall j, exists message, f a j = Throw message) ->
    exists message, mapM_index f index l = Throw message.
Proof.
  induction l as [|a l IH]; intros index (i & x & Hx & Hthrow); [discriminate|].
  cbn [mapM_index]. destruct i as [|i].
  - injection Hx as <-. destruct (Hthrow index) as [message ->]. eauto.
  - destruct (f a index) as [b|message]; [|eauto]. cbn [bind].
    destruct (IH (S index)) as [message ->]; eauto.
Qed.

Lemma get_prop_of item key :
  nullish item = false -> get item key = Normal (prop_of item key).
Proof. unfold prop_of. destruct item; try discriminate; reflexivity. Qed.

(** X14.  A response whose [steps] is an array yields one step for each
    item, in the order of the array, all of them pending.  An item gives
    its [id], [name], [description], [type] and [parameters] where they
    are truthy; the defaults are [step_N] and [Step N] for the item at
    position N (from 1), an empty description, the type [analysis] and no
    parameters; the estimate defaults to 300.  A [null] among the items
    makes the whole response invalid. *)
Theorem parsePlanResponse_steps response jsonMatch props items :
  match_braces response = Some jsonMatch ->
  JSON_parse jsonMatch = Some (JObj props) ->
  obj_get "steps" props = JArr items ->
  (Forall (fun item => nullish item = false) items ->
   parsePlanResponse JSON_parse response =
   Normal (Plan.mk (imap planned_step items)
                   (js_or (obj_get "estimatedDuration" props) (of_nat 300)))) /\
  (Exists (fun item => nullish item = true) items ->
   parsePlanResponse JSON_parse response = Throw "Invalid plan response format").
Proof.
  intros Hmatch Hparse Hsteps. unfold parsePlanResponse.
  rewrite Hmatch, Hparse. cbn [get bind]. rewrite Hsteps. split.
  - intros Hitems.
    rewrite (mapM_index_imap _ planned_step).
    + cbn [bind]. do 2 f_equal.
    + intros i item Hitem. cbn [Nat.add].
      rewrite Forall_lookup in Hitems. specialize (Hitems i item Hitem).
      rewrite !(get_prop_of item) by exact Hitems. reflexivity.
  - intros Hitems. apply Exists_exists in Hitems as (item & Hin & Hnull).
    apply list_elem_of_lookup in Hin as [i Hi].
    match goal with
    | |- context [mapM_index ?f 0 items] =>
        destruct (mapM_index_Throw f items 0) as [message ->]; [|reflexivity]
    end.
    exists i, item. split; [exact Hi|]. intros j.
    destruct item; try discriminate; cbn; eauto.
Qed.
End PlannerExtras.

Section DefaultPlanExtras.
Import SafetyValidation SafetyValidator ValidatorSpec TaskPlanner ManagerSpec.

Lemma validateStep_plain step context props :
  type_is step "terminal_command" = false ->
  type_is step "file_operation" = false ->
  TaskStep.parameters step = JObj props ->
  obj_get "filePath" props = JUndefined ->
  validateStep step context = Normal (mk true None [] []).
Proof.
  intros Hterm Hfile Hp Hpath.
  unfold validateStep, check_dangerous_command, check_sensitive_file,
    check_workspace_boundary, check_uncommitted_changes, check_large_content,
    check_recursive_pattern.
  rewrite Hterm, Hfile, Hp. cbn [bind get]. rewrite Hpath.
  destruct (workspaceRoot_truthy context); cbn [bind js_or truthy];
    destruct (TaskContext.gitInfo context) as [info|]; rewrite ?andb_false_r; reflexivity.
Qed.

(** X15.  The plans that the planner falls back to for the types
    [implement], [review], [test] and [document] are never blocked: the
    validator finds each of their steps safe, in every context and for
    all parameters of the task. *)
Theorem default_plan_passes type params context :
  type <> refactor ->
  type <> fix_ ->
  Forall (passes context) (Plan.steps (createDefaultPlan type params context)).
Proof.
  intros Hrefactor Hfix.
  assert (forall id name description type parameters,
             In type ["analysis"; "code_generation"; "documentation"] ->
             obj_get "filePath" parameters = JUndefined ->
             passes context (pending_step id name description (JStr type)
                                          (JObj parameters))) as Hstep.
  { intros id name description type' parameters Htype Hpath.
    exists (mk true None [] []). split; [|reflexivity].
    apply (validateStep_plain _ _ parameters); try reflexivity; try exact Hpath;
      simpl in Htype; intuition (subst; reflexivity). }
  destruct type; try congruence; cbn [createDefaultPlan Plan.steps];
    repeat (constructor; [apply Hstep; [simpl; tauto | reflexivity]|]);
    constructor.
Qed.
End DefaultPlanExtras.

Section PlannerExtrasExamples.
Import TaskPlanner PlannerSpec ManagerSpec Examples.

Lemma parsePlanResponse_steps_witness :
  let items := [ JObj [("type", JStr "terminal_command");
                       ("parameters", JObj [("command", JStr "rm -rf /tmp/x")])];
                 JObj [("type", JStr "analysis")] ] in
  parsePlanResponse JSON.parse rm_plan_response =
  Normal (Plan.mk (imap planned_step items)
                  (js_or (obj_get "estimatedDuration" [("steps", JArr items)])
                         (of_nat 300))).
Proof.
  intros items.
  assert (match_braces rm_plan_response = Some rm_plan_response) as Hmatch
      by (vm_compute; reflexivity).
  assert (JSON.parse rm_plan_response = Some (JObj [("steps", JArr items)])) as Hparse
      by (vm_compute; reflexivity).
  apply (parsePlanResponse_steps JSON.parse rm_plan_response rm_plan_response
                                 [("steps", JArr items)] items Hmatch Hparse eq_refl).
  repeat constructor.
Defined.

Lemma default_plan_passes_witness :
  Forall (passes editing_env)
         (Plan.steps (createDefaultPlan implement [("description", JStr "add login")]
                                        editing_env)).
Proof. apply default_plan_passes; discriminate. Defined.
End PlannerExtrasExamples.

(** * The executor *)

Module SplitFacts.
Import BraceFacts.

Lemma append_assoc (a b c : string) : ((a ++ b) ++ c = a ++ b ++ c)%string.
Proof. induction a as [|d a IH]; [reflexivity|]. now rewrite !append_cons, IH. Qed.

Lemma append_empty (a : string) : (a ++ "" = a)%string.
Proof. induction a as [|d a IH]; [reflexivity|]. now rewrite append_cons, IH. Qed.

Lemma split_pieces_cons (sep s : string) :
  forall skip piece, exists first rest, split_pieces sep s skip piece = first :: rest.
Proof.
  induction s as [|c s IH]; intros skip piece; cbn [split_pieces]; [eauto|].
  destruct skip as [|skip]; [|apply IH].
  destruct (startsWith (String c s) sep); [eauto | apply IH].
Qed.

Lemma join_cons (sep first : string) (rest : list string) :
  rest <> [] -> join sep (first :: rest) = (first ++ sep ++ join sep rest)%string.
Proof. destruct rest; [congruence | reflexivity]. Qed.

Lemma join_split_pieces (sep s : string) :
  sep <> "" ->
  forall skip piece passed kept,
    s = (passed ++ kept)%string ->
    String.length passed = skip ->
    join sep (split_pieces sep s skip piece) = (piece ++ kept)%string.
Proof.
  intros Hsep. induction s as [|c s IH]; intros skip piece passed kept Hs Hskip.
  - destruct passed; [|discriminate]. rewrite append_nil in Hs. subst kept skip.
    cbn. now rewrite append_empty.
  - cbn [split_pieces]. destruct skip as [|skip].
    + destruct passed; [|discriminate]. rewrite append_nil in Hs. subst kept.
      destruct (startsWith (String c s) sep) eqn:Hstart.
      * apply startsWith_app in Hstart as [rest Hrest].
        destruct sep as [|d sep]; [congruence|].
        rewrite append_cons in Hrest. injection Hrest as <- ->.
        destruct (split_pieces_cons (String c sep) (sep ++ rest)
                                    (String.length (String c sep) - 1) "")
          as (first & others & Hsplit).
        rewrite join_cons by (rewrite Hsplit; discriminate).
        rewrite (IH _ "" sep rest eq_refl) by (simpl; lia).
        now rewrite append_nil, append_cons.
      * rewrite (IH 0 (piece ++ String c "")%string "" s eq_refl eq_refl).
        now rewrite append_assoc.
    + destruct passed as [|d passed]; [discriminate|].
      rewrite append_cons in Hs. injection Hs as <- ->. injection Hskip as Hskip.
      now apply (IH skip piece passed kept).
Qed.

(** The pieces of [split] give the text back when they are joined with
    the separator. *)
Lemma join_split (s sep : string) : sep <> "" -> join sep (split s sep) = s.
Proof. intros Hsep. exact (join_split_pieces sep s Hsep 0 "" "" s eq_refl eq_refl). Qed.

Lemma includes_char_app (c : ascii) (a b : string) :
  includes (a ++ b) (String c "") = includes a (String c "") || includes b (String c "").
Proof.
  induction a as [|d a IH].
  - rewrite append_nil. reflexivity.
  - rewrite append_cons, !includes_char, IH. now rewrite orb_assoc.
Qed.

Lemma split_pieces_char (c : ascii) (s : string) :
  forall piece,
    includes piece (String c "") = false ->
    Forall (fun piece => includes piece (String c "") = false)
           (split_pieces (String c "") s 0 piece).
Proof.
  induction s as [|d s IH]; intros piece Hpiece; cbn [split_pieces].
  - now constructor.
  - cbn [startsWith]. rewrite andb_true_r.
    destruct (Ascii.eqb c d) eqn:Hd.
    + constructor; [exact Hpiece|]. cbn [String.length Nat.sub]. now apply IH.
    + apply IH. rewrite includes_char_app, Hpiece, includes_char, Hd. reflexivity.
Qed.
End SplitFacts.

Section ExecutorExtras.
Import SafetyValidation SafetyValidator ValidatorSpec SafetyValidatorFacts.
Import CodeExecutor ManagerSpec SplitFacts.


Lemma not_dangerous_without_command step props :
  truthy (obj_get "command" props) = false -> isDangerous step props = false.
Proof.
  unfold isDangerous. intros H.
  destruct (obj_get "command" props) as [| |b|q|c|items|o]; try apply andb_false_r.
  cbn in H. apply negb_false_iff, String.eqb_eq in H. subst c. apply andb_false_r.
Qed.

(** X17.  A terminal step without a command passes the validator, which
    reads the missing command as an empty one, and then fails in the
    executor, whatever the environment. *)
Theorem missing_command_passes_then_fails env step context props :
  type_is step "terminal_command" = true ->
  TaskStep.parameters step = JObj props ->
  command_typed step props ->
  truthy (obj_get "command" props) = false ->
  path_typed props ->
  isOutside context props = false ->
  passes context step /\
  executeStep env step context = Throw "Command is required for terminal operations".
Proof.
  intros Htype Hp Hc Hcommand Ht Hinside. split.
  - destruct (validateStep_verdict step context props Hp Hc Ht) as (v & Hv & Hsafe & _).
    exists v. split; [exact Hv|]. rewrite Hsafe, Hinside.
    rewrite (not_dangerous_without_command step props Hcommand).
    unfold isSensitive.
    now rewrite (type_is_exclusive step "terminal_command" "file_operation").
  - unfold executeStep, handler. unfold type_is in Htype.
    assert (jsval_is_string (TaskStep.type step) "code_generation" = false) as ->
        by (apply (type_is_exclusive step "terminal_command"); [discriminate | exact Htype]).
    assert (jsval_is_string (TaskStep.type step) "file_operation" = false) as ->
        by (apply (type_is_exclusive step "terminal_command"); [discriminate | exact Htype]).
    rewrite Htype. unfold executeTerminalCommand, spawnArguments.
    rewrite Hp. cbn [bind get]. now rewrite Hcommand.
Qed.






(** X20.  The command of a terminal step is cut at every space: the
    program and its arguments hold no space, quotes are not read, and
    joined with spaces they give the command back, which is the line
    that the shell of [spawn] runs. *)
Theorem spawn_gets_the_command env step context props command :
  TaskStep.parameters step = JObj props ->
  obj_get "command" props = JStr command ->
  command <> "" ->
  exists cmd args workingDirectory,
    spawnArguments env step context = Normal (cmd, args, workingDirectory) /\
    join " " (cmd :: args) = command /\
    Forall (fun piece => includes piece " " = false) (cmd :: args).
Proof.
  intros Hp Hcommand Hne. unfold spawnArguments. rewrite Hp. cbn [bind get].
  rewrite Hcommand.
  assert (truthy (JStr command) = true) as ->
      by (cbn; now apply negb_true_iff, String.eqb_neq).
  cbn [negb].
  destruct (split_pieces_cons " " command 0 "") as (cmd & args & Hsplit).
  unfold split. rewrite Hsplit. cbn [List.hd List.tl].
  exists cmd, args. eexists. split; [reflexivity|]. rewrite <- Hsplit. split.
  - now apply (join_split command " ").
  - now apply split_pieces_char.
Qed.
End ExecutorExtras.

Section ExecutorExtrasExamples.
Import SafetyValidation SafetyValidator ValidatorSpec CodeExecutor ManagerSpec Examples.


Lemma missing_command_passes_then_fails_witness :
  passes proj no_command /\
  executeStep env_of_proj no_command proj =
  Throw "Command is required for terminal operations".
Proof.
  apply (missing_command_passes_then_fails env_of_proj no_command proj []);
    try reflexivity.
  intros _. exact I.
Defined.



Lemma spawn_gets_the_command_witness :
  exists cmd args workingDirectory,
    spawnArguments env_of_proj list_sources proj = Normal (cmd, args, workingDirectory) /\
    join " " (cmd :: args) = "ls -la  src" /\
    Forall (fun piece => includes piece " " = false) (cmd :: args).
Proof.
  apply (spawn_gets_the_command env_of_proj list_sources proj
                                [("command", JStr "ls -la  src")]);
    [reflexivity | reflexivity | discriminate].
Defined.
End ExecutorExtrasExamples.

(** * The context analyzer *)

Section ContextExtras.
Import ContextAnalyzer.

Lemma existsb_eqb_In (name : string) (files : list string) :
  existsb (String.eqb name) files = true <-> In name files.
Proof.
  rewrite existsb_exists. split.
  - intros (file & Hin & Heq). apply String.eqb_eq in Heq. now subst.
  - intros Hin. exists name. split; [exact Hin | apply String.eqb_refl].
Qed.

Lemma existsb_eqb_not_In (name : string) (files : list string) :
  existsb (String.eqb name) files = false <-> ~ In name files.
Proof. rewrite <- existsb_eqb_In. now destruct (existsb _ _). Qed.

(** X21.  The type of a project depends on which names the root of the
    workspace holds, not on their order.  [package.json] decides for
    [node] whatever else is there; a C# project is recognised only by a
    file that is named [.csproj] or [.sln], with nothing before the dot;
    and the type is [unknown] exactly when none of the thirteen marker
    files is there. *)
Theorem detectProjectType_by_membership (files : list string) :
  (forall files', (forall name, In name files <-> In name files') ->
                  detectProjectType files' = detectProjectType files) /\
  (In "package.json" files -> detectProjectType files = "node") /\
  (detectProjectType files = "csharp" -> In ".csproj" files \/ In ".sln" files) /\
  (detectProjectType files = "unknown" <->
   Forall (fun name => ~ In name files)
          [ "package.json"; "requirements.txt"; "pyproject.toml"; "Cargo.toml"; "go.mod";
            "pom.xml"; "build.gradle"; "Gemfile"; "composer.json"; ".csproj"; ".sln";
            "CMakeLists.txt"; "Makefile" ]).
Proof.
  split; [|split; [|split]].
  - intros files' Hsame.
    assert (forall name, existsb (String.eqb name) files'
                         = existsb (String.eqb name) files) as Hb.
    { intros name. apply eq_true_iff_eq. rewrite !existsb_eqb_In. symmetry. apply Hsame. }
    unfold detectProjectType. now rewrite !Hb.
  - intros Hin. unfold detectProjectType.
    now rewrite (proj2 (existsb_eqb_In "package.json" files) Hin).
  - unfold detectProjectType.
    repeat match goal with
           | |- context [if ?b then _ else _] => destruct b eqn:?; try discriminate
           end.
    intros _.
    match goal with
    | H : _ || _ = true |- _ =>
        apply orb_true_iff in H as [H|H]; apply existsb_eqb_In in H; tauto
    end.
  - unfold detectProjectType. rewrite !Forall_cons, Forall_nil.
    rewrite <- !existsb_eqb_not_In.
    repeat match goal with
           | |- context [if ?b then _ else _] => destruct b eqn:?
           end;
      repeat match goal with
             | H : _ || _ = true |- _ => apply orb_true_iff in H
             | H : _ || _ = false |- _ => apply orb_false_iff in H as [? ?]
             end;
      split; try discriminate; intuition congruence.
Qed.
End ContextExtras.

(** * The status bar *)

Section StatusBarExtras.
Import CodeCompanionManager ManagerSpec ManagerFacts StretchFacts StatusBar.
Variable JSON_parse : string -> option jsval.

Lemma omap_all_Some {A B : Type} (f : A -> option B) (P : B -> Prop) (l : list A) :
  (forall a, a ∈ l -> exists b, f a = Some b /\ P b) ->
  length (omap f l) = length l /\ Forall P (omap f l).
Proof.
  induction l as [|a l IH]; intros H; [split; [reflexivity | constructor]|].
  destruct (H a) as (b & Hb & HP); [apply elem_of_cons; now left|].
  destruct IH as [Hlen Hall]; [intros a' Hin; apply H, elem_of_cons; now right|].
  cbn [omap list_omap]. rewrite Hb. cbn [length]. split; [now rewrite Hlen|].
  now constructor.
Qed.

Lemma getActiveTasks_running (m : CodeCompanionManager.t) :
  consistent m ->
  length (getActiveTasks m) = size (activeTasks m) /\
  Forall (fun task => is_running task = true) (getActiveTasks m).
Proof.
  intros (Hactive & _ & _). unfold getActiveTasks.
  rewrite <- length_map_to_list. apply omap_all_Some.
  intros [taskId r] Hin. apply elem_of_map_to_list in Hin.
  destruct (Hactive taskId r Hin) as (c & Hc & _ & Hs).
  exists (task c). cbn [snd]. rewrite Hc. split; [reflexivity|]. unfold is_running.
  destruct (Task.status (task c)); try reflexivity; discriminate.
Qed.

Lemma filter_all {A : Type} (f : A -> bool) (l : list A) :
  Forall (fun a => f a = true) l -> List.filter f l = l.
Proof.
  induction 1 as [|a l Ha _ IH]; [reflexivity|]. cbn. now rewrite Ha, IH.
Qed.

(** X22.  Every task that [getActiveTasks] returns is planning,
    analyzing or executing; the status bar therefore never shows the
    text [Ready] beside its bulb while the map holds a task: it shows the
    spinning icon and the number of the tasks of the map, or the plain
    name of the extension when the map is empty. *)
Theorem status_bar_counts_the_map persistedHistory (m : CodeCompanionManager.t) statusText :
  reachable JSON_parse persistedHistory m ->
  let item := updateStatus (getActiveTasks m) statusText in
  let activeCount := size (activeTasks m) in
  Forall (fun task => is_running task = true) (getActiveTasks m) /\
  text item = (if (0 <? activeCount)%nat
               then "$(sync~spin) CodeCompanion: " ++ pretty activeCount ++ " active"
               else "$(lightbulb) CodeCompanion")%string /\
  prominent item = (0 <? activeCount)%nat.
Proof.
  intros Hm item activeCount.
  destruct (getActiveTasks_running m (reachable_consistent _ _ _ Hm)) as [Hlen Hrun].
  split; [exact Hrun|]. unfold item, updateStatus.
  rewrite (filter_all _ _ Hrun), Hlen. fold activeCount.
  destruct (0 <? activeCount)%nat; split; reflexivity.
Qed.
End StatusBarExtras.

Section StatusBarExtrasExamples.
Import CodeCompanionManager ManagerSpec StatusBar Examples.

Lemma status_bar_counts_the_map_witness :
  let m := executeTask review [] "task_1" 1000 (new []) in
  text (updateStatus (getActiveTasks m) (Some (statusText m)))
  = "$(sync~spin) CodeCompanion: 1 active".
Proof.
  intros m.
  assert (reachable JSON.parse [] m) as Hm.
  { apply (reachable_react JSON.parse [] (ExecuteTaskCalled review [] "task_1" 1000)
                           (new []) m).
    - apply reachable_new.
    - split; apply not_elem_of_nil.
    - reflexivity. }
  destruct (status_bar_counts_the_map JSON.parse [] m (Some (statusText m)) Hm)
    as (_ & Htext & _).
  rewrite Htext. vm_compute. reflexivity.
Defined.
End StatusBarExtrasExamples.

(** * Regular expressions *)

Module RegExpFacts.
Import RegExp BraceFacts SplitFacts.

Lemma lang_Never s : ~ lang Never s.
Proof. intros H. inversion H. Qed.

Lemma lang_Empty_inv s : lang Empty s -> s = "".
Proof. intros H. now inversion H. Qed.

Lemma lang_Seq_inv a b s :
  lang (Seq a b) s -> exists s1 s2, s = (s1 ++ s2)%string /\ lang a s1 /\ lang b s2.
Proof. intros H. inversion H; subst. eauto. Qed.

Lemma lang_Alt_inv a b s : lang (Alt a b) s -> lang a s \/ lang b s.
Proof. intros H. inversion H; subst; tauto. Qed.

Lemma lang_seq a b s : lang (seq a b) s <-> lang (Seq a b) s.
Proof.
  assert (forall s, lang a s -> lang (Seq a Empty) s) as Hright.
  { intros s' H. rewrite <- (append_empty s'). constructor; [exact H | constructor]. }
  assert (forall s, lang b s -> lang (Seq Empty b) s) as Hleft.
  { intros s' H. rewrite <- (append_nil s'). constructor; [constructor | exact H]. }
  split.
  - destruct a, b; cbn [seq]; intros H;
      try (now apply lang_Never in H); try exact H;
      try (now apply Hright); try (now apply Hleft).
  - intros H. apply lang_Seq_inv in H as (s1 & s2 & -> & H1 & H2).
    destruct a, b; cbn [seq];
      try (now apply lang_Never in H1); try (now apply lang_Never in H2);
      try (apply lang_Empty_inv in H1; subst; rewrite append_nil; exact H2);
      try (apply lang_Empty_inv in H2; subst; rewrite append_empty; exact H1);
      now constructor.
Qed.

Lemma lang_alt a b s : lang (alt a b) s <-> lang (Alt a b) s.
Proof.
  split.
  - destruct a, b; cbn [alt]; intros H; try exact H;
      try (now apply lang_Alt_r); try (now apply lang_Alt_l).
  - intros H. apply lang_Alt_inv in H as [H|H]; destruct a, b; cbn [alt];
      try (now apply lang_Never in H); try exact H;
      try (now apply lang_Alt_l); try (now apply lang_Alt_r).
Qed.

Lemma append_eq_empty (a b : string) : (a ++ b)%string = "" -> a = "" /\ b = "".
Proof. destruct a; [rewrite append_nil; tauto | discriminate]. Qed.

Lemma nullable_spec r : nullable r = true <-> lang r "".
Proof.
  induction r as [| |k|a IHa b IHb|a IHa b IHb|a IHa]; cbn [nullable].
  - split; [discriminate | intros H; now apply lang_Never in H].
  - split; [constructor | reflexivity].
  - split; [discriminate | intros H; inversion H].
  - rewrite andb_true_iff, IHa, IHb. split.
    + intros [Ha Hb]. change "" with ("" ++ "")%string. now constructor.
    + intros H. apply lang_Seq_inv in H as (s1 & s2 & Heq & H1 & H2).
      symmetry in Heq. apply append_eq_empty in Heq as [-> ->]. tauto.
  - rewrite orb_true_iff, IHa, IHb. split.
    + intros [H|H]; [now apply lang_Alt_l | now apply lang_Alt_r].
    + apply lang_Alt_inv.
  - split; [constructor | reflexivity].
Qed.

(** A match of [a*] that is not empty starts with a match of [a] that
    is not empty. *)
Lemma lang_Star_inv a c s :
  lang (Star a) (String c s) ->
  exists s1 s2, s = (s1 ++ s2)%string /\ lang a (String c s1) /\ lang (Star a) s2.
Proof.
  intros H. remember (Star a) as r eqn:Hr. remember (String c s) as cs eqn:Hcs.
  revert s Hcs. induction H as [| | | | | |a' s1 s2 H1 _ H2 IH2]; try discriminate.
  injection Hr as ->. intros s Hcs. destruct s1 as [|d s1].
  - rewrite append_nil in Hcs. now apply IH2.
  - rewrite append_cons in Hcs. injection Hcs as <- <-. eauto.
Qed.

Lemma derivative_spec c r : forall s, lang (derivative c r) s <-> lang r (String c s).
Proof.
  induction r as [| |k|a IHa b IHb|a IHa b IHb|a IHa]; intros s; cbn [derivative].
  - split; intros H; inversion H.
  - split; intros H; inversion H.
  - destruct (member k c) eqn:Hk.
    + split.
      * intros H. apply lang_Empty_inv in H. subst. now constructor.
      * intros H. inversion H; subst. constructor.
    + split; [intros H; inversion H|]. intros H. inversion H; subst. congruence.
  - rewrite lang_alt. split.
    + intros H. apply lang_Alt_inv in H as [H|H].
      * apply lang_seq, lang_Seq_inv in H as (s1 & s2 & -> & H1 & H2).
        apply IHa in H1. rewrite <- append_cons. now constructor.
      * destruct (nullable a) eqn:Hnull; [|now apply lang_Never in H].
        apply IHb in H. apply nullable_spec in Hnull.
        rewrite <- (append_nil (String c s)). now constructor.
    + intros H. apply lang_Seq_inv in H as (s1 & s2 & Heq & H1 & H2).
      destruct s1 as [|d s1].
      * rewrite append_nil in Heq. subst s2. apply lang_Alt_r.
        apply nullable_spec in H1. rewrite H1. now apply IHb.
      * rewrite append_cons in Heq. injection Heq as <- ->.
        apply lang_Alt_l, lang_seq. constructor; [now apply IHa | exact H2].
  - rewrite lang_alt. split.
    + intros H. apply lang_Alt_inv in H as [H|H];
        [apply lang_Alt_l, IHa | apply lang_Alt_r, IHb]; exact H.
    + intros H. apply lang_Alt_inv in H as [H|H];
        [apply lang_Alt_l, IHa | apply lang_Alt_r, IHb]; exact H.
  - rewrite lang_seq. split.
    + intros H. apply lang_Seq_inv in H as (s1 & s2 & -> & H1 & H2).
      apply IHa in H1. rewrite <- append_cons. now constructor.
    + intros H. apply lang_Star_inv in H as (s1 & s2 & -> & H1 & H2).
      constructor; [now apply IHa | exact H2].
Qed.

Lemma matches_prefix_spec s :
  forall r, matches_prefix r s = true <->
            exists m rest, s = (m ++ rest)%string /\ lang r m.
Proof.
  induction s as [|c s IH]; intros r; cbn [matches_prefix].
  - rewrite orb_false_r, nullable_spec. split.
    + intros H. exists "", "". split; [reflexivity | exact H].
    + intros (m & rest & Heq & H). symmetry in Heq.
      apply append_eq_empty in Heq as [-> _]. exact H.
  - rewrite orb_true_iff, nullable_spec, IH. split.
    + intros [H | (m & rest & -> & H)].
      * exists "", (String c s). split; [reflexivity | exact H].
      * exists (String c m), rest. split; [reflexivity | now apply derivative_spec].
    + intros (m & rest & Heq & H). destruct m as [|d m]; [now left|].
      rewrite append_cons in Heq. injection Heq as <- ->.
      right. exists m, rest. split; [reflexivity | now apply derivative_spec].
Qed.

(** [test] finds a match wherever it is. *)
Lemma test_spec r s :
  test r s = true <->
  exists before m after, s = (before ++ m ++ after)%string /\ lang r m.
Proof.
  induction s as [|c s IH]; cbn [test].
  - rewrite orb_false_r, matches_prefix_spec. split.
    + intros (m & rest & Heq & H). exists "", m, rest. split; [exact Heq | exact H].
    + intros (before & m & rest & Heq & H). symmetry in Heq.
      apply append_eq_empty in Heq as [-> Heq].
      exists m, rest. split; [now rewrite Heq | exact H].
  - rewrite orb_true_iff, matches_prefix_spec, IH. split.
    + intros [(m & rest & Heq & H) | (before & m & rest & -> & H)].
      * exists "", m, rest. split; [exact Heq | exact H].
      * exists (String c before), m, rest. split; [reflexivity | exact H].
    + intros (before & m & rest & Heq & H). destruct before as [|d before].
      * left. exists m, rest. split; [exact Heq | exact H].
      * rewrite append_cons in Heq. injection Heq as <- ->.
        right. exists before, m, rest. split; [reflexivity | exact H].
Qed.

Lemma lang_lit s : lang (lit s) s.
Proof.
  induction s as [|c s IH]; [constructor|]. cbn [lit]. destruct s as [|d s].
  - constructor. cbn. apply Ascii.eqb_refl.
  - change (String c (String d s)) with (String c "" ++ String d s)%string.
    constructor; [|exact IH]. constructor. cbn. apply Ascii.eqb_refl.
Qed.

Lemma lang_lit_inv s m : lang (lit s) m -> m = s.
Proof.
  revert m. induction s as [|c s IH]; intros m; cbn [lit].
  - apply lang_Empty_inv.
  - assert (forall m, lang (One (Char c)) m -> m = String c "") as Hone.
    { intros m' H. inversion H as [|k d Hd| | | | |]; subst. cbn in Hd.
      apply Ascii.eqb_eq in Hd. now subst. }
    destruct s as [|d s]; [apply Hone|].
    intros H. apply lang_Seq_inv in H as (s1 & s2 & -> & H1 & H2).
    apply Hone in H1. apply IH in H2. now subst.
Qed.

Lemma lang_seqs_cons r l s1 s2 :
  lang r s1 -> lang (seqs l) s2 -> lang (seqs (r :: l)) (s1 ++ s2).
Proof.
  intros H1 H2. cbn [seqs]. destruct l as [|r' l].
  - apply lang_Empty_inv in H2. subst. now rewrite append_empty.
  - now constructor.
Qed.

Lemma lang_seqs_inv r l s :
  lang (seqs (r :: l)) s ->
  exists s1 s2, s = (s1 ++ s2)%string /\ lang r s1 /\ lang (seqs l) s2.
Proof.
  cbn [seqs]. destruct l as [|r' l].
  - intros H. exists s, "". rewrite append_empty. repeat split; [exact H | constructor].
  - apply lang_Seq_inv.
Qed.

Lemma test_includes_lit r s text :
  lang r text -> includes s text = true -> test r s = true.
Proof.
  intros H Hin. apply includes_app in Hin as (before & after & ->).
  apply test_spec. eauto.
Qed.

Lemma holds_spec c r m : lang r m -> holds c r = true -> includes m (String c "") = true.
Proof.
  induction 1 as [|k d Hd|a b s1 s2 _ IH1 _ IH2|a b s _ IH|a b s _ IH| |a s1 s2 _ _ _ _];
    cbn [holds]; try discriminate.
  - intros Hk. rewrite includes_char. apply orb_true_iff. left.
    destruct k as [e|l|l]; cbn in Hd; [| |discriminate].
    + apply Ascii.eqb_eq in Hd, Hk. subst. apply Ascii.eqb_refl.
    + apply existsb_exists in Hd as (e & Hin & He). apply Ascii.eqb_eq in He. subst e.
      rewrite forallb_forall in Hk. now apply Hk.
  - intros Hk. rewrite includes_char_app. apply orb_true_iff in Hk as [Hk|Hk];
      [rewrite IH1 by exact Hk | rewrite IH2 by exact Hk]; now rewrite ?orb_true_r.
  - intros Hk. apply andb_true_iff in Hk as [Hk _]. now apply IH.
  - intros Hk. apply andb_true_iff in Hk as [_ Hk]. now apply IH.
Qed.

(** A text without the character is matched by no pattern all of whose
    matches hold it. *)
Lemma test_holds c r s :
  holds c r = true -> includes s (String c "") = false -> test r s = false.
Proof.
  intros Hk Hs. destruct (test r s) eqn:Htest; [|reflexivity].
  apply test_spec in Htest as (before & m & after & -> & H).
  apply (holds_spec c) in H; [|exact Hk].
  rewrite !includes_char_app, H, orb_true_r in Hs. discriminate.
Qed.
End RegExpFacts.

(** * The validators of generated and refactored code *)

Module CodeValidationFacts.
Import SafetyValidation SafetyValidator RegExp RegExpFacts BraceFacts SplitFacts.

Lemma some_test_holds (patterns : list RegExp.t) (chars : list ascii) (code : string) :
  forallb (fun pattern => existsb (fun c => holds c pattern) chars) patterns = true ->
  Forall (fun c => includes code (String c "") = false) chars ->
  some_test patterns code = false.
Proof.
  intros Hholds Hcode. unfold some_test.
  destruct (existsb _ patterns) eqn:Hsome; [|reflexivity].
  apply existsb_exists in Hsome as (pattern & Hin & Htest).
  rewrite forallb_forall in Hholds. specialize (Hholds pattern Hin).
  apply existsb_exists in Hholds as (c & Hc & Hholds).
  rewrite Forall_forall in Hcode.
  rewrite (test_holds c pattern code Hholds) in Htest; [discriminate|].
  apply Hcode. now apply list_elem_of_In.
Qed.

Lemma some_test_intro (patterns : list RegExp.t) (pattern : RegExp.t) (code : string) :
  In pattern patterns -> test pattern code = true -> some_test patterns code = true.
Proof. intros Hin Htest. apply existsb_exists. eauto. Qed.

Lemma lang_plus r s : lang r s -> lang (plus r) s.
Proof.
  intros H. rewrite <- (append_empty s). constructor; [exact H | constructor].
Qed.

Lemma lang_call_of name blanks :
  lang (Star space) blanks -> lang (call_of name) (name ++ blanks ++ "(").
Proof.
  intros H. unfold call_of.
  apply lang_seqs_cons; [apply lang_lit|].
  apply lang_seqs_cons; [exact H|]. apply (lang_lit "(").
Qed.

Lemma lang_credential name blanks blanks' (open close : ascii) secret :
  lang (Star space) blanks ->
  lang (Star space) blanks' ->
  In open quotes -> In close quotes ->
  secret <> "" ->
  Forall (fun quote => includes secret (String quote "") = false) quotes ->
  lang (credential name)
       (name ++ blanks ++ "=" ++ blanks' ++ String open "" ++ secret ++ String close "").
Proof.
  intros Hb Hb' Hopen Hclose Hsecret Hquotes. unfold credential.
  assert (forall quote, In quote quotes -> lang (One (OneOf quotes)) (String quote ""))
    as Hquote.
  { intros quote Hin. constructor. cbn [member]. apply existsb_exists.
    exists quote. split; [exact Hin | apply Ascii.eqb_refl]. }
  apply lang_seqs_cons; [apply lang_lit|].
  apply lang_seqs_cons; [exact Hb|].
  apply lang_seqs_cons; [apply (lang_lit "=")|].
  apply lang_seqs_cons; [exact Hb'|].
  apply lang_seqs_cons; [now apply Hquote|].
  apply lang_seqs_cons; [|now apply Hquote].
  destruct secret as [|c secret]; [congruence|].
  unfold plus. change (String c secret) with (String c "" ++ secret)%string.
  constructor.
  - constructor. cbn [member]. apply negb_true_iff.
    destruct (existsb (Ascii.eqb c) quotes) eqn:Hex; [|reflexivity].
    apply existsb_exists in Hex as (quote & Hin & Heq). apply Ascii.eqb_eq in Heq.
    subst quote. rewrite Forall_forall in Hquotes.
    specialize (Hquotes c (proj2 (list_elem_of_In _ _) Hin)).
    rewrite includes_char, Ascii.eqb_refl in Hquotes. discriminate.
  - assert (forall s, Forall (fun quote => includes s (String quote "") = false) quotes ->
                      lang (Star (One (NoneOf quotes))) s) as Hall.
    { clear. induction s as [|d s IH]; intros Hs; [constructor|].
      change (String d s) with (String d "" ++ s)%string. constructor.
      - constructor. cbn [member]. apply negb_true_iff.
        destruct (existsb (Ascii.eqb d) quotes) eqn:Hd; [|reflexivity].
        apply existsb_exists in Hd as (quote & Hin & Heq). apply Ascii.eqb_eq in Heq.
        subst quote. rewrite Forall_forall in Hs.
        specialize (Hs d (proj2 (list_elem_of_In _ _) Hin)).
        rewrite includes_char, Ascii.eqb_refl in Hs. discriminate.
      - apply IH. rewrite Forall_forall in *. intros quote Hin.
        specialize (Hs quote Hin). rewrite includes_char in Hs.
        now apply orb_false_iff in Hs. }
    apply Hall. rewrite Forall_forall in *. intros quote Hin.
    specialize (Hquotes quote Hin). rewrite includes_char in Hquotes.
    now apply orb_false_iff in Hquotes.
Qed.
End CodeValidationFacts.

Section CodeValidationExtras.
Import SafetyValidation SafetyValidator RegExp RegExpFacts BraceFacts SplitFacts.
Import CodeValidationFacts.

(** X23.  [validateCodeGeneration] only advises: its verdict is always
    safe and without a reason, with at most three warnings and a
    recommendation for each.  Every pattern it looks for needs an opening
    parenthesis, a backtick, a dot or an equals sign: a text that holds
    none of the four raises no warning. *)
Theorem validateCodeGeneration_advisory code :
  let v := validateCodeGeneration code in
  safe v = true /\
  reason v = None /\
  length (warnings v) = length (recommendations v) /\
  length (warnings v) <= 3 /\
  (includes code "(" = false -> includes code "`" = false ->
   includes code "." = false -> includes code "=" = false ->
   v = mk true None [] []).
Proof.
  unfold validateCodeGeneration. cbv zeta.
  split; [|split; [|split; [|split]]].
  1-4: destruct (some_test securityPatterns code), (some_test credentialPatterns code),
         (some_test loopPatterns code); cbn; try reflexivity; lia.
  intros Hparen Htick Hdot Hequals.
  assert (Forall (fun c => includes code (String c "") = false)
                 ["("; "`"; "."; "="]%char) as Hcode by (repeat constructor; assumption).
  rewrite (some_test_holds securityPatterns ["("; "`"; "."; "="]%char code eq_refl Hcode).
  rewrite (some_test_holds credentialPatterns ["("; "`"; "."; "="]%char code eq_refl Hcode).
  now rewrite (some_test_holds loopPatterns ["("; "`"; "."; "="]%char code eq_refl Hcode).
Qed.

Lemma warn_In w rec v message :
  In message (warnings v) \/ message = w -> In message (warnings (warn w rec v)).
Proof. unfold warn. cbn. rewrite in_app_iff. cbn. intuition. Qed.

(** X24.  [validateCodeGeneration] warns of a security issue for every
    text that calls [eval], [exec], [system], [shell_exec] or
    [passthru], with or without white space before the parenthesis, and
    of hardcoded credentials for every text that assigns a quoted text
    to [password], [api_key], [secret] or [token]. *)
Theorem validateCodeGeneration_flags code name blanks :
  lang (Star space) blanks ->
  (In name ["eval"; "exec"; "system"; "shell_exec"; "passthru"] ->
   includes code (name ++ blanks ++ "(") = true ->
   In "Potential security issue detected in generated code"
      (warnings (validateCodeGeneration code))) /\
  (forall blanks' open close secret,
      In name ["password"; "api_key"; "secret"; "token"] ->
      lang (Star space) blanks' ->
      In open quotes -> In close quotes ->
      secret <> "" ->
      Forall (fun quote => includes secret (String quote "") = false) quotes ->
      includes code (name ++ blanks ++ "=" ++ blanks' ++ String open "" ++ secret
                          ++ String close "") = true ->
      In "Hardcoded credentials detected" (warnings (validateCodeGeneration code))).
Proof.
  intros Hblanks. split.
  - intros Hname Hcode.
    assert (some_test securityPatterns code = true) as Hsome.
    { apply (some_test_intro _ (call_of name)).
      - simpl in Hname. unfold securityPatterns. simpl.
        intuition (subst; tauto).
      - apply (test_includes_lit _ _ (name ++ blanks ++ "(")); [|exact Hcode].
        now apply lang_call_of. }
    unfold validateCodeGeneration. cbv zeta. rewrite Hsome.
    destruct (some_test credentialPatterns code), (some_test loopPatterns code);
      cbn; tauto.
  - intros blanks' open close secret Hname Hblanks' Hopen Hclose Hsecret Hquotes Hcode.
    assert (some_test credentialPatterns code = true) as Hsome.
    { apply (some_test_intro _ (credential name)).
      - simpl in Hname. unfold credentialPatterns. simpl.
        intuition (subst; tauto).
      - eapply test_includes_lit; [|exact Hcode].
        now apply lang_credential. }
    unfold validateCodeGeneration. cbv zeta. rewrite Hsome.
    destruct (some_test securityPatterns code), (some_test loopPatterns code);
      cbn; tauto.
Qed.

Lemma split_pieces_length_pos sep s skip piece :
  0 < length (split_pieces sep s skip piece).
Proof.
  destruct (split_pieces_cons sep s skip piece) as (first & rest & ->). simpl. lia.
Qed.

(** X25.  [validateRefactoring] only advises: its verdict is always safe
    and without a reason, with at most two warnings and a recommendation
    for each.  A refactoring that changes nothing raises no warning, and
    one that keeps the number of lines raises no warning about the
    structure. *)
Theorem validateRefactoring_advisory originalCode refactoredCode :
  let v := validateRefactoring originalCode refactoredCode in
  safe v = true /\
  reason v = None /\
  length (warnings v) = length (recommendations v) /\
  length (warnings v) <= 2 /\
  (length (split refactoredCode newline) = length (split originalCode newline) ->
   ~ In "Significant code structure change detected" (warnings v)) /\
  validateRefactoring originalCode originalCode = mk true None [] [].
Proof.
  assert (forall code code',
             length (split code' newline) = length (split code newline) ->
             Qcompare
               (inject_Z (Z.abs (Z.of_nat (length (split code newline))
                                 - Z.of_nat (length (split code' newline)))))
               (inject_Z (Z.of_nat (length (split code newline))) * (1 # 2)) = Lt)
    as Hsame.
  { intros code code' ->. rewrite Z.sub_diag. cbn [Z.abs].
    pose proof (split_pieces_length_pos newline code 0 "") as Hpos.
    fold (split code newline) in Hpos.
    unfold Qcompare, Qmult, inject_Z. cbn [Qnum Qden Z.abs].
    apply Z.compare_lt_iff. lia. }
  unfold validateRefactoring. cbv zeta.
  split; [|split; [|split; [|split; [|split]]]].
  1-4: destruct (Qcompare _ _);
    match goal with |- context [existsb ?f ?l] => destruct (existsb f l) end;
    cbn; try reflexivity; lia.
  - intros Hlines. rewrite (Hsame originalCode refactoredCode Hlines).
    match goal with |- context [existsb ?f ?l] => destruct (existsb f l) end;
      cbn; intuition discriminate.
  - rewrite (Hsame originalCode originalCode eq_refl).
    match goal with
    | |- context [existsb ?f ?l] =>
        assert (existsb f l = false) as ->; [|reflexivity]
    end.
    apply not_true_is_false. intros H. apply existsb_exists in H as (pattern & _ & H).
    apply andb_true_iff in H as [Hpos Hzero].
    apply Nat.ltb_lt in Hpos. apply Nat.eqb_eq in Hzero. lia.
Qed.

(** X26.  A refactoring that drops a keyword is reported: when the
    original holds [export], [import], [function], [class], [return] or
    [throw] followed by white space and the refactored text does not
    hold the word at all, [validateRefactoring] warns that important
    patterns may have been removed. *)
Theorem validateRefactoring_removed_keyword originalCode refactoredCode name blank :
  In name ["export"; "import"; "function"; "class"; "return"; "throw"] ->
  lang space blank ->
  includes originalCode (name ++ blank) = true ->
  includes refactoredCode name = false ->
  In "Important code patterns may have been removed"
     (warnings (validateRefactoring originalCode refactoredCode)).
Proof.
  intros Hname Hblank Horiginal Hrefactored.
  assert (test (keyword name) originalCode = true) as Ho.
  { apply (test_includes_lit _ _ (name ++ blank)); [|exact Horiginal].
    unfold keyword. constructor; [apply lang_lit | now apply lang_plus]. }
  assert (test (keyword name) refactoredCode = false) as Hr.
  { apply not_true_is_false. intros H.
    apply test_spec in H as (before & m & after & -> & H).
    unfold keyword in H. apply lang_Seq_inv in H as (s1 & s2 & -> & H1 & _).
    apply lang_lit_inv in H1. subst s1.
    assert (includes (before ++ (name ++ s2) ++ after) name = true) as Hin.
    { apply includes_app. exists before, (s2 ++ after)%string.
      now rewrite append_assoc. }
    congruence. }
  unfold validateRefactoring. cbv zeta.
  match goal with
  | |- context [existsb ?f ?l] => assert (existsb f l = true) as ->
  end.
  { apply existsb_exists. exists (keyword name). split.
    - simpl in Hname. unfold importantPatterns. simpl. intuition (subst; tauto).
    - unfold matches. now rewrite Ho, Hr. }
  apply warn_In. now right.
Qed.
End CodeValidationExtras.

Section CodeValidationExtrasExamples.
Import SafetyValidation SafetyValidator RegExp.

Lemma lang_blank : lang space " ".
Proof. apply lang_Alt_l. now constructor. Qed.

Lemma lang_blanks : lang (Star space) " ".
Proof. apply (lang_Star_cons space " " ""); [exact lang_blank | constructor]. Qed.

Lemma validateCodeGeneration_flags_witness :
  In "Potential security issue detected in generated code"
     (warnings (validateCodeGeneration "x = eval (input)")) /\
  In "Hardcoded credentials detected"
     (warnings (validateCodeGeneration "const password = 'hunter2';")).
Proof.
  split.
  - apply (proj1 (validateCodeGeneration_flags "x = eval (input)" "eval" " " lang_blanks));
      [simpl; tauto | reflexivity].
  - apply (proj2 (validateCodeGeneration_flags "const password = 'hunter2';" "password"
                                               " " lang_blanks)
                 " " "'"%char "'"%char "hunter2");
      try reflexivity; try exact lang_blanks; try (simpl; tauto); try discriminate.
    repeat constructor.
Defined.

Lemma validateRefactoring_removed_keyword_witness :
  In "Important code patterns may have been removed"
     (warnings (validateRefactoring "export function f() {}" "function f() {}")).
Proof.
  apply (validateRefactoring_removed_keyword _ _ "export" " ");
    [simpl; tauto | exact lang_blank | reflexivity | reflexivity].
Defined.
End CodeValidationExtrasExamples.

(** * The plans of the commands of the extension *)

Section CommandExtras.
Import SafetyValidation SafetyValidator ValidatorSpec SafetyValidatorFacts.
Import TaskPlanner CodeExecutor ManagerSpec.

(** X27.  The plan that the planner falls back to for [refactor] and
    [fix] analyses, generates, and then applies: its third step replaces
    the file of the task, and it names no content, so that the executor
    replaces the content of the file by the empty text.  The validator
    lets the first two steps pass, and the third one exactly when the
    file is not a sensitive one and lies inside the workspace. *)
Theorem default_plan_replaces_with_nothing env type params context filePath :
  type = refactor \/ type = fix_ ->
  obj_get "filePath" params = JStr filePath ->
  isAbsolute filePath = true ->
  exists analyze generate apply,
    Plan.steps (createDefaultPlan type params context) = [analyze; generate; apply] /\
    passes context analyze /\
    passes context generate /\
    executeStep env apply context = fileCall env (replaceFileContent filePath (JStr "")) /\
    (passes context apply <->
     existsb (fun sensitive => includes filePath sensitive) sensitiveFiles = false /\
     isOutside context [("filePath", JStr filePath); ("operation", JStr "replace")] = false).
Proof.
  intros Htype Hpath Habs.
  assert (filePath <> "") as Hne by (intros ->; discriminate).
  set (props := [("filePath", JStr filePath); ("operation", JStr "replace")]).
  assert (forall id name description,
             let apply := pending_step id name description (JStr "file_operation")
                                       (JObj props) in
             executeStep env apply context
             = fileCall env (replaceFileContent filePath (JStr "")) /\
             (passes context apply <->
              existsb (fun sensitive => includes filePath sensitive) sensitiveFiles = false /\
              isOutside context props = false)) as Happly.
  { intros id name description apply. split.
    - unfold executeStep. change (handler apply) with FileOperation.
      unfold executeFileOperation, resolvedPath. cbn [apply pending_step TaskStep.parameters].
      cbn [get bind props obj_get String.eqb Ascii.eqb Bool.eqb].
      assert (truthy (JStr filePath) = true) as Htruthy
          by (cbn; now apply negb_true_iff, String.eqb_neq).
      rewrite Htruthy. cbn [negb andb]. rewrite Htruthy. cbn [negb]. rewrite Htruthy.
      cbn [negb bind]. rewrite Habs. reflexivity.
    - destruct (validateStep_verdict apply context props eq_refl)
        as (v & Hv & Hsafe & _).
      + intros H. discriminate.
      + exact I.
      + assert (isDangerous apply props = false) as Hd by reflexivity.
        assert (isSensitive apply props
                = existsb (fun sensitive => includes filePath sensitive) sensitiveFiles)
          as Hs by (unfold isSensitive; cbn; now rewrite andb_true_r).
        rewrite Hd, Hs in Hsafe. cbn [orb] in Hsafe. split.
        * intros (v' & Hv' & Hsafe'). rewrite Hv in Hv'. injection Hv' as <-.
          rewrite Hsafe' in Hsafe. symmetry in Hsafe.
          apply negb_true_iff, orb_false_iff in Hsafe. exact Hsafe.
        * intros [Hsens Hout]. exists v. split; [exact Hv|].
          now rewrite Hsafe, Hsens, Hout. }
  assert (forall id name description type parameters,
             In type ["analysis"; "code_generation"] ->
             obj_get "filePath" parameters = JUndefined ->
             passes context (pending_step id name description (JStr type)
                                          (JObj parameters))) as Hstep.
  { intros id name description type' parameters Hin Hnone.
    exists (mk true None [] []). split; [|reflexivity].
    apply (validateStep_plain _ _ parameters); try reflexivity; try exact Hnone;
      simpl in Hin; intuition (subst; reflexivity). }
  destruct Htype as [-> | ->]; cbn [createDefaultPlan Plan.steps]; rewrite Hpath;
    do 3 eexists; (split; [reflexivity|]);
    (split; [apply Hstep; [simpl; tauto | reflexivity]|]);
    (split; [apply Hstep; [simpl; tauto | reflexivity]|]);
    apply Happly.
Qed.
End CommandExtras.

(** * Steps that fail *)

Section FailureExtras.
Import CodeCompanionManager ManagerSpec ManagerFacts StretchFacts.
Variable JSON_parse : string -> option jsval.

End FailureExtras.

Section CommandExtrasExamples.
Import SafetyValidation SafetyValidator ValidatorSpec TaskPlanner CodeExecutor.
Import CodeCompanionManager ManagerSpec Examples.

Lemma default_plan_replaces_with_nothing_witness :
  exists analyze generate apply,
    Plan.steps (createDefaultPlan refactor [("code", JStr "let x"); 
                                            ("filePath", JStr "/home/u/proj/src/a.ts")]
                                  proj)
    = [analyze; generate; apply] /\
    passes proj apply /\
    executeStep env_of_proj apply proj = Normal (JObj [("success", JBool true)]).
Proof.
  destruct (default_plan_replaces_with_nothing
              env_of_proj refactor
              [("code", JStr "let x"); ("filePath", JStr "/home/u/proj/src/a.ts")]
              proj "/home/u/proj/src/a.ts" (or_introl eq_refl) eq_refl eq_refl)
    as (analyze & generate & apply & Hsteps & _ & _ & Hrun & Hpasses).
  exists analyze, generate, apply. split; [exact Hsteps|].
  split; [apply Hpasses; split; reflexivity|]. rewrite Hrun. reflexivity.
Defined.

End CommandExtrasExamples.
